(** * astrobase: the SkyView stamp cache and the random-forest pipeline

    A shallow embedding of [astrobase/services/skyview.py] and
    [astrobase/varclass/rfclass.py].

    Python's effects are made explicit: every function that touches the
    disk, the network, the module globals or the log is a computation
    [world -> world * outcome A], where [outcome] is either a value or a
    raised exception.  Third-party entry points (hashlib, pyfits, astropy,
    requests, scikit-learn) are fields of an interface class: the general
    theorems hold for every instance of it, and the small instances
    at the end of the model only serve to run the code on concrete
    inputs. *)

From stdpp Require Import base strings list gmap pretty sorting.
From Stdlib Require Import ZArith Lia Ascii.

Local Open Scope Z_scope.

(** ** Python outcomes *)

Module Py.

(** The exceptions the two modules can meet.  [OtherError] carries the
    Python class name of anything the code does not single out. *)
Inductive exn : Type :=
| HTTPError
| Timeout
| KeyError (key : string)
| ValueError (msg : string)
| OverflowError
| OSError (msg : string)
| OtherError (cls : string).

Inductive outcome (A : Type) : Type :=
| Ok (a : A)
| Raise (e : exn).
Arguments Ok {A} a.
Arguments Raise {A} e.

(** [outcome] as a monad, for the parts that touch no world. *)
#[export] Instance outcome_ret : MRet outcome := fun _ a => Ok a.
#[export] Instance outcome_bind : MBind outcome := fun _ _ k o =>
  match o with Ok a => k a | Raise e => Raise e end.
#[export] Instance outcome_fmap : FMap outcome := fun _ _ f o =>
  match o with Ok a => Ok (f a) | Raise e => Raise e end.

(** State-and-exception computations over a world [W]. *)
Definition M (W A : Type) : Type := W -> W * outcome A.

Definition ret {W A} (a : A) : M W A := fun w => (w, Ok a).
Definition raise {W A} (e : exn) : M W A := fun w => (w, Raise e).
Definition bind {W A B} (m : M W A) (k : A -> M W B) : M W B :=
  fun w => match m w with
           | (w', Ok a) => k a w'
           | (w', Raise e) => (w', Raise e)
           end.
Definition lift {W A} (o : outcome A) : M W A := fun w => (w, o).
Definition modify {W} (f : W -> W) : M W unit := fun w => (f w, Ok tt).

(** [try: body except handler]: the handler runs on the world the body
    left behind, as Python's [try]/[except] does. *)
Definition try_except {W A} (body : M W A) (handler : exn -> M W A) : M W A :=
  fun w => match body w with
           | (w', Ok a) => (w', Ok a)
           | (w', Raise e) => handler e w'
           end.

(** A relation between the world before and the world after that a
    computation keeps, whatever its outcome. *)
Definition preserves {W A} (R : W -> W -> Prop) (m : M W A) : Prop :=
  forall w, R w (m w).1.

(** [if c: body] for a statement executed for its effect only. *)
Definition when {W} (c : bool) (body : M W unit) : M W unit :=
  if c then body else ret tt.

(** [for x in xs: body x]. *)
Fixpoint for_each {W A} (xs : list A) (body : A -> M W unit) : M W unit :=
  match xs with
  | [] => ret tt
  | x :: xs' => bind (body x) (fun _ => for_each xs' body)
  end.

(** Logging: [LOGINFO], [LOGERROR], [LOGWARNING], [LOGEXCEPTION] either
    hand the message to the module logger or print it; both end up as one
    line of the log. *)
Inductive level : Type := INFO | ERROR | WARNING | EXCEPTION.

Record logline : Type := LogLine {
  log_level : level;
  log_format : string;
  log_args : list string
}.

(** POSIX [os.path.join] of two components. *)
Definition starts_with_slash (s : string) : bool :=
  match s with
  | String c _ => bool_decide (c = "/"%char)
  | EmptyString => false
  end.

Fixpoint ends_with_slash (s : string) : bool :=
  match s with
  | EmptyString => false
  | String c EmptyString => bool_decide (c = "/"%char)
  | String _ s' => ends_with_slash s'
  end.

Definition path_join (a b : string) : string :=
  if starts_with_slash b then b
  else if bool_decide (a = "") || ends_with_slash a then a +:+ b
  else a +:+ "/" +:+ b.

(** [c in s] for a one-character needle. *)
Fixpoint contains_char (c : ascii) (s : string) : bool :=
  match s with
  | EmptyString => false
  | String d s' => bool_decide (c = d) || contains_char c s'
  end.

(** POSIX [os.path.dirname]: the part before the last slash, without its
    trailing slashes unless it is made of slashes only. *)
Fixpoint all_slashes (s : string) : bool :=
  match s with
  | EmptyString => true
  | String c s' => bool_decide (c = "/"%char) && all_slashes s'
  end.

(** [head_upto_last_slash s] is [s[:s.rfind('/')+1]]. *)
Fixpoint head_upto_last_slash (s : string) : string :=
  match s with
  | EmptyString => EmptyString
  | String c s' =>
      if contains_char "/" s' then String c (head_upto_last_slash s')
      else if bool_decide (c = "/"%char) then String c EmptyString
      else EmptyString
  end.

Fixpoint rstrip_slashes (s : string) : string :=
  match s with
  | EmptyString => EmptyString
  | String c s' =>
      if all_slashes s' && bool_decide (c = "/"%char) then EmptyString
      else if all_slashes s' then String c EmptyString
      else String c (rstrip_slashes s')
  end.

Definition dirname (p : string) : string :=
  let head := head_upto_last_slash p in
  if all_slashes head then head else rstrip_slashes head.

(** The directories above [p], nearest first: [dirname] again and again,
    up to the working directory ([dirname] gives [''] there) or the
    root, which are not listed. *)
Fixpoint ancestors_upto (n : nat) (p : string) : list string :=
  match n with
  | O => []
  | S n' =>
      let d := dirname p in
      if all_slashes d then [] else d :: ancestors_upto n' d
  end.

Definition ancestors (p : string) : list string :=
  ancestors_upto (String.length p) p.

(** [repr(s)] for a string without quotes, backslashes or control
    characters, as ['%.4f, %.4f'] makes them, and [repr([s])], which is
    also what [str([s])] and ['%s' % [s]] give. *)
Definition repr_str (s : string) : string := "'" +:+ s +:+ "'".

Definition repr_list1 (s : string) : string := "[" +:+ repr_str s +:+ "]".

(** [needle in s] for strings. *)
Fixpoint is_prefix (p s : string) : bool :=
  match p, s with
  | EmptyString, _ => true
  | String a p', String b s' => bool_decide (a = b) && is_prefix p' s'
  | String _ _, EmptyString => false
  end.

Fixpoint is_substring (needle s : string) : bool :=
  is_prefix needle s ||
  match s with
  | EmptyString => false
  | String _ s' => is_substring needle s'
  end.

(** Python's [xs[:m]] for an integer [m]: a non-negative bound keeps the
    first [m] items, a negative one drops the last [-m]. *)
Definition slice_to {A} (xs : list A) (m : Z) : list A :=
  if 0 <=? m then take (Z.to_nat m) xs
  else take (Z.to_nat (Z.of_nat (length xs) + m)) xs.

End Py.

Export Py.

Declare Scope py_scope.
Delimit Scope py_scope with py.
Notation "x <- m ;; k" := (Py.bind m (fun x => k))
  (at level 100, m at next level, right associativity) : py_scope.
Notation "m ;;; k" := (Py.bind m (fun _ => k))
  (at level 100, right associativity) : py_scope.

Local Open Scope py_scope.

(** ** services/skyview.py *)

Module Skyview.

(** An image as NumPy holds it: a list of rows, first row first. *)
Abbreviation image pixel := (list (list pixel)).

(** The types of the values the module only passes along: [float] for
    Python floats, [payload] for the bytes of a response body or of a file,
    [pixel], [header] and [kernel] for what pyfits and astropy work on. *)
Class Types : Type := {
  float : Type;
  payload : Type;
  pixel : Type;
  header : Type;
  kernel : Type
}.

Section Data.
Context `{Types}.

(** One [requests.get]: the URL, the query parameters if any, the
    timeout. *)
Record request : Type := Request {
  req_url : string;
  req_params : option (gmap string (list string));
  req_timeout : float
}.

(** What [requests.get] gives back: an exception, or a response with its
    status code, its [.text] and its [.content]. *)
Inductive reply : Type :=
| Failed (e : exn)
| Response (status : Z) (text : string) (content : payload).

(** A directory, or a file; [gz] records that the file was written
    through [gzip.open], [data] is what reading it back yields. *)
Inductive entry : Type :=
| Dir
| File (gz : bool) (data : payload).

(** The world of [get_stamp]: the files by path (a path is the string
    that spells it), the requests issued so far, the log, and
    [survey_list], the list object stored under
    [SKYVIEW_PARAMS['survey']]: [dict.copy] is shallow, so every call
    shares it. *)
Record world : Type := World {
  fs : gmap string entry;
  sent : list request;
  log : list logline;
  survey_list : list string
}.

Definition set_fs (f : gmap string entry -> gmap string entry) (w : world) : world :=
  World (f (fs w)) (sent w) (log w) (survey_list w).
Definition set_sent (f : list request -> list request) (w : world) : world :=
  World (fs w) (f (sent w)) (log w) (survey_list w).
Definition set_log (f : list logline -> list logline) (w : world) : world :=
  World (fs w) (sent w) (f (log w)) (survey_list w).
Definition set_survey_list (f : list string -> list string) (w : world) : world :=
  World (fs w) (sent w) (log w) (f (survey_list w)).

(** What [get_stamp] hands back besides [None]. *)
Inductive stamp : Type :=
| Frame (frame : image pixel)
| FrameHeader (frame : image pixel) (hdr : header).

Definition stamp_frame (s : stamp) : image pixel :=
  match s with Frame f => f | FrameHeader f _ => f end.

Definition stamp_header (s : stamp) : option header :=
  match s with Frame _ => None | FrameHeader _ h => Some h end.

(** What a fetch leaves alone: the shared survey list, and the existence
    of every path. *)
Definition keeps (w w' : world) : Prop :=
  survey_list w' = survey_list w /\
  forall p, is_Some (fs w !! p) -> is_Some (fs w' !! p).
End Data.

(** What the module imports, and the remote service: [server] answers a
    request given the requests issued before it. *)
Class Extern `{Types} : Type := {
  (** ['%.4f' % x] *)
  fmt_4f : float -> string;
  (** ['%s' % x], which for a float is [repr(x)] *)
  repr_float : float -> string;
  (** [hashlib.sha256(s.encode()).hexdigest()] *)
  sha256_hexdigest : string -> string;
  (** [os.path.expanduser] *)
  expanduser : string -> string;
  (** [pyfits.open(f)] followed by [[0].header] and [[0].data] *)
  fits_open : payload -> outcome (header * image pixel);
  (** [astropy.convolution.convolve] *)
  convolve : image pixel -> kernel -> outcome (image pixel);
  server : list request -> request -> reply
}.

Section Model.
Context `{Extern}.

Definition LOG (l : level) (fmt : string) (args : list string) : M world unit :=
  modify (set_log (fun ls => ls ++ [LogLine l fmt args])).
Definition LOGINFO := LOG INFO.
Definition LOGERROR := LOG ERROR.
Definition LOGEXCEPTION := LOG EXCEPTION.

(** *** Form settings *)

Definition SKYVIEW_URL : string :=
  "https://skyview.gsfc.nasa.gov/current/cgi/runquery.pl".

(** [SKYVIEW_PARAMS] without its ['survey'] entry, which lives in the
    world. *)
Definition SKYVIEW_PARAMS : gmap string (list string) :=
  list_to_map [
    ("CatalogIDs", ["on"]);
    ("Deedger", ["_skip_"]);
    ("Position", ["0.0, 0.0"]);
    ("Sampler", ["_skip_"]);
    ("coordinates", ["J2000"]);
    ("ebins", ["null"]);
    ("float", ["on"]);
    ("grid", ["_skip_"]);
    ("gridlabels", ["1"]);
    ("lut", ["colortables/b-w-linear.bin"]);
    ("pixels", ["300"]);
    ("projection", ["Tan"]);
    ("resolver", ["SIMBAD-NED"]);
    ("scaling", ["Linear"])
  ].

Definition SKYVIEW_SURVEY : list string :=
  ["DSS2 Red"; "_skip_"; "_skip_"; "_skip_"].

Definition FITS_BASEURL : string := "https://skyview.gsfc.nasa.gov".

(** *** [FITS_REGEX = (tempspace\/fits\/skv\d{8,20}\.fits)] *)

Definition is_digit (c : ascii) : bool :=
  let n := nat_of_ascii c in (48 <=? n)%nat && (n <=? 57)%nat.

(** [strip_prefix p s] is what follows [p] in [s], if [s] starts with
    [p]. *)
Fixpoint strip_prefix (p s : string) : option string :=
  match p, s with
  | EmptyString, _ => Some s
  | String a p', String b s' =>
      if bool_decide (a = b) then strip_prefix p' s' else None
  | String _ _, EmptyString => None
  end.

(** The longest run of digits at the head of [s], and the rest. *)
Fixpoint span_digits (s : string) : string * string :=
  match s with
  | String c s' =>
      if is_digit c
      then let '(ds, rest) := span_digits s' in (String c ds, rest)
      else (EmptyString, s)
  | EmptyString => (EmptyString, EmptyString)
  end.

(** A match of the pattern at the head of [s].  The digits are followed
    by a literal dot, so the only count of digits that can match is the
    whole run, and it has to lie between 8 and 20. *)
Definition match_here (s : string) : option string :=
  match strip_prefix "tempspace/fits/skv" s with
  | None => None
  | Some s1 =>
      let '(ds, s2) := span_digits s1 in
      let n := String.length ds in
      if (8 <=? n)%nat && (n <=? 20)%nat then
        match strip_prefix ".fits" s2 with
        | Some _ => Some ("tempspace/fits/skv" +:+ ds +:+ ".fits")
        | None => None
        end
      else None
  end.

(** [FITS_REGEX.findall]: leftmost matches that do not overlap; [skip]
    counts the characters of the last match still to be passed. *)
Fixpoint findall_from (skip : nat) (s : string) : list string :=
  match s with
  | EmptyString => []
  | String _ s' =>
      match skip with
      | S k => findall_from k s'
      | O =>
          match match_here s with
          | Some m => m :: findall_from (String.length m - 1) s'
          | None => findall_from 0 s'
          end
      end
  end.

Definition FITS_REGEX_findall (s : string) : list string := findall_from 0 s.

(** [urljoin(FITS_BASEURL, m)] for a match [m] of the pattern: a relative
    path without dot segments joined to a base without a path. *)
Definition urljoin (base rel : string) : string := base +:+ "/" +:+ rel.

(** *** The operating system and the libraries, on the world *)

(** [requests.get]: the request is recorded, the server answers. *)
Definition http_get (r : request) : M world (Z * string * payload) :=
  fun w =>
    let w' := set_sent (fun rs => rs ++ [r]) w in
    match server (sent w) r with
    | Failed e => (w', Raise e)
    | Response status text content => (w', Ok (status, text, content))
    end.

(** [Response.raise_for_status]: client and server error codes raise. *)
Definition raise_for_status (status : Z) : M world unit :=
  if (400 <=? status) && (status <? 600) then raise HTTPError else ret tt.

Definition path_exists (p : string) : M world bool :=
  fun w => (w, Ok (bool_decide (is_Some (fs w !! p)))).

Definition is_file (e : option entry) : bool :=
  match e with
  | Some (File _ _) => true
  | _ => false
  end.

(** [os.makedirs(p)]: the empty path names nothing, a path that is there
    cannot be made again (a regular file is there also under its name
    with a slash appended), and no directory can be made below a regular
    file.  Otherwise the directory is made, with the directories above it
    that are missing. *)
Definition makedirs_error (p : string) (w : world) : option exn :=
  if bool_decide (p = "") then Some (OSError "FileNotFoundError")
  else if bool_decide (is_Some (fs w !! p)) then Some (OSError "FileExistsError")
  else if existsb (fun a => is_file (fs w !! a)) (ancestors p) then
    if ends_with_slash p && is_file (fs w !! dirname p)
    then Some (OSError "FileExistsError")
    else Some (OSError "NotADirectoryError")
  else None.

Definition make_dirs (ps : list string) (m : gmap string entry)
  : gmap string entry :=
  foldr (fun a m => <[a := Dir]> m) m ps.

Definition makedirs (p : string) : M world unit :=
  fun w =>
    match makedirs_error p w with
    | Some e => (w, Raise e)
    | None => (set_fs (make_dirs (p :: ancestors p)) w, Ok tt)
    end.

(** [with gzip.open(path,'wb') as outfd: outfd.write(content)], for a
    [path] directly under [dir]: the file is created or truncated. *)
Definition gzip_write (dir path : string) (content : payload) : M world unit :=
  fun w =>
    match fs w !! dir, fs w !! path with
    | Some Dir, Some Dir => (w, Raise (OSError "IsADirectoryError"))
    | Some Dir, _ => (set_fs (fun m => <[path := File true content]> m) w, Ok tt)
    | Some (File _ _), _ => (w, Raise (OSError "NotADirectoryError"))
    | None, _ => (w, Raise (OSError "FileNotFoundError"))
    end.

(** [pyfits.open(path)], then the header and the data of the first HDU.
    A gzip file is read through its decompression. *)
Definition pyfits_open (path : string) : M world (header * image pixel) :=
  fun w =>
    match fs w !! path with
    | Some (File _ data) => (w, fits_open data)
    | Some Dir => (w, Raise (OSError "IsADirectoryError"))
    | None => (w, Raise (OSError "FileNotFoundError"))
    end.

(** [np.flipud]: the rows in reverse order. *)
Definition flipud {A} (frame : list A) : list A := reverse frame.

(** [formparams['survey'][0] = survey], on the shared list. *)
Definition set_survey (survey : string) : M world (list string) :=
  fun w =>
    match survey_list w with
    | [] => (w, Raise (OtherError "IndexError"))
    | _ :: rest =>
        (set_survey_list (fun _ => survey :: rest) w, Ok (survey :: rest))
    end.

(** *** [get_stamp] *)

(** The request for the query form and the request for one result
    file. *)
Definition query_request (params : gmap string (list string))
    (timeout : float) : request :=
  Request SKYVIEW_URL (Some params) timeout.

Definition file_request (timeout : float) (fitsurl : string) : request :=
  Request (urljoin FITS_BASEURL fitsurl) None timeout.

(** The body of [for fitsurl in fitsurls]. *)
Definition download (timeout : float) (verbose : bool)
    (cachedir cachefname : string) (fitsurl : string) : M world unit :=
  let fullfitsurl := urljoin FITS_BASEURL fitsurl in
  when verbose (LOGINFO "getting %s" [fullfitsurl]) ;;;
  fitsreq <- http_get (file_request timeout fitsurl) ;;
  let '(_, _, content) := fitsreq in
  gzip_write cachedir cachefname content.

(** The handlers of the [try] block: each logs and raises again. *)
Definition on_error (formposition : string) (timeout : float) (e : exn)
  : M world bool :=
  match e with
  | HTTPError =>
      LOGEXCEPTION "SkyView stamp request for coordinates %s failed"
                   [repr_list1 formposition] ;;;
      raise e
  | Timeout =>
      LOGERROR
        "SkyView stamp request for coordinates %s did not complete within %s seconds"
        [repr_list1 formposition; repr_float timeout] ;;;
      raise e
  | _ =>
      LOGEXCEPTION "SkyView stamp request for coordinates %s failed"
                   [repr_list1 formposition] ;;;
      raise e
  end.

(** The [try] block.  [true]: go on to open the frame; [false]: the
    [return None] of the branch without URLs. *)
Definition fetch (formposition survey scaling : string)
    (formparams : gmap string (list string)) (timeout : float)
    (verbose : bool) (cachedir cachefname : string) : M world bool :=
  try_except
    (when verbose
       (LOGINFO "submitting stamp request for %s, %s, %s"
                [formposition; survey; scaling]) ;;;
     req <- http_get (query_request formparams timeout) ;;
     let '(status, resp, _) := req in
     raise_for_status status ;;;
     (* find the URLS of the FITS *)
     let fitsurls := FITS_REGEX_findall resp in
     (* download the URLs *)
     match fitsurls with
     | _ :: _ =>
         for_each fitsurls (download timeout verbose cachedir cachefname) ;;;
         ret true
     | [] =>
         LOGERROR "no FITS URLs found in query results for %s"
                  [repr_list1 formposition] ;;;
         ret false
     end)
    (on_error formposition timeout).

(** The names [get_stamp] computes before it touches the cache. *)
Definition formposition (ra decl : float) : string :=
  fmt_4f ra +:+ ", " +:+ fmt_4f decl.

Definition cachekey (ra decl : float) (survey scaling : string) : string :=
  sha256_hexdigest (formposition ra decl +:+ "-" +:+ survey +:+ "-" +:+ scaling).

Definition resolve_cachedir (cachedir : string) : string :=
  if contains_char "~" cachedir then expanduser cachedir else cachedir.

Definition cachefname (cachedir : string) (ra decl : float)
    (survey scaling : string) : string :=
  path_join (resolve_cachedir cachedir)
            (cachekey ra decl survey scaling +:+ ".fits.gz").

Definition formparams (ra decl : float) (surveys : list string)
    (scaling : string) : gmap string (list string) :=
  <["scaling" := [scaling]]>
    (<["survey" := surveys]>
       (<["Position" := [formposition ra decl]]> SKYVIEW_PARAMS)).

(** Lines 252 to 263: the convolution and the four [return]s.  A kernel
    object is true, [None] is false. *)
Definition deliver (convolvewith : option kernel) (savewcsheader : bool)
    (frame : image pixel) (hdr : header) : outcome (option stamp) :=
  match convolvewith with
  | Some k =>
      convolved ← convolve frame k;
      if savewcsheader then Ok (Some (FrameHeader frame hdr))
      else Ok (Some (Frame frame))
  | None =>
      if savewcsheader then Ok (Some (FrameHeader frame hdr))
      else Ok (Some (Frame frame))
  end.

Definition get_stamp (ra decl : float) (survey scaling : string)
    (flip : bool) (convolvewith : option kernel) (forcefetch : bool)
    (cachedir : string) (timeout : float) (savewcsheader verbose : bool)
  : M world (option stamp) :=
  (* parse the given params into the correct format for the form *)
  surveys <- set_survey survey ;;
  (* see if the cachedir exists *)
  let cachedir' := resolve_cachedir cachedir in
  direxists <- path_exists cachedir' ;;
  when (negb direxists) (makedirs cachedir') ;;;
  (* figure out if we can get this image from the cache *)
  let cachefname := cachefname cachedir ra decl survey scaling in
  cached <- path_exists cachefname ;;
  (* if this exists in the cache and we're not refetching, get the frame *)
  goon <- (if forcefetch || negb cached
           then fetch (formposition ra decl) survey scaling
                      (formparams ra decl surveys scaling) timeout
                      verbose cachedir' cachefname
           else ret true) ;;
  if negb goon then ret None else
  (* open the frame *)
  stampfits <- pyfits_open cachefname ;;
  let '(hdr, frame) := stampfits in
  (* finally, we can process the frame *)
  let frame := if flip then flipud frame else frame in
  when verbose
    (LOGINFO "fetched stamp successfully for %s, provenance: %s"
       [repr_str (formposition ra decl);
        if forcefetch || negb cached then "new download" else "cache"]) ;;;
  lift (deliver convolvewith savewcsheader frame hdr).

End Model.

(** *** What [get_stamp] may do *)

Section Effects.
Context `{Extern}.

Fixpoint all_digits (s : string) : bool :=
  match s with
  | EmptyString => true
  | String c s' => is_digit c && all_digits s'
  end.

(** A path of the form the pattern describes: [tempspace/fits/skv], 8 to
    20 digits, [.fits]. *)
Definition fits_path (u : string) : Prop :=
  exists ds, u = "tempspace/fits/skv" +:+ ds +:+ ".fits" /\
             all_digits ds = true /\
             (8 <= String.length ds <= 20)%nat.

(** The requests a call may send: the query form, and result files of
    the SkyView site. *)
Definition allowed (timeout : float) (r : request) : Prop :=
  req_timeout r = timeout /\
  ((req_url r = SKYVIEW_URL /\ is_Some (req_params r)) \/
   (exists u, fits_path u /\
              req_url r = FITS_BASEURL +:+ "/" +:+ u /\ req_params r = None)).

(** What a call may do to the world once the survey is set: it keeps
    the survey list and every path, and only adds requests and log
    lines. *)
Definition advances (timeout : float) (w w' : world) : Prop :=
  survey_list w' = survey_list w /\
  (forall p, is_Some (fs w !! p) -> is_Some (fs w' !! p)) /\
  (exists new, sent w' = sent w ++ new /\ Forall (allowed timeout) new) /\
  (exists lines, log w' = log w ++ lines).

(** [get_stamp] from line 168 on, with [surveys] the survey list of the
    form: the look-up in the cache, the fetch, the frame. *)
Definition from_cache (ra decl : float) (survey scaling : string)
    (flip : bool) (convolvewith : option kernel) (forcefetch : bool)
    (cachedir : string) (timeout : float) (savewcsheader verbose : bool)
    (surveys : list string) : M world (option stamp) :=
  let cachefname := cachefname cachedir ra decl survey scaling in
  cached <- path_exists cachefname ;;
  goon <- (if forcefetch || negb cached
           then fetch (formposition ra decl) survey scaling
                      (formparams ra decl surveys scaling) timeout
                      verbose (resolve_cachedir cachedir) cachefname
           else ret true) ;;
  if negb goon then ret None else
  stampfits <- pyfits_open cachefname ;;
  let '(hdr, frame) := stampfits in
  let frame := if flip then flipud frame else frame in
  when verbose
    (LOGINFO "fetched stamp successfully for %s, provenance: %s"
       [repr_str (formposition ra decl);
        if forcefetch || negb cached then "new download" else "cache"]) ;;;
  lift (deliver convolvewith savewcsheader frame hdr).

(** The cache directory is there, or can be made: its path is not empty
    and no path above it is a regular file. *)
Definition usable (w : world) (dir : string) : Prop :=
  is_Some (fs w !! dir) \/
  (dir <> "" /\ Forall (fun a => is_file (fs w !! a) = false) (ancestors dir)).

(** The directories a call may make: the cache directory and those
    above it. *)
Definition cache_dirs (cachedir : string) : list string :=
  resolve_cachedir cachedir :: ancestors (resolve_cachedir cachedir).

(** The world once a usable cache directory is there. *)
Definition with_cachedir (dir : string) (w : world) : world :=
  if bool_decide (is_Some (fs w !! dir)) then w
  else set_fs (make_dirs (dir :: ancestors dir)) w.



End Effects.

End Skyview.

(** ** varclass/rfclass.py *)

Module Rfclass.

(** The types of the values the module only passes along: [scalar] for
    the numbers of a feature record or a keyword, and what scikit-learn
    makes. *)
Class Types : Type := {
  scalar : Type;
  classifier : Type;
  split : Type;
  search : Type;
  scores : Type;
  predictions : Type;
  probabilities : Type
}.

Section Data.
Context `{Types}.

(** *** Python values *)

(** An item of a list or of a NumPy array: a string (an object
    identifier, a feature name) or a number (a feature value). *)
Inductive atom : Type :=
| AStr (s : string)
| ANum (x : scalar).

(** What [feature_dict] holds under a key while the pickles are read:
    the magnitude column (a string), a Python list, or what [np.array]
    makes of them (a one-dimensional array; a zero-dimensional one for
    a string). *)
Inductive cell : Type :=
| CStr (s : string)
| CList (l : list atom)
| CArray (l : list atom)
| CArray0 (s : string).

(** A two-dimensional array with its shape. *)
Record matrix : Type := Matrix {
  nrows : nat;
  ncols : nat;
  rows : list (list atom)
}.

(** [feature_dict['kwargs']] *)
Record kwargs : Type := Kwargs {
  kw_pklglob : string;
  kw_featurestouse : option (list string);
  kw_maxobjects : option Z;
  kw_labeltype : string
}.

(** A value of the finished [feature_dict]; [DOther] is any object the
    collector does not make. *)
Inductive dval : Type :=
| DCell (c : cell)
| DMatrix (m : matrix)
| DLabels (l : list Z)
| DKwargs (k : kwargs)
| DOther.

(** A value of the caller's [labeldict]: a boolean or an integer class
    code. *)
Inductive pylabel : Type :=
| LBool (b : bool)
| LInt (z : Z).

(** A varfeatures pickle: [varf['objectid']], and under each magnitude
    column a dict from feature name to value. *)
Record varf : Type := Varf {
  objectid : string;
  magcols : gmap string (gmap string scalar)
}.

(** [train_rf_classifier]'s own keyword arguments, as stored in the
    bundle. *)
Record train_kwargs : Type := TrainKwargs {
  test_fraction : scalar;
  n_crossval_iterations : Z;
  n_kfolds : Z;
  crossval_scoring_metric : string;
  nworkers : Z
}.

(** The dict [train_rf_classifier] returns and [apply_rf_classifier]
    reads; a key may be missing from a dict the caller made.
    [clf_split] stands for the four keys of the training and testing
    sets, [clf_search] for ['best_score'] and ['best_hyperparams'],
    [clf_scores] for ['best_recall'], ['best_precision'], ['best_f1']
    and ['best_confmatrix']. *)
Record clfdict : Type := ClfDict {
  clf_features : option dval;
  clf_labels : option dval;
  clf_feature_names : option dval;
  clf_magcol : option dval;
  clf_objectids : option dval;
  clf_kwargs : option train_kwargs;
  clf_collect_kwargs : option dval;
  clf_split : option split;
  clf_best_classifier : option classifier;
  clf_search : option search;
  clf_scores : option scores
}.

(** The dicts of this module. *)
Inductive pydict : Type :=
| DictVarf (v : varf)
| DictFeatures (d : gmap string dval)
| DictClassifier (c : clfdict)
| DictPrediction (features : gmap string dval) (featfile : string)
    (classifier : pydict) (predicted_labels : predictions)
    (predicted_label_probs : probabilities).

(** The result dict of [apply_rf_classifier]. *)
Record prediction : Type := Prediction {
  pred_features : gmap string dval;
  pred_featfile : string;
  pred_classifier : pydict;
  pred_predicted_labels : predictions;
  pred_predicted_label_probs : probabilities
}.

(** What a pickle can hold: a dict, or an object that is no container
    at all ([None], a number). *)
Inductive pickled : Type :=
| PDict (d : pydict)
| PObject.

(** An argument that may be a path, a dict, or anything else. *)
Inductive pyarg : Type :=
| ArgStr (s : string)
| ArgDict (d : pydict)
| ArgOther.

Inductive file : Type :=
| FDir
| FBytes
| FPickle (p : pickled).

(** The world: the files by path, and the log. *)
Record world : Type := World {
  fs : gmap string file;
  log : list logline
}.

Definition set_fs (f : gmap string file -> gmap string file) (w : world) : world :=
  World (f (fs w)) (log w).
Definition set_log (f : list logline -> list logline) (w : world) : world :=
  World (fs w) (f (log w)).
End Data.

(** What the module imports from scikit-learn, NumPy and the standard
    library.  [train_test_split] is the stratified split; [cv_search] is
    the fit of [RandomizedSearchCV] with what [gridsearch_report] logs
    about it and its [best_estimator_], [best_score_] and [best_params_];
    [evaluate] is the prediction on the test set with its recall,
    precision, F1 and confusion matrix; [glob_glob] is what [glob.glob]
    lists for a pattern when the paths of the set it is given are the
    ones that exist. *)
Class Extern `{Types} : Type := {
  (** How NumPy writes a number into an array of strings. *)
  str_of_scalar : scalar -> string;
  train_test_split : dval -> dval -> train_kwargs -> outcome split;
  cv_search : split -> train_kwargs -> outcome (classifier * search * list logline);
  evaluate : classifier -> split -> outcome scores;
  predict : classifier -> matrix -> outcome predictions;
  predict_proba : classifier -> matrix -> outcome probabilities;
  glob_glob : gset string -> string -> list string
}.

Section Model.
Context `{Extern}.

Definition LOG (l : level) (fmt : string) (args : list string) : M world unit :=
  modify (set_log (fun ls => ls ++ [LogLine l fmt args])).
Definition LOGINFO := LOG INFO.
Definition LOGERROR := LOG ERROR.

Definition path_exists (p : string) : M world bool :=
  fun w => (w, Ok (bool_decide (is_Some (fs w !! p)))).

(** [with open(p,'rb') as infd: pickle.load(infd)] *)
Definition pickle_load (p : string) : M world pickled :=
  fun w =>
    match fs w !! p with
    | Some (FPickle v) => (w, Ok v)
    | Some FBytes => (w, Raise (OtherError "UnpicklingError"))
    | Some FDir => (w, Raise (OSError "IsADirectoryError"))
    | None => (w, Raise (OSError "FileNotFoundError"))
    end.

(** [open(p,'wb')]: what stands in the way of creating or truncating
    [p].  The empty path names nothing and a directory cannot be written;
    the directory of the file has to exist (the working directory, [''],
    and the root always do); and a path with a slash at its end names a
    directory even when nothing is there, so that it is the directory of
    the path without that slash that has to exist. *)
Definition open_wb_error (p : string) (w : world) : option exn :=
  if bool_decide (p = "") then Some (OSError "FileNotFoundError")
  else
    match fs w !! p with
    | Some FDir => Some (OSError "IsADirectoryError")
    | _ =>
        let d := dirname (if ends_with_slash p then dirname p else p) in
        match (if all_slashes d then Some FDir else fs w !! d) with
        | Some FDir =>
            if ends_with_slash p then Some (OSError "IsADirectoryError")
            else None
        | Some _ => Some (OSError "NotADirectoryError")
        | None => Some (OSError "FileNotFoundError")
        end
    end.

(** [with open(p,'wb') as outfd: pickle.dump(v, outfd, ...)] *)
Definition pickle_dump (v : pickled) (p : string) : M world unit :=
  fun w =>
    match open_wb_error p w with
    | Some e => (w, Raise e)
    | None => (set_fs (fun m => <[p := FPickle v]> m) w, Ok tt)
    end.

Definition NONPERIODIC_FEATURES_TO_COLLECT : list string :=
  ["stetsonj"; "stetsonk"; "amplitude"; "magnitude_ratio";
   "linear_fit_slope"; "eta_normal";
   "percentile_difference_flux_percentile"; "mad"; "skew"; "kurtosis";
   "mag_iqr"; "beyond1std"; "grcolor"; "gicolor"; "ricolor"; "bvcolor";
   "jhcolor"; "jkcolor"; "hkcolor"; "gkcolor"; "propermotion"].

(** [k in d] and [d[k]] for the dicts of the module.  A value that is
    not one of the collector's own reads as [DOther]. *)
Definition split_keys : list string :=
  ["testing_features"; "testing_labels"; "training_features"; "training_labels"].
Definition search_keys : list string := ["best_score"; "best_hyperparams"].
Definition scores_keys : list string :=
  ["best_recall"; "best_precision"; "best_f1"; "best_confmatrix"].
Definition prediction_keys : list string :=
  ["features"; "featfile"; "classifier"; "predicted_labels";
   "predicted_label_probs"].

Definition opaque {V} (field : option V) : option dval :=
  match field with Some _ => Some DOther | None => None end.

Definition clf_lookup (c : clfdict) (k : string) : option dval :=
  if bool_decide (k = "features") then clf_features c
  else if bool_decide (k = "labels") then clf_labels c
  else if bool_decide (k = "feature_names") then clf_feature_names c
  else if bool_decide (k = "magcol") then clf_magcol c
  else if bool_decide (k = "objectids") then clf_objectids c
  else if bool_decide (k = "kwargs") then opaque (clf_kwargs c)
  else if bool_decide (k = "collect_kwargs") then clf_collect_kwargs c
  else if bool_decide (k ∈ split_keys) then opaque (clf_split c)
  else if bool_decide (k = "best_classifier") then opaque (clf_best_classifier c)
  else if bool_decide (k ∈ search_keys) then opaque (clf_search c)
  else if bool_decide (k ∈ scores_keys) then opaque (clf_scores c)
  else None.

Definition pydict_lookup (d : pydict) (k : string) : option dval :=
  match d with
  | DictVarf v =>
      if bool_decide (k = "objectid") then Some (DCell (CStr (objectid v)))
      else opaque (magcols v !! k)
  | DictFeatures d => d !! k
  | DictClassifier c => clf_lookup c k
  | DictPrediction _ _ _ _ _ =>
      if bool_decide (k ∈ prediction_keys) then Some DOther else None
  end.

Definition pydict_get (d : pydict) (k : string) : outcome dval :=
  match pydict_lookup d k with
  | Some v => Ok v
  | None => Raise (KeyError k)
  end.

(** *** [feature_dict] while the pickles are read *)

Abbreviation dict := (gmap string cell).

(** Loops over a list that thread a value and stop at the first
    exception. *)
Fixpoint fold_outcome {A B} (f : B -> A -> outcome B) (xs : list A) (b : B)
  : outcome B :=
  match xs with
  | [] => Ok b
  | x :: xs' => b' ← f b x; fold_outcome f xs' b'
  end.

Fixpoint map_outcome {A B} (f : A -> outcome B) (xs : list A)
  : outcome (list B) :=
  match xs with
  | [] => Ok []
  | x :: xs' => y ← f x; ys ← map_outcome f xs'; Ok (y :: ys)
  end.

Definition atom_is (s : string) (a : atom) : bool :=
  match a with
  | AStr t => bool_decide (s = t)
  | ANum _ => false
  end.

(** [s in c] for a string [s]. *)
Definition str_in_cell (s : string) (c : cell) : bool :=
  match c with
  | CList l | CArray l => existsb (atom_is s) l
  | CStr t => is_substring s t
  | CArray0 t => bool_decide (s = t)
  end.

(** [s in feature_dict[k]] *)
Definition contains (fd : dict) (k s : string) : outcome bool :=
  match fd !! k with
  | Some c => Ok (str_in_cell s c)
  | None => Raise (KeyError k)
  end.

(** [feature_dict[k].append(x)]; only a list has [append]. *)
Definition append (fd : dict) (k : string) (x : atom) : outcome dict :=
  match fd !! k with
  | Some (CList l) => Ok (<[k := CList (l ++ [x])]> fd)
  | Some _ => Raise (OtherError "AttributeError")
  | None => Raise (KeyError k)
  end.

(** [varf[key]]: the object identifier under ['objectid'], the features
    of a magnitude column under its name. *)
Inductive varf_value : Type :=
| VId (s : string)
| VFeatures (d : gmap string scalar).

Definition varf_get (v : varf) (key : string) : outcome varf_value :=
  if bool_decide (key = "objectid") then Ok (VId (objectid v))
  else match magcols v !! key with
       | Some d => Ok (VFeatures d)
       | None => Raise (KeyError key)
       end.

(** [feature in thisfeatures] *)
Definition feature_in (feature : string) (thisfeatures : varf_value) : bool :=
  match thisfeatures with
  | VFeatures d => bool_decide (is_Some (d !! feature))
  | VId s => is_substring feature s
  end.

(** [thisfeatures[feature]] *)
Definition feature_get (thisfeatures : varf_value) (feature : string)
  : outcome scalar :=
  match thisfeatures with
  | VFeatures d =>
      match d !! feature with
      | Some x => Ok x
      | None => Raise (KeyError feature)
      end
  | VId _ => Raise (OtherError "TypeError")
  end.

(** The body of [for feature in featurestoget]. *)
Definition collect_feature (thisfeatures : varf_value)
    (feature_dict : dict) (feature : string) : outcome dict :=
  (* update the global feature list if necessary *)
  known ← contains feature_dict "availablefeatures" feature;
  feature_dict ←
    (if negb known && feature_in feature thisfeatures then
       fd ← append feature_dict "availablefeatures" (AStr feature);
       Ok (<[feature := CList []]> fd)
     else Ok feature_dict);
  if feature_in feature thisfeatures then
    x ← feature_get thisfeatures feature;
    append feature_dict feature (ANum x)
  else Ok feature_dict.

(** [featurestouse] when it is a non-empty list, the default list
    otherwise. *)
Definition featurestoget (featurestouse : option (list string)) : list string :=
  match featurestouse with
  | Some (f :: fs) => f :: fs
  | _ => NONPERIODIC_FEATURES_TO_COLLECT
  end.

(** The body of [for pkl in listiterator], once the pickle is loaded. *)
Definition collect_varf (magcol : string) (featurestouse : option (list string))
    (feature_dict : dict) (v : varf) : outcome dict :=
  (* update the objectid list *)
  seen ← contains feature_dict "objectids" (objectid v);
  feature_dict ←
    (if negb seen then append feature_dict "objectids" (AStr (objectid v))
     else Ok feature_dict);
  thisfeatures ← varf_get v magcol;
  (* collect all the features for this magcol/objectid combination *)
  fold_outcome (collect_feature thisfeatures)
               (featurestoget featurestouse) feature_dict.

(** A loaded pickle read as a varfeatures dict.  A dict of another kind
    has no ['objectid'] key as a rule; where it has one, what it holds
    there is no object identifier. *)
Definition as_varf (p : pickled) : outcome varf :=
  match p with
  | PDict (DictVarf v) => Ok v
  | PDict d =>
      match pydict_lookup d "objectid" with
      | None => Raise (KeyError "objectid")
      | Some _ => Raise (OtherError "TypeError")
      end
  | PObject => Raise (OtherError "TypeError")
  end.

Fixpoint collect_pickles (magcol : string) (featurestouse : option (list string))
    (pklist : list string) (feature_dict : dict) : M world dict :=
  match pklist with
  | [] => ret feature_dict
  | pkl :: rest =>
      p <- pickle_load pkl ;;
      v <- lift (as_varf p) ;;
      feature_dict <- lift (collect_varf magcol featurestouse feature_dict v) ;;
      collect_pickles magcol featurestouse rest feature_dict
  end.

(** *** Lists into arrays *)

Definition is_str (a : atom) : bool :=
  match a with AStr _ => true | ANum _ => false end.
Definition is_num (a : atom) : bool :=
  match a with AStr _ => false | ANum _ => true end.
Definition to_str (a : atom) : atom :=
  match a with AStr s => AStr s | ANum x => AStr (str_of_scalar x) end.

(** NumPy gives an array one element type: numbers next to strings
    become strings. *)
Definition coerce (l : list atom) : list atom :=
  if existsb is_str l && existsb is_num l then map to_str l else l.

Definition np_array (c : cell) : cell :=
  match c with
  | CList l => CArray (coerce l)
  | CArray l => CArray l
  | CStr s | CArray0 s => CArray0 s
  end.

(** The characters of a string, as iteration yields them. *)
Fixpoint chars (s : string) : list atom :=
  match s with
  | EmptyString => []
  | String c s' => AStr (String c EmptyString) :: chars s'
  end.

(** [for x in c] *)
Definition cell_items (c : cell) : outcome (list atom) :=
  match c with
  | CList l | CArray l => Ok l
  | CStr s => Ok (chars s)
  | CArray0 _ => Raise (OtherError "TypeError")
  end.

(** [feature_dict[feat]] for a key taken from a list. *)
Definition lookup_atom (fd : dict) (feat : atom) : outcome cell :=
  match feat with
  | AStr k =>
      match fd !! k with
      | Some c => Ok c
      | None => Raise (KeyError k)
      end
  | ANum x => Raise (KeyError (str_of_scalar x))
  end.

(** [feature_dict[feat] = np.array(feature_dict[feat])] *)
Definition to_array (fd : dict) (feat : atom) : outcome dict :=
  c ← lookup_atom fd feat;
  match feat with
  | AStr k => Ok (<[k := np_array c]> fd)
  | ANum _ => Ok fd
  end.

(** One input of [np.column_stack] as a column. *)
Definition column_of (c : cell) : list atom :=
  match c with
  | CList l => coerce l
  | CArray l => l
  | CStr s | CArray0 s => [AStr s]
  end.

Definition coerce_all (cols : list (list atom)) : list (list atom) :=
  if existsb (existsb is_str) cols && existsb (existsb is_num) cols
  then map (map to_str) cols else cols.

(** Row [i] of the stacked columns. *)
Definition row_at (cols : list (list atom)) (i : nat) : list atom :=
  omap (fun c => c !! i) cols.

(** [np.column_stack]: at least one column, all of one length. *)
Definition column_stack (cols : list (list atom)) : outcome matrix :=
  match cols with
  | [] => Raise (ValueError "need at least one array to concatenate")
  | c :: cs =>
      let n := length c in
      if forallb (fun c' => (length c' =? n)%nat) cs
      then Ok (Matrix n (length cols) (row_at (coerce_all cols) <$> seq 0 n))
      else Raise (ValueError "all the input array dimensions except for the concatenation axis must match exactly")
  end.

(** *** The label array *)

Definition truthy (v : pylabel) : bool :=
  match v with
  | LBool b => b
  | LInt z => negb (z =? 0)
  end.

(** A label stored into an [int64] array. *)
Definition to_int64 (v : pylabel) : outcome Z :=
  match v with
  | LBool b => Ok (if b then 1 else 0)
  | LInt z =>
      if (- 2 ^ 63 <=? z) && (z <? 2 ^ 63) then Ok z
      else Raise OverflowError
  end.

(** [labeldict[objectid]] when [objectid in labeldict]; the keys are
    object identifiers. *)
Definition label_lookup (labeldict : gmap string pylabel) (objectid : atom)
  : option pylabel :=
  match objectid with
  | AStr s => labeldict !! s
  | ANum _ => None
  end.

(** [for ind, objectid in enumerate(feature_dict['objectids'])] *)
Fixpoint label_loop (labeldict : gmap string pylabel) (labeltype : string)
    (ind : nat) (objectids : list atom) (labelarray : list Z)
  : outcome (list Z) :=
  match objectids with
  | [] => Ok labelarray
  | objectid :: rest =>
      labelarray ←
        match label_lookup labeldict objectid with
        | Some v =>
            if bool_decide (labeltype = "binary") then
              if truthy v then Ok (<[ind := 1]> labelarray) else Ok labelarray
            else if bool_decide (labeltype = "classes") then
              z ← to_int64 v; Ok (<[ind := z]> labelarray)
            else Ok labelarray
        | None => Ok labelarray
        end;
      label_loop labeldict labeltype (S ind) rest labelarray
  end.

(** [feature_dict['objectids'].size] *)
Definition array_size (c : cell) : outcome nat :=
  match c with
  | CArray l => Ok (length l)
  | CArray0 _ => Ok 1%nat
  | CList _ | CStr _ => Raise (OtherError "AttributeError")
  end.

Definition make_labels (labeldict : gmap string pylabel) (labeltype : string)
    (objectids : cell) : outcome (list Z) :=
  n ← array_size objectids;
  ids ← cell_items objectids;
  label_loop labeldict labeltype 0 ids (replicate n 0).

(** *** [collect_features] *)

(** The paths that exist. *)
Definition paths (w : world) : gset string := dom (fs w).

(** [glob.glob(pattern)] lists what is there when it is called. *)
Definition glob (pattern : string) : M world (list string) :=
  fun w => (w, Ok (glob_glob (paths w) pattern)).

(** [if maxobjects: pklist = pklist[:maxobjects]]: [None] and [0] are
    both false. *)
Definition truncate_pklist (maxobjects : option Z) (pklist : list string)
  : list string :=
  match maxobjects with
  | Some m => if bool_decide (m = 0) then pklist else slice_to pklist m
  | None => pklist
  end.

Definition initial_feature_dict (magcol : string) : dict :=
  <["objectids" := CList []]>
    (<["magcol" := CStr magcol]>
       (<["availablefeatures" := CList []]> ∅)).

(** [feature_dict[k]] *)
Definition dict_get {V} (d : gmap string V) (k : string) : outcome V :=
  match d !! k with
  | Some v => Ok v
  | None => Raise (KeyError k)
  end.

(** Lines 292 to 298: the lists become arrays and the columns are
    stacked. *)
Definition stack_features (feature_dict : dict) : outcome (dict * matrix) :=
  avail ← dict_get feature_dict "availablefeatures";
  feats ← cell_items avail;
  feature_dict ← fold_outcome to_array feats feature_dict;
  ids ← dict_get feature_dict "objectids";
  let feature_dict := <["objectids" := np_array ids]> feature_dict in
  avail ← dict_get feature_dict "availablefeatures";
  feats ← cell_items avail;
  cols ← map_outcome (fun feat => column_of <$> lookup_atom feature_dict feat) feats;
  feature_array ← column_stack cols;
  Ok (feature_dict, feature_array).

Definition collect_features (featuresdir magcol outfile pklglob : string)
    (featurestouse : option (list string)) (maxobjects : option Z)
    (labeldict : option (gmap string pylabel)) (labeltype : string)
  : M world (gmap string dval) :=
  (* list of input pickles generated by varfeatures in lcproc.py *)
  pklist <- glob (path_join featuresdir pklglob) ;;
  let pklist := truncate_pklist maxobjects pklist in
  (* go through all the varfeatures arrays *)
  let feature_dict := initial_feature_dict magcol in
  LOGINFO "collecting features for magcol: %s" [magcol] ;;;
  feature_dict <- collect_pickles magcol featurestouse pklist feature_dict ;;
  (* turn the list into arrays, and then concatenate them *)
  stacked <- lift (stack_features feature_dict) ;;
  let '(feature_dict, feature_array) := stacked in
  let result : gmap string dval :=
    <["features_array" := DMatrix feature_array]> (DCell <$> feature_dict) in
  (* if there's a labeldict available, use it to generate a label array *)
  result <-
    match labeldict with
    | Some labeldict =>
        ids <- lift (dict_get feature_dict "objectids") ;;
        labelarray <- lift (make_labels labeldict labeltype ids) ;;
        ret (<["labels_array" := DLabels labelarray]> result)
    | None => ret result
    end ;;
  let result :=
    <["kwargs" := DKwargs (Kwargs pklglob featurestouse maxobjects labeltype)]>
      result in
  (* write the info to the output pickle *)
  pickle_dump (PDict (DictFeatures result)) outfile ;;;
  ret result.

(** *** The classifier functions *)

(** The head of [train_rf_classifier], [apply_rf_classifier] and
    [plot_training_results]: an existing path is unpickled, a dict is
    taken as it is, anything else is reported and gives [None]. *)
Definition resolve (arg : pyarg) (complaint : string) : M world (option pickled) :=
  match arg with
  | ArgStr path =>
      found <- path_exists path ;;
      if found then (v <- pickle_load path ;; ret (Some v))
      else (LOGERROR complaint [] ;;; ret None)
  | ArgDict d => ret (Some (PDict d))
  | ArgOther => LOGERROR complaint [] ;;; ret None
  end.

(** [obj[k]] for what [resolve] found. *)
Definition pickled_get (obj : pickled) (k : string) : outcome dval :=
  match obj with
  | PDict d => pydict_get d k
  | PObject => Raise (OtherError "TypeError")
  end.

Definition emit (lines : list logline) : M world unit :=
  modify (set_log (fun ls => ls ++ lines)).

Definition train_rf_classifier (collected_features : pyarg)
    (kw : train_kwargs) (classifier_to_pickle : option string)
  : M world (option clfdict) :=
  r <- resolve collected_features
         "can't figure out the input collected_features arg" ;;
  match r with
  | None => ret None
  | Some fdict =>
      tfeatures <- lift (pickled_get fdict "features_array") ;;
      tlabels <- lift (pickled_get fdict "labels_array") ;;
      tfeaturenames <- lift (pickled_get fdict "availablefeatures") ;;
      tmagcol <- lift (pickled_get fdict "magcol") ;;
      tobjectids <- lift (pickled_get fdict "objectids") ;;
      (* split the training set into training/test samples *)
      sets <- lift (train_test_split tfeatures tlabels kw) ;;
      LOGINFO "running grid-search CV to optimize RF hyperparameters..." [] ;;;
      found <- lift (cv_search sets kw) ;;
      let '(bestclf, best, report) := found in
      (* report on the classifiers' performance *)
      emit report ;;;
      (* test this classifier on the testing set *)
      tested <- lift (evaluate bestclf sets) ;;
      collect_kwargs <- lift (pickled_get fdict "kwargs") ;;
      let outdict :=
        ClfDict (Some tfeatures) (Some tlabels) (Some tfeaturenames)
                (Some tmagcol) (Some tobjectids) (Some kw)
                (Some collect_kwargs) (Some sets) (Some bestclf)
                (Some best) (Some tested) in
      match classifier_to_pickle with
      | Some path =>
          when (negb (bool_decide (path = "")))
               (pickle_dump (PDict (DictClassifier outdict)) path)
      | None => ret tt
      end ;;;
      (* return this classifier and accompanying info *)
      ret (Some outdict)
  end.

(** The arguments [apply_rf_classifier] passes on have to be what
    [collect_features] takes: a string for the magnitude column, a list
    of strings for the names, a string for the glob.  A bundle that
    holds anything else is outside that contract and ends in a
    [TypeError]. *)
Definition as_magcol (v : dval) : outcome string :=
  match v with
  | DCell (CStr s) => Ok s
  | _ => Raise (OtherError "TypeError")
  end.

Definition as_name (a : atom) : outcome string :=
  match a with
  | AStr s => Ok s
  | ANum _ => Raise (OtherError "TypeError")
  end.

Definition as_names (v : dval) : outcome (list string) :=
  match v with
  | DCell (CList l) => map_outcome as_name l
  | _ => Raise (OtherError "TypeError")
  end.

Definition as_kwargs (v : dval) : outcome kwargs :=
  match v with
  | DKwargs k => Ok k
  | _ => Raise (OtherError "TypeError")
  end.

Definition as_matrix (v : dval) : outcome matrix :=
  match v with
  | DMatrix m => Ok m
  | _ => Raise (OtherError "TypeError")
  end.

(** [clfdict['best_classifier']], on its way to [.predict]. *)
Definition get_classifier (d : pydict) : outcome classifier :=
  match d with
  | DictClassifier c =>
      match clf_best_classifier c with
      | Some clf => Ok clf
      | None => Raise (KeyError "best_classifier")
      end
  | _ =>
      match pydict_lookup d "best_classifier" with
      | Some _ => Raise (OtherError "AttributeError")
      | None => Raise (KeyError "best_classifier")
      end
  end.

Definition pickle_prediction (p : prediction) : pickled :=
  PDict (DictPrediction (pred_features p) (pred_featfile p)
           (pred_classifier p) (pred_predicted_labels p)
           (pred_predicted_label_probs p)).

Definition apply_rf_classifier (classifier : pyarg)
    (varfeaturesdir outpickle : string) (maxobjects : option Z)
  : M world (option prediction) :=
  r <- resolve classifier "can't figure out the input classifier arg" ;;
  match r with
  | None => ret None
  | Some PObject => raise (OtherError "TypeError")
  | Some (PDict clfdict) =>
      (* get the features to extract from clfdict *)
      match pydict_lookup clfdict "feature_names" with
      | None =>
          LOGERROR
            "feature_names not present in classifier input, can't figure out which ones to extract from varfeature pickles in %s"
            [varfeaturesdir] ;;;
          ret None
      | Some featurestouse =>
          (* get the feature labeltype, pklglob, and maxobjects from
             classifier's collect_kwargs elem. *)
          collect_kwargs <- lift (pydict_get clfdict "collect_kwargs") ;;
          labeltype <- lift (kw_labeltype <$> as_kwargs collect_kwargs) ;;
          pklglob <- lift (kw_pklglob <$> as_kwargs collect_kwargs) ;;
          magcol <- lift (pydict_get clfdict "magcol") ;;
          (* extract the features used by the classifier from the
             varfeatures pickles in varfeaturesdir using the pklglob
             provided *)
          let featfile :=
            path_join (dirname outpickle) "actual-collected-features.pkl" in
          magcol <- lift (as_magcol magcol) ;;
          featurestouse <- lift (as_names featurestouse) ;;
          features <- collect_features varfeaturesdir magcol featfile pklglob
                        (Some featurestouse) maxobjects None "binary" ;;
          (* now use the trained classifier on these features *)
          bestclf <- lift (get_classifier clfdict) ;;
          features_array <- lift (dict_get features "features_array" ≫= as_matrix) ;;
          predicted_labels <- lift (predict bestclf features_array) ;;
          predicted_label_probs <- lift (predict_proba bestclf features_array) ;;
          let outdict :=
            Prediction features featfile clfdict predicted_labels
                       predicted_label_probs in
          pickle_dump (pickle_prediction outdict) outpickle ;;;
          ret (Some outdict)
      end
  end.

(** *** Notions the statements about the pipeline are written with *)

(** The integer behind a label value. *)
Definition class_code (v : pylabel) : Z :=
  match v with
  | LBool b => if b then 1 else 0
  | LInt z => z
  end.

(** The label of an object: in binary mode a true lookup is 1 and all
    else 0, in class mode the lookup is copied, an object absent from the
    label map gets 0. *)
Definition spec_label (labeldict : gmap string pylabel) (labeltype : string)
    (objectid : atom) : Z :=
  match label_lookup labeldict objectid with
  | None => 0
  | Some v =>
      if bool_decide (labeltype = "binary") then (if truthy v then 1 else 0)
      else if bool_decide (labeltype = "classes") then class_code v
      else 0
  end.

(** An argument that [resolve] gives up on: anything but a dict and a
    string that names an existing path. *)
Definition unresolvable (arg : pyarg) (w : world) : Prop :=
  match arg with
  | ArgStr path => fs w !! path = None
  | ArgDict _ => False
  | ArgOther => True
  end.

(** The record [v] exposes the features [feats] under [magcol]. *)
Definition exposes (magcol : string) (feats : list string) (v : varf) : Prop :=
  exists d, varf_get v magcol = Ok (VFeatures d) /\
            forall f, f ∈ feats -> is_Some (d !! f).

(** [row] holds the values of [feats], in that order, of the record
    [v]. *)
Definition row_of (magcol : string) (feats : list string) (v : varf)
    (row : list atom) : Prop :=
  Forall2 (fun f a => exists d x, varf_get v magcol = Ok (VFeatures d) /\
                                  d !! f = Some x /\ a = ANum x)
          feats row.

(** The world after [LOGERROR] of a message without arguments. *)
Definition complain (msg : string) (w : world) : world :=
  set_log (fun ls => ls ++ [LogLine ERROR msg []]) w.

(** *** [feature_dict] in terms of the records read *)

(** The identifiers seen so far, each at its first place. *)
Definition note_id (ids : list string) (id : string) : list string :=
  if bool_decide (id ∈ ids) then ids else ids ++ [id].

Definition seen_ids (vs : list varf) : list string :=
  foldl note_id [] (objectid <$> vs).

(** The value of feature [f] in the record [v], and the column of a
    feature over a list of records. *)
Definition feature_of (magcol f : string) (v : varf) : option scalar :=
  match varf_get v magcol with
  | Ok (VFeatures d) => d !! f
  | _ => None
  end.

Definition column (magcol f : string) (vs : list varf) : list atom :=
  ANum <$> omap (feature_of magcol f) vs.

(** [feature_dict] after the records [vs] have been read. *)
Definition collected (magcol : string) (feats : list string)
    (vs : list varf) (fd : dict) : Prop :=
  fd !! "objectids" = Some (CList (AStr <$> seen_ids vs)) /\
  fd !! "availablefeatures" = Some (CList (AStr <$> feats)) /\
  forall f, f ∈ feats -> fd !! f = Some (CList (column magcol f vs)).

(** The matrix of the records [vs] over the features [feats]. *)
Definition stacked (magcol : string) (feats : list string) (vs : list varf)
  : matrix :=
  Matrix (length vs) (length feats)
         (row_at ((fun f => column magcol f vs) <$> feats) <$> seq 0 (length vs)).

End Model.

(** *** What [collect_features] gathers *)

Section Gathering.
Context `{Extern}.

(** The names under ['availablefeatures']: a requested feature enters the
    list with the first record that has it. *)
Definition note_feature (d : gmap string scalar) (avail : list string)
    (f : string) : list string :=
  if bool_decide (f ∈ avail) then avail
  else if bool_decide (is_Some (d !! f)) then avail ++ [f]
  else avail.

Definition note_record (magcol : string) (feats : list string)
    (avail : list string) (v : varf) : list string :=
  match varf_get v magcol with
  | Ok (VFeatures d) => foldl (note_feature d) avail feats
  | _ => avail
  end.

Definition available (magcol : string) (feats : list string) (vs : list varf)
  : list string :=
  foldl (note_record magcol feats) [] vs.

(** What a record adds to the column of [f]. *)
Definition contribution (d : gmap string scalar) (f : string) : list atom :=
  ANum <$> option_list (d !! f).

(** [feature_dict] after the records [vs] have been read, whatever they
    expose. *)
Definition gathered (magcol : string) (feats : list string)
    (vs : list varf) (fd : gmap string cell) : Prop :=
  fd !! "objectids" = Some (CList (AStr <$> seen_ids vs)) /\
  fd !! "availablefeatures" = Some (CList (AStr <$> available magcol feats vs)) /\
  (forall f, f ∈ available magcol feats vs ->
     fd !! f = Some (CList (column magcol f vs))) /\
  (forall k, is_Some (fd !! k) ->
     k ∈ ["objectids"; "magcol"; "availablefeatures"] \/ k ∈ feats) /\
  ("magcol" ∉ feats -> fd !! "magcol" = Some (CStr magcol)).

(** The columns [np.column_stack] is given, and the matrix it makes of
    them when they have one length. *)
Definition columns (magcol : string) (feats : list string) (vs : list varf)
  : list (list atom) :=
  (fun f => column magcol f vs) <$> available magcol feats vs.

Definition stacked_columns (magcol : string) (feats : list string)
    (vs : list varf) : matrix :=
  let cols := columns magcol feats vs in
  let n := length (default [] (head cols)) in
  Matrix n (length cols) (row_at cols <$> seq 0 n).

(** The record has a dict of features under [magcol]. *)
Definition has_magcol (magcol : string) (v : varf) : Prop :=
  exists d, varf_get v magcol = Ok (VFeatures d).

(** The number of records that have the feature [f]. *)
Definition occurrences (magcol f : string) (vs : list varf) : nat :=
  length (column magcol f vs).

(** The world after the [LOGINFO] of [collect_features]. *)
Definition announced (magcol : string) (w : world) : world :=
  set_log (fun ls => ls ++ [LogLine INFO "collecting features for magcol: %s" [magcol]]) w.

(** The pickle [pkl] holds the varfeatures record [v]. *)
Definition holds (w : world) (pkl : string) (v : varf) : Prop :=
  fs w !! pkl = Some (FPickle (PDict (DictVarf v))).
(** What follows the stacking: the labels, the keywords, the pickle. *)
Definition finish (outfile pklglob : string)
    (featurestouse : option (list string)) (maxobjects : option Z)
    (labeldict : option (gmap string pylabel)) (labeltype : string)
    (fd2 : gmap string cell) (m : matrix) : M world (gmap string dval) :=
  let result : gmap string dval :=
    <["features_array" := DMatrix m]> (DCell <$> fd2) in
  result <-
    match labeldict with
    | Some labeldict =>
        ids <- lift (dict_get fd2 "objectids") ;;
        labelarray <- lift (make_labels labeldict labeltype ids) ;;
        ret (<["labels_array" := DLabels labelarray]> result)
    | None => ret result
    end ;;
  let result :=
    <["kwargs" := DKwargs (Kwargs pklglob featurestouse maxobjects labeltype)]>
      result in
  pickle_dump (PDict (DictFeatures result)) outfile ;;;
  ret result.

(** [os.path.join(os.path.dirname(outpickle), 'actual-collected-features.pkl')] *)
Definition featfile_of (outpickle : string) : string :=
  path_join (dirname outpickle) "actual-collected-features.pkl".

(** The path [p] can be written: it has a name, which does not end in a
    slash and is not that of a directory, and its directory exists (the
    working directory and the root always do). *)
Definition writable (w : world) (p : string) : Prop :=
  p <> "" /\ ends_with_slash p = false /\ fs w !! p <> Some FDir /\
  (all_slashes (dirname p) = true \/ fs w !! dirname p = Some FDir).

(** [fd] is the collection of the records that the pickles [pklist]
    hold, all of them and in this order: there is at least one record,
    every object of a record is among the ids, and the matrix, made of
    these records, has at least one row. *)
Definition collection_of (magcol : string) (feats : list string) (w : world)
    (pklist : list string) (fd : gmap string dval) : Prop :=
  exists records,
    Forall2 (holds w) pklist records /\
    records <> [] /\
    fd !! "objectids" = Some (DCell (CArray (AStr <$> seen_ids records))) /\
    (forall v, v ∈ records -> objectid v ∈ seen_ids records) /\
    fd !! "availablefeatures"
      = Some (DCell (CList (AStr <$> available magcol feats records))) /\
    fd !! "features_array"
      = Some (DMatrix (stacked_columns magcol feats records)) /\
    (0 < nrows (stacked_columns magcol feats records))%nat.
End Gathering.

(** *** [gridsearch_report] *)

(** The values of [cv_results_] that the report formats: [score] for its
    floats, [params] for one parameter setting. *)
Class ReportTypes : Type := {
  score : Type;
  params : Type
}.

Section ReportData.
Context `{ReportTypes}.

(** [cv_results_], by the keys [gridsearch_report] reads; a key may be
    missing from a dict the caller made. *)
Record cv_results : Type := CvResults {
  rank_test_score : option (list Z);
  mean_test_score : option (list score);
  std_test_score : option (list score);
  cv_params : option (list params)
}.
End ReportData.

Class Report `{ReportTypes} : Type := {
  (** ["{0:.3f}".format(x)] *)
  fmt_3f : score -> string;
  (** ["{0}".format(p)] *)
  str_of_params : params -> string
}.

Section ReportModel.
Context `{Extern} `{Report}.

(** [results[k]] and [array[i]] *)
Definition key {A} (k : string) (field : option A) : outcome A :=
  match field with
  | Some v => Ok v
  | None => Raise (KeyError k)
  end.

Definition item {A} (l : list A) (i : nat) : outcome A :=
  match l !! i with
  | Some x => Ok x
  | None => Raise (OtherError "IndexError")
  end.

(** [np.flatnonzero(ranks == i)]: the indices of [i], in order. *)
Fixpoint flatnonzero_from (start : nat) (ranks : list Z) (i : Z) : list nat :=
  match ranks with
  | [] => []
  | r :: rest =>
      if bool_decide (r = i) then start :: flatnonzero_from (S start) rest i
      else flatnonzero_from (S start) rest i
  end.

Definition flatnonzero (ranks : list Z) (i : Z) : list nat :=
  flatnonzero_from 0 ranks i.

(** The body of [for candidate in candidates]. *)
Definition report_candidate (results : cv_results) (i : Z) (candidate : nat)
  : M world unit :=
  LOGINFO "Model with rank: {0}" [pretty i] ;;;
  means <- lift (key "mean_test_score" (mean_test_score results)) ;;
  mean <- lift (item means candidate) ;;
  stds <- lift (key "std_test_score" (std_test_score results)) ;;
  std <- lift (item stds candidate) ;;
  LOGINFO "Mean validation score: {0:.3f} (std: {1:.3f})"
          [fmt_3f mean; fmt_3f std] ;;;
  ps <- lift (key "params" (cv_params results)) ;;
  p <- lift (item ps candidate) ;;
  LOGINFO "Parameters: {0}" [str_of_params p].

(** The body of [for i in range(1, n_top + 1)]. *)
Definition report_rank (results : cv_results) (i : Z) : M world unit :=
  ranks <- lift (key "rank_test_score" (rank_test_score results)) ;;
  for_each (flatnonzero ranks i) (report_candidate results i).

Definition gridsearch_report (results : cv_results) (n_top : Z) : M world unit :=
  for_each (seqZ 1 n_top) (report_rank results).

(** The candidates a report names, with their ranks, in the order of the
    report; and the three lines about one of them. *)
Definition reported (ranks : list Z) (n_top : Z) : list (Z * nat) :=
  i ← seqZ 1 n_top; (fun c => (i, c)) <$> flatnonzero ranks i.

Definition candidate_lines (means stds : list score) (ps : list params)
    (ic : Z * nat) : list logline :=
  match means !! ic.2, stds !! ic.2, ps !! ic.2 with
  | Some mean, Some std, Some p =>
      [LogLine INFO "Model with rank: {0}" [pretty ic.1];
       LogLine INFO "Mean validation score: {0:.3f} (std: {1:.3f})"
               [fmt_3f mean; fmt_3f std];
       LogLine INFO "Parameters: {0}" [str_of_params p]]
  | _, _, _ => []
  end.

(** Better rank first, and for one rank the smaller index first. *)
Definition before (a b : Z * nat) : Prop :=
  a.1 < b.1 \/ (a.1 = b.1 /\ (a.2 < b.2)%nat).

(** The world with some more lines in its log. *)
Definition logged (lines : list logline) (w : world) : world :=
  set_log (fun ls => ls ++ lines) w.
End ReportModel.

End Rfclass.

(** ** A small instance of the SkyView interface, to run [get_stamp] on *)

Module SkyviewDemo.
Import Skyview.

(** Pixel [(i, j)] of a frame, zero outside it ([boundary='fill']). *)
Definition pixel_at (frame : list (list Z)) (i j : Z) : Z :=
  if (i <? 0) || (j <? 0) then 0
  else nth (Z.to_nat j) (nth (Z.to_nat i) frame []) 0.

Definition sum_list (l : list Z) : Z := foldr Z.add 0 l.

Definition indices (n : nat) : list Z := Z.of_nat <$> seq 0 n.

(** Convolution of a frame of integers with a kernel of integer weights
    that is normalised to sum one, as [astropy.convolution.convolve] does
    by default; the kernel has to have an odd number of rows and of
    columns.  Quotients are integer quotients. *)
Definition convolve_int (frame : list (list Z)) (k : list (list Z))
  : outcome (list (list Z)) :=
  let kh := length k in
  let kw := length (default [] (head k)) in
  let total := sum_list (sum_list <$> k) in
  if Nat.even kh || Nat.even kw then
    Raise (OtherError "KernelSizeError")
  else if total =? 0 then
    Raise (ValueError "The kernel can't be normalized, because its sum is close to zero.")
  else
    let ch := Z.of_nat (kh / 2) in
    let cw := Z.of_nat (kw / 2) in
    let width := length (default [] (head frame)) in
    Ok ((fun i =>
           (fun j =>
              sum_list
                ((fun a =>
                    sum_list
                      ((fun b =>
                          pixel_at k a b * pixel_at frame (i - (a - ch)) (j - (b - cw)))
                         <$> indices kw))
                   <$> indices kh) / total)
             <$> indices width)
          <$> indices (length frame)).

(** Floats are spelled out with four decimals already; a FITS payload is
    given by the header and image it parses to. *)
#[export] Instance demo_types : Types := {|
  float := string;
  payload := string * list (list Z);
  pixel := Z;
  header := string;
  kernel := list (list Z)
|}.

(** A result page that lists two files, and what the two files hold. *)
Definition result_page : string :=
  "<a href='tempspace/fits/skv11111111.fits'>FITS</a> <a href='tempspace/fits/skv22222222.fits'>FITS</a>".

Definition first_url : string := "tempspace/fits/skv11111111.fits".
Definition second_url : string := "tempspace/fits/skv22222222.fits".

Definition first_file : string * list (list Z) := ("SIMPLE = T", [[1; 2]; [3; 4]]).
Definition second_file : string * list (list Z) := ("SIMPLE = T", [[5; 6]; [7; 8]]).

Definition two_files : list request -> request -> reply :=
  fun _ r =>
    if String.eqb (req_url r) "https://skyview.gsfc.nasa.gov/current/cgi/runquery.pl" then
      Response 200 result_page ("", [])
    else if String.eqb (req_url r) ("https://skyview.gsfc.nasa.gov/" +:+ first_url) then
      Response 200 "" first_file
    else if String.eqb (req_url r) ("https://skyview.gsfc.nasa.gov/" +:+ second_url) then
      Response 200 "" second_file
    else Response 404 "" ("", []).

(** The digest is a stand-in that keeps different keys apart. *)
#[export] Instance demo : Extern := {|
  fmt_4f := fun x => x;
  repr_float := fun x => x;
  sha256_hexdigest := fun s => s;
  expanduser := fun s => "/home/astro" +:+ s;
  fits_open := fun p => Ok p;
  convolve := convolve_int;
  server := two_files
|}.

Definition box3 : list (list Z) := [[1; 1; 1]].

Definition star : list (list Z) := [[0; 9; 0]].

Definition cachedir : string := "/cache".

Definition cachefile : string :=
  cachefname cachedir "10.6847" "41.2690" "DSS2 Red" "Linear".

(** A world whose cache already holds the stamp. *)
Definition cached_world : world :=
  World (<[cachefile := File true ("SIMPLE = T", star)]> {[cachedir := Dir]})
        [] [] SKYVIEW_SURVEY.

(** A world with an empty cache directory, and the same world after one
    fetch. *)
Definition fresh_world : world :=
  World {[cachedir := Dir]} [] [] SKYVIEW_SURVEY.

Definition demo_params : gmap string (list string) :=
  formparams "10.6847" "41.2690" SKYVIEW_SURVEY "Linear".

Definition fetched_world : world :=
  World (<[cachefile := File true second_file]> {[cachedir := Dir]})
        [query_request demo_params "10.0";
         file_request "10.0" first_url;
         file_request "10.0" second_url]
        [] SKYVIEW_SURVEY.

(** The claim that the cache ends up with the download of the first
    matching URL, for one [fetch] from a world [w]. *)
Definition caches_first_url (fp survey scaling : string)
    (params : gmap string (list string)) (timeout : float) (verbose : bool)
    (dir fname : string) (w : world) : Prop :=
  forall w' status text c u rest st txt content,
    fetch fp survey scaling params timeout verbose dir fname w = (w', Ok true) ->
    server (sent w) (query_request params timeout) = Response status text c ->
    FITS_REGEX_findall text = u :: rest ->
    server (sent w ++ [query_request params timeout]) (file_request timeout u)
      = Response st txt content ->
    fs w' !! fname = Some (File true content).

End SkyviewDemo.

(** ** A SkyView service that fails in three ways *)

Module SkyviewFaults.
Import Skyview.

#[export] Instance types : Types := {|
  float := string;
  payload := string * list (list Z);
  pixel := Z;
  header := string;
  kernel := list (list Z)
|}.

(** The ['Position'] a query asks for. *)
Definition position_of (r : request) : list string :=
  default [] (req_params r ≫= fun params => params !! "Position").

Definition empty_page : string := "<html><body>No images found</body></html>".

Definition one_file_page : string :=
  "<a href='tempspace/fits/skv33333333.fits'>FITS</a>".


(** The body of the answer to a request for a file that is gone. *)
Definition not_found : string * list (list Z) := ("<h1>Not Found</h1>", []).

(** The query times out for the origin, finds nothing one degree from
    it, and names one file elsewhere; no file is ever there. *)
Definition faulty : list request -> request -> reply :=
  fun _ r =>
    if String.eqb (req_url r) "https://skyview.gsfc.nasa.gov/current/cgi/runquery.pl" then
      match position_of r with
      | [p] =>
          if String.eqb p "0.0000, 0.0000" then Failed Timeout
          else if String.eqb p "1.0000, 1.0000" then Response 200 empty_page ("", [])
          else Response 200 one_file_page ("", [])
      | _ => Response 400 "" ("", [])
      end
    else Response 404 "" not_found.

(** Only a payload whose header starts a FITS file can be opened. *)
#[export] Instance faults : Extern := {|
  fmt_4f := fun x => x;
  repr_float := fun x => x;
  sha256_hexdigest := fun s => s;
  expanduser := fun s => "/home/astro" +:+ s;
  fits_open := fun p =>
    if String.eqb p.1 "SIMPLE = T" then Ok p
    else Raise (OSError "Empty or corrupt FITS file");
  convolve := fun frame _ => Ok frame;
  server := faulty
|}.

Definition cachedir : string := "/cache".


End SkyviewFaults.

(** ** A small instance of the classifier interface, to run the pipeline on *)

Module RfclassDemo.
Import Rfclass.

(** Numbers are integers here; a classifier is the one label it gives to
    every row. *)
#[export] Instance demo_types : Types := {|
  scalar := Z;
  classifier := Z;
  split := unit;
  search := unit;
  scores := unit;
  predictions := list Z;
  probabilities := list (list Z)
|}.

Definition features_dir : string := "/features".
Definition pkl_a : string := "/features/varfeatures-a.pkl".
Definition pkl_b : string := "/features/varfeatures-b.pkl".
Definition pkl_c : string := "/features/varfeatures-collected.pkl".

(** Three paths match the default glob, nothing matches anything else;
    those of the three that exist are listed. *)
#[export] Instance demo : Extern := {|
  str_of_scalar := pretty;
  train_test_split := fun _ _ _ => Ok tt;
  cv_search := fun _ _ => Ok (1, tt, []);
  evaluate := fun _ _ => Ok tt;
  predict := fun clf m => Ok ((fun _ => clf) <$> rows m);
  predict_proba := fun clf m => Ok ((fun _ => [0; 1]) <$> rows m);
  glob_glob := fun paths pattern =>
    if String.eqb pattern "/features/varfeatures-*.pkl"
    then filter (fun p => p ∈ paths) [pkl_a; pkl_b; pkl_c]
    else []
|}.

Definition features_a : gmap string Z := {["stetsonj" := 12; "mad" := 3]}.
Definition features_b : gmap string Z := {["stetsonj" := 7; "mad" := 5]}.

Definition varf_a : varf := Varf "HAT-001" {["aep_000" := features_a]}.
Definition varf_b : varf := Varf "HAT-002" {["aep_000" := features_b]}.

(** Two feature pickles, a file that is no pickle, and a directory for the
    output. *)
Definition demo_world : world :=
  World (<[pkl_a := FPickle (PDict (DictVarf varf_a))]>
           (<[pkl_b := FPickle (PDict (DictVarf varf_b))]>
              (<["/features/README.txt" := FBytes]>
                 {["/out" := FDir]})))
        [].

(** A bundle as [train_rf_classifier] makes it, for a collection made with
    [pklglob] and [labeltype]. *)
Definition bundle (pklglob labeltype : string) : clfdict :=
  ClfDict (Some DOther) (Some DOther)
          (Some (DCell (CList [AStr "stetsonj"; AStr "mad"])))
          (Some (DCell (CStr "aep_000")))
          (Some DOther)
          (Some (TrainKwargs 25 20 5 "f1" (-1)))
          (Some (DKwargs (Kwargs pklglob (Some ["stetsonj"; "mad"]) None labeltype)))
          (Some tt) (Some 1) (Some tt) (Some tt).

Definition demo_kwargs : train_kwargs := TrainKwargs 25 20 5 "f1" (-1).

(** Only the second object is labelled. *)
Definition demo_labels : gmap string pylabel := {["HAT-002" := LBool true]}.

(** What [collect_features] returns for the two pickles, the features
    [stetsonj] and [mad] and those labels, and the world it leaves. *)
Definition collected_dict : gmap string dval :=
  list_to_map [
    ("objectids", DCell (CArray [AStr "HAT-001"; AStr "HAT-002"]));
    ("magcol", DCell (CStr "aep_000"));
    ("availablefeatures", DCell (CList [AStr "stetsonj"; AStr "mad"]));
    ("stetsonj", DCell (CArray [ANum 12; ANum 7]));
    ("mad", DCell (CArray [ANum 3; ANum 5]));
    ("features_array",
     DMatrix (Matrix 2 2 [[ANum 12; ANum 3]; [ANum 7; ANum 5]]));
    ("labels_array", DLabels [0; 1]);
    ("kwargs",
     DKwargs (Kwargs "varfeatures-*.pkl" (Some ["stetsonj"; "mad"]) None "binary"))
  ].

Definition collected_world : world :=
  World (<["/out/features.pkl" := FPickle (PDict (DictFeatures collected_dict))]>
           (fs demo_world))
        [LogLine INFO "collecting features for magcol: %s" ["aep_000"]].

(** What [apply_rf_classifier] collects for a bundle that was collected
    with the label type ['classes'], what it returns, and the world it
    leaves. *)
Definition applied_features : gmap string dval :=
  list_to_map [
    ("objectids", DCell (CArray [AStr "HAT-001"; AStr "HAT-002"]));
    ("magcol", DCell (CStr "aep_000"));
    ("availablefeatures", DCell (CList [AStr "stetsonj"; AStr "mad"]));
    ("stetsonj", DCell (CArray [ANum 12; ANum 7]));
    ("mad", DCell (CArray [ANum 3; ANum 5]));
    ("features_array",
     DMatrix (Matrix 2 2 [[ANum 12; ANum 3]; [ANum 7; ANum 5]]));
    ("kwargs",
     DKwargs (Kwargs "varfeatures-*.pkl" (Some ["stetsonj"; "mad"]) None "binary"))
  ].

Definition demo_prediction : prediction :=
  Prediction applied_features "/out/actual-collected-features.pkl"
             (DictClassifier (bundle "varfeatures-*.pkl" "classes"))
             [1; 1] [[0; 1]; [0; 1]].

Definition applied_world : world :=
  World (<["/out/predictions.pkl" := FPickle (pickle_prediction demo_prediction)]>
           (<["/out/actual-collected-features.pkl" :=
                FPickle (PDict (DictFeatures applied_features))]>
              (fs demo_world)))
        [LogLine INFO "collecting features for magcol: %s" ["aep_000"]].

(** The [features_array] entry of a collection, and the [kwargs] entry of
    the collection inside a prediction. *)
Definition features_array_of (r : outcome (gmap string dval)) : option matrix :=
  match r with
  | Ok fd => match fd !! "features_array" with
             | Some (DMatrix m) => Some m
             | _ => None
             end
  | Raise _ => None
  end.

Definition kwargs_used (r : outcome (option prediction)) : option dval :=
  match r with
  | Ok (Some p) => pred_features p !! "kwargs"
  | _ => None
  end.

(** *** More records, and the worlds that hold them *)

(** A record without [mad], a second record of the object [HAT-001], and
    a record of another magnitude column. *)
Definition features_c : gmap string Z := {["stetsonj" := 9]}.

Definition varf_c : varf := Varf "HAT-003" {["aep_000" := features_c]}.
Definition varf_twin : varf := Varf "HAT-001" {["aep_000" := features_b]}.
Definition varf_other : varf := Varf "HAT-004" {["aep_001" := features_b]}.

(** The world whose second pickle holds the record [v]. *)
Definition world_with (v : varf) : world :=
  World (<[pkl_a := FPickle (PDict (DictVarf varf_a))]>
           (<[pkl_b := FPickle (PDict (DictVarf v))]>
              {["/out" := FDir]}))
        [].

Definition collector_line : logline :=
  LogLine INFO "collecting features for magcol: %s" ["aep_000"].

(** What [collect_features] returns for the two records of [HAT-001]. *)
Definition twin_dict : gmap string dval :=
  list_to_map [
    ("objectids", DCell (CArray [AStr "HAT-001"]));
    ("magcol", DCell (CStr "aep_000"));
    ("availablefeatures", DCell (CList [AStr "stetsonj"; AStr "mad"]));
    ("stetsonj", DCell (CArray [ANum 12; ANum 7]));
    ("mad", DCell (CArray [ANum 3; ANum 5]));
    ("features_array",
     DMatrix (Matrix 2 2 [[ANum 12; ANum 3]; [ANum 7; ANum 5]]));
    ("labels_array", DLabels [0]);
    ("kwargs",
     DKwargs (Kwargs "varfeatures-*.pkl" (Some ["stetsonj"; "mad"]) None "binary"))
  ].

Definition twin_collected_world : world :=
  World (<["/out/features.pkl" := FPickle (PDict (DictFeatures twin_dict))]>
           (fs (world_with varf_twin)))
        [collector_line].

(** What it returns in [demo_world] for the label type ['multi']. *)
Definition multi_dict : gmap string dval :=
  <["labels_array" := DLabels [0; 0]]>
    (<["kwargs" :=
         DKwargs (Kwargs "varfeatures-*.pkl" (Some ["stetsonj"; "mad"]) None "multi")]>
       collected_dict).

Definition multi_world : world :=
  World (<["/out/features.pkl" := FPickle (PDict (DictFeatures multi_dict))]>
           (fs demo_world))
        [collector_line].

(** The world after a collection without labels. *)
Definition unlabelled_world : world :=
  World (<["/out/actual-collected-features.pkl" :=
             FPickle (PDict (DictFeatures applied_features))]>
           (fs demo_world))
        [collector_line].

(** The bundle [train_rf_classifier] makes of [collected_dict], and the
    world it leaves when it pickles the bundle. *)
Definition trained_bundle : clfdict :=
  ClfDict (Some (DMatrix (Matrix 2 2 [[ANum 12; ANum 3]; [ANum 7; ANum 5]])))
          (Some (DLabels [0; 1]))
          (Some (DCell (CList [AStr "stetsonj"; AStr "mad"])))
          (Some (DCell (CStr "aep_000")))
          (Some (DCell (CArray [AStr "HAT-001"; AStr "HAT-002"])))
          (Some demo_kwargs)
          (Some (DKwargs (Kwargs "varfeatures-*.pkl" (Some ["stetsonj"; "mad"]) None "binary")))
          (Some tt) (Some 1) (Some tt) (Some tt).

Definition search_line : logline :=
  LogLine INFO "running grid-search CV to optimize RF hyperparameters..." [].

Definition trained_world : world :=
  World (<["/out/rf.pkl" := FPickle (PDict (DictClassifier trained_bundle))]>
           (fs collected_world))
        [collector_line; search_line].

(** What [apply_rf_classifier] returns for that bundle, and the world it
    leaves. *)
Definition trained_prediction : prediction :=
  Prediction applied_features "/out/actual-collected-features.pkl"
             (DictClassifier trained_bundle) [1; 1] [[0; 1]; [0; 1]].

Definition trained_applied_world : world :=
  World (<["/out/predictions.pkl" := FPickle (pickle_prediction trained_prediction)]>
           (<["/out/actual-collected-features.pkl" :=
                FPickle (PDict (DictFeatures applied_features))]>
              (fs trained_world)))
        [collector_line; search_line; collector_line].

(** A collection a caller made by hand, without the ['kwargs'] entry. *)
Definition handmade_dict : gmap string dval := delete "kwargs" collected_dict.

(** *** A grid search to report on *)

(** Scores are spelled out with three decimals already, a parameter
    setting is its text. *)
#[export] Instance demo_report_types : ReportTypes := {|
  score := string;
  params := string
|}.

#[export] Instance demo_report : Report := {|
  fmt_3f := fun x => x;
  str_of_params := fun p => p
|}.

(** Four candidates; the second and the fourth tie for the first rank. *)
Definition demo_results : cv_results :=
  CvResults (Some [3; 1; 4; 1])
            (Some ["0.812"; "0.934"; "0.655"; "0.934"])
            (Some ["0.031"; "0.012"; "0.101"; "0.020"])
            (Some ["{'n_estimators': 100}"; "{'n_estimators': 250}";
                   "{'n_estimators': 10}"; "{'n_estimators': 500}"]).
End RfclassDemo.

(** * Properties *)

(** ** Computations *)

Section MonadFacts.
Context {W : Type}.

(** Inversion of the monad's operations. *)
Lemma bind_Ok {A B} (m : M W A) (k : A -> M W B) w w' b :
  bind m k w = (w', Ok b) ->
  exists w1 a, m w = (w1, Ok a) /\ k a w1 = (w', Ok b).
Proof.
  unfold bind. destruct (m w) as [w1 [a|e]]; [eauto|done].
Qed.

Lemma try_except_Ok {A} (m : M W A) h w w' a :
  try_except m h w = (w', Ok a) ->
  (forall e w1, exists w2, h e w1 = (w2, Raise e)) ->
  m w = (w', Ok a).
Proof.
  unfold try_except. intros Ht Hh. destruct (m w) as [w1 [a'|e]]; [done|].
  destruct (Hh e w1) as [w2 Hw2]. congruence.
Qed.

Lemma lift_Ok {A} (o : outcome A) (w w' : W) a :
  lift o w = (w', Ok a) -> w' = w /\ o = Ok a.
Proof. unfold lift. intros; by simplify_eq. Qed.

Lemma obind_Ok {A B} (o : outcome A) (k : A -> outcome B) b :
  o ≫= k = Ok b -> exists a, o = Ok a /\ k a = Ok b.
Proof. destruct o as [a|e]; [eauto|done]. Qed.

(** Two computations that start alike and whose continuations agree on
    normal returns agree on normal returns. *)
Lemma bind_Ok_mono {A B} (m : M W A) (k1 k2 : A -> M W B) w w' b :
  (forall a w1, k1 a w1 = (w', Ok b) -> k2 a w1 = (w', Ok b)) ->
  bind m k1 w = (w', Ok b) -> bind m k2 w = (w', Ok b).
Proof.
  intros Hk. unfold bind. destruct (m w) as [w1 [a|e]]; [apply Hk|done].
Qed.

(** Rules for [preserves]. *)

Context (R : W -> W -> Prop) `{!Reflexive R} `{!Transitive R}.

Lemma preserves_ret {A} (a : A) : preserves R (ret a).
Proof. intros w. reflexivity. Qed.

Lemma preserves_raise {A} e : preserves R (@raise W A e).
Proof. intros w. reflexivity. Qed.

Lemma preserves_lift {A} (o : outcome A) : preserves R (lift o).
Proof. intros w. reflexivity. Qed.

Lemma preserves_bind {A B} (m : M W A) (k : A -> M W B) :
  preserves R m -> (forall a, preserves R (k a)) -> preserves R (bind m k).
Proof.
  intros Hm Hk w. unfold bind. specialize (Hm w).
  destruct (m w) as [w' [a|e]]; simpl in *; [|done].
  etransitivity; [exact Hm|apply Hk].
Qed.

Lemma preserves_try_except {A} (m : M W A) (h : exn -> M W A) :
  preserves R m -> (forall e, preserves R (h e)) -> preserves R (try_except m h).
Proof.
  intros Hm Hh w. unfold try_except. specialize (Hm w).
  destruct (m w) as [w' [a|e]]; simpl in *; [done|].
  etransitivity; [exact Hm|apply Hh].
Qed.

Lemma preserves_when (c : bool) (m : M W unit) :
  preserves R m -> preserves R (when c m).
Proof. destruct c; [done|]. intros _. apply preserves_ret. Qed.

Lemma preserves_for_each {A} (xs : list A) (body : A -> M W unit) :
  (forall x, preserves R (body x)) -> preserves R (for_each xs body).
Proof.
  intros Hb. induction xs as [|x xs IH]; simpl.
  - apply preserves_ret.
  - apply preserves_bind; [apply Hb|done].
Qed.
End MonadFacts.

(** ** The stamp cache *)

Section SkyviewFacts.
Import Skyview.
Context `{Extern}.

(** X6: row [i] of the flipped image is row [n - 1 - i] of the image: the
    flip reverses the order of the rows. *)
Lemma flipud_lookup {A} (frame : list A) (i : nat) :
  (i < length frame)%nat ->
  flipud frame !! i = frame !! (length frame - S i)%nat.
Proof. intros Hi. unfold flipud. by apply reverse_lookup. Qed.

(** C9: the vertical flip [get_stamp] applies ([np.flipud]) is an
    involution: flipping an image twice gives the image back. *)
Theorem flipud_involutive {A} (frame : list A) : flipud (flipud frame) = frame.
Proof. unfold flipud. apply reverse_involutive. Qed.

#[local] Instance keeps_refl : Reflexive keeps.
Proof. by intros w. Qed.
#[local] Instance keeps_trans : Transitive keeps.
Proof.
  intros a b c (?&Hab) (?&Hbc). split; [congruence|auto].
Qed.

Lemma LOG_keeps l f a : preserves keeps (LOG l f a).
Proof. by intros w. Qed.

Lemma http_get_keeps r : preserves keeps (http_get r).
Proof. intros w. unfold http_get. by destruct (server (sent w) r). Qed.

Lemma raise_for_status_keeps st : preserves keeps (raise_for_status st).
Proof. intros w. unfold raise_for_status. by case_match. Qed.

Lemma gzip_write_keeps d p c : preserves keeps (gzip_write d p c).
Proof.
  intros w. unfold gzip_write.
  repeat case_match; try done; simpl.
  all: split; try done; intros q Hq; simpl;
    destruct (decide (p = q)) as [->|]; [by rewrite lookup_insert_eq|by rewrite lookup_insert_ne].
Qed.

Lemma download_keeps timeout verbose cachedir cachefname u :
  preserves keeps (download timeout verbose cachedir cachefname u).
Proof.
  unfold download. apply preserves_bind; try apply _.
  { apply preserves_when; try apply _. apply LOG_keeps. }
  intros _. apply preserves_bind; try apply _; [apply http_get_keeps|].
  intros [[? ?] ?]. apply gzip_write_keeps.
Qed.

Lemma on_error_keeps fp timeout e : preserves keeps (on_error fp timeout e).
Proof.
  destruct e; (apply preserves_bind; try apply _;
    [apply LOG_keeps|intros _; by apply preserves_raise]).
Qed.

Lemma fetch_keeps fp survey scaling params timeout verbose cachedir cachefname :
  preserves keeps (fetch fp survey scaling params timeout verbose cachedir cachefname).
Proof.
  unfold fetch. apply preserves_try_except; try apply _; [|apply on_error_keeps].
  apply preserves_bind; try apply _.
  { apply preserves_when; try apply _. apply LOG_keeps. }
  intros _. apply preserves_bind; try apply _; [apply http_get_keeps|].
  intros [[st resp] c]. apply preserves_bind; try apply _; [apply raise_for_status_keeps|].
  intros _. destruct (FITS_REGEX_findall resp) as [|u us] eqn:E.
  - apply preserves_bind; try apply _; [apply LOG_keeps|]. intros _. by apply preserves_ret.
  - apply preserves_bind; try apply _; [|intros _; by apply preserves_ret].
    apply preserves_for_each; try apply _. intros x. apply download_keeps.
Qed.

Lemma on_error_raises fp timeout e w : exists w', on_error fp timeout e w = (w', Raise e).
Proof. destruct e; eexists; reflexivity. Qed.

Lemma when_log_sent (c : bool) l f a w :
  exists w', when c (LOG l f a) w = (w', Ok tt) /\
    fs w' = fs w /\ sent w' = sent w /\ survey_list w' = survey_list w.
Proof. destruct c; eexists; (split; [reflexivity|done]). Qed.

Lemma download_Ok timeout verbose cachedir cachefname u w w1 :
  download timeout verbose cachedir cachefname u w = (w1, Ok tt) ->
  exists st txt content,
    server (sent w) (file_request timeout u) = Response st txt content /\
    fs w1 = <[cachefname := File true content]> (fs w) /\
    sent w1 = sent w ++ [file_request timeout u].
Proof.
  unfold download. intros Hd.
  apply bind_Ok in Hd as (w0 & [] & Hlog & Hd).
  destruct (when_log_sent verbose INFO "getting %s" [urljoin FITS_BASEURL u] w)
    as (w0' & Hlog' & Hfs & Hsent & _).
  unfold LOGINFO in Hlog. rewrite Hlog' in Hlog. simplify_eq.
  apply bind_Ok in Hd as (w2 & [[st txt] content] & Hget & Hw).
  unfold http_get in Hget. rewrite Hsent in Hget.
  destruct (server (sent w) (file_request timeout u)) as [e|st' txt' c'] eqn:Hs; [done|].
  simplify_eq. exists st, txt, content. split; [done|].
  unfold gzip_write in Hw. simpl in Hw.
  repeat case_match; simplify_eq; simpl; rewrite ?Hfs, ?Hsent; done.
Qed.

Lemma download_loop timeout verbose cachedir cachefname urls u w w1 :
  for_each urls (download timeout verbose cachedir cachefname) w = (w1, Ok tt) ->
  last urls = Some u ->
  exists st txt content,
    server (sent w ++ (file_request timeout <$> removelast urls))
           (file_request timeout u) = Response st txt content /\
    fs w1 !! cachefname = Some (File true content).
Proof.
  revert w. induction urls as [|x urls IH]; intros w Hloop Hlast; [done|].
  simpl in Hloop. apply bind_Ok in Hloop as (w2 & [] & Hd & Hloop).
  apply download_Ok in Hd as (st & txt & content & Hs & Hfs & Hsent).
  destruct urls as [|y urls].
  - simpl in Hloop. unfold ret in Hloop. injection Hloop as <-.
    injection Hlast as <-. exists st, txt, content. simpl.
    by rewrite app_nil_r, Hfs, lookup_insert_eq.
  - destruct (IH w2 Hloop) as (st' & txt' & content' & Hs' & Hfs'); [done|].
    exists st', txt', content'. split; [|done].
    rewrite Hsent in Hs'. rewrite <- Hs'.
    change (removelast (x :: y :: urls)) with (x :: removelast (y :: urls)).
    rewrite fmap_cons. by rewrite <- app_assoc.
Qed.

(** C4, as the code has it: when the [try] block of [get_stamp] completes,
    the result page held at least one URL, every URL was requested in turn
    after the query, and the cache path holds, gzip-written, the content of
    the reply to the request for the last URL of the page. *)
Theorem fetch_caches_last_url fp survey scaling params timeout verbose
    cachedir cachefname w w' :
  fetch fp survey scaling params timeout verbose cachedir cachefname w
    = (w', Ok true) ->
  exists status text c u st txt content,
    server (sent w) (query_request params timeout) = Response status text c /\
    last (FITS_REGEX_findall text) = Some u /\
    server (sent w ++ query_request params timeout
                :: (file_request timeout <$> removelast (FITS_REGEX_findall text)))
           (file_request timeout u) = Response st txt content /\
    fs w' !! cachefname = Some (File true content).
Proof.
  unfold fetch. intros Hf.
  apply try_except_Ok in Hf; [|intros e w1; apply on_error_raises].
  apply bind_Ok in Hf as (w0 & [] & Hlog & Hf).
  destruct (when_log_sent verbose INFO "submitting stamp request for %s, %s, %s"
              [fp; survey; scaling] w) as (w0' & Hlog' & Hfs & Hsent & _).
  unfold LOGINFO in Hlog. rewrite Hlog' in Hlog. simplify_eq.
  apply bind_Ok in Hf as (w2 & [[status text] c] & Hget & Hf).
  unfold http_get in Hget. rewrite Hsent in Hget.
  destruct (server (sent w) (query_request params timeout))
    as [e|status' text' c'] eqn:Hq; [done|]. simplify_eq.
  apply bind_Ok in Hf as (w3 & [] & Hst & Hf).
  unfold raise_for_status in Hst.
  destruct ((400 <=? status) && (status <? 600)); [done|].
  unfold ret in Hst. injection Hst as <-.
  destruct (FITS_REGEX_findall text) as [|x urls] eqn:Hfind.
  { apply bind_Ok in Hf as (? & [] & _ & Hf). done. }
  apply bind_Ok in Hf as (w4 & [] & Hloop & Hf).
  unfold ret in Hf. simplify_eq.
  destruct (last (x :: urls)) as [u|] eqn:Hlast.
  2:{ by apply last_None in Hlast. }
  destruct (download_loop _ _ _ _ _ u _ _ Hloop Hlast)
    as (st & txt & content & Hs & Hc).
  exists status, text, c, u, st, txt, content.
  rewrite Hfind. split_and!; [done..| |done].
  simpl in Hs. rewrite Hsent, <- app_assoc in Hs. exact Hs.
Qed.

(** The pure tail of [get_stamp] hands back the frame it was given. *)
Lemma deliver_frame k savewcsheader frame hdr s :
  deliver k savewcsheader frame hdr = Ok (Some s) ->
  stamp_frame s = frame /\
  stamp_header s = (if savewcsheader then Some hdr else None).
Proof.
  unfold deliver. destruct k as [k|]; simpl.
  - destruct (convolve frame k); simpl; [|done].
    destruct savewcsheader; intros; by simplify_eq.
  - destruct savewcsheader; intros; by simplify_eq.
Qed.

Lemma deliver_kernel k savewcsheader frame hdr :
  deliver (Some k) savewcsheader frame hdr =
  (_ ← convolve frame k; deliver None savewcsheader frame hdr).
Proof. reflexivity. Qed.

(** The directories [os.makedirs] made are there, and nothing else
    changed. *)
Lemma make_dirs_lookup ps (m : gmap string entry) q :
  make_dirs ps m !! q = if bool_decide (q ∈ ps) then Some Dir else m !! q.
Proof.
  induction ps as [|a ps IH]; simpl; [done|].
  destruct (decide (a = q)) as [->|Hne].
  - rewrite lookup_insert_eq. by rewrite bool_decide_eq_true_2 by (by left).
  - rewrite lookup_insert_ne by done. rewrite IH.
    apply (f_equal (fun b : bool => if b then Some Dir else m !! q)).
    apply bool_decide_ext. split; [by right|].
    intros Hq. apply elem_of_cons in Hq as [->|Hq]; done.
Qed.

Lemma makedirs_Ok p w w' :
  makedirs p w = (w', Ok tt) ->
  makedirs_error p w = None /\ w' = set_fs (make_dirs (p :: ancestors p)) w.
Proof. unfold makedirs. destruct (makedirs_error p w); intros; by simplify_eq. Qed.

Lemma makedirs_Raise p w w' e :
  makedirs p w = (w', Raise e) -> makedirs_error p w = Some e /\ w' = w.
Proof. unfold makedirs. destruct (makedirs_error p w); intros; by simplify_eq. Qed.

(** What a successful call leaves behind. *)
Lemma get_stamp_Ok ra decl survey scaling flip k forcefetch cachedir timeout
    savewcsheader verbose w w1 r :
  get_stamp ra decl survey scaling flip k forcefetch cachedir timeout
            savewcsheader verbose w = (w1, Ok (Some r)) ->
  exists rest gz data hdr frame,
    survey_list w1 = survey :: rest /\
    is_Some (fs w1 !! resolve_cachedir cachedir) /\
    fs w1 !! cachefname cachedir ra decl survey scaling = Some (File gz data) /\
    fits_open data = Ok (hdr, frame) /\
    deliver k savewcsheader (if flip then flipud frame else frame) hdr
      = Ok (Some r).
Proof.
  unfold get_stamp. intros Hg.
  apply bind_Ok in Hg as (wa & surveys & Hsv & Hg).
  unfold set_survey in Hsv. destruct (survey_list w) as [|x rest] eqn:Hsl; [done|].
  simplify_eq.
  apply bind_Ok in Hg as (wb & direxists & Hde & Hg).
  unfold path_exists in Hde. simplify_eq.
  apply bind_Ok in Hg as (wc & [] & Hmk & Hg).
  apply bind_Ok in Hg as (wd & cached & Hca & Hg).
  unfold path_exists in Hca. simplify_eq.
  apply bind_Ok in Hg as (we & goon & Hfetch & Hg).
  destruct goon; simpl in Hg; [|done].
  apply bind_Ok in Hg as (wf & [hdr frame] & Hopen & Hg).
  apply bind_Ok in Hg as (wg & [] & Hlog & Hg).
  unfold lift in Hg. simplify_eq.
  (* the directory exists once the call has looked for it *)
  assert (is_Some (fs wd !! resolve_cachedir cachedir) /\
          survey_list wd = survey :: rest) as [Hdir Hsl'].
  { clear -Hmk. unfold when in Hmk.
    destruct (bool_decide (is_Some (fs w !! resolve_cachedir cachedir)))
      eqn:Hex; simpl in Hmk.
    - apply bool_decide_eq_true in Hex. unfold ret in Hmk. by simplify_eq.
    - apply makedirs_Ok in Hmk as [_ ->]. unfold set_fs. cbn [fs survey_list].
      rewrite make_dirs_lookup. by rewrite bool_decide_eq_true_2 by (by left). }
  assert (Hk : keeps wd we).
  { destruct (forcefetch || _) in Hfetch.
    - pose proof (fetch_keeps (formposition ra decl) survey scaling
        (formparams ra decl (survey :: rest) scaling) timeout verbose
        (resolve_cachedir cachedir)
        (cachefname cachedir ra decl survey scaling) wd) as Hk.
      by rewrite Hfetch in Hk.
    - unfold ret in Hfetch. by simplify_eq. }
  destruct Hk as (Hsl'' & Hex).
  unfold pyfits_open in Hopen.
  destruct (fs we !! cachefname cachedir ra decl survey scaling)
    as [[|gz data]|] eqn:Hc; simplify_eq.
  destruct (when_log_sent verbose INFO
    "fetched stamp successfully for %s, provenance: %s"
    [repr_str (formposition ra decl);
     if forcefetch || negb (bool_decide (is_Some
          (fs wd !! cachefname cachedir ra decl survey scaling)))
     then "new download" else "cache"] wf)
    as (w' & Hlog' & Hfs & _ & Hsur).
  unfold LOGINFO in Hlog. rewrite Hlog' in Hlog. simplify_eq.
  exists rest, gz, data, hdr, frame.
  rewrite Hsur, Hfs, Hsl'', Hsl'. split_and!; auto.
Qed.

(** A call that finds its file in the cache. *)
Lemma get_stamp_hit ra decl survey scaling flip k cachedir timeout
    savewcsheader verbose w x rest gz data hdr frame :
  survey_list w = x :: rest ->
  is_Some (fs w !! resolve_cachedir cachedir) ->
  fs w !! cachefname cachedir ra decl survey scaling = Some (File gz data) ->
  fits_open data = Ok (hdr, frame) ->
  exists w2,
    get_stamp ra decl survey scaling flip k false cachedir timeout
              savewcsheader verbose w
      = (w2, deliver k savewcsheader (if flip then flipud frame else frame) hdr) /\
    sent w2 = sent w /\ fs w2 = fs w.
Proof.
  intros Hsl Hdir Hc Hopen.
  unfold get_stamp, bind, set_survey. rewrite Hsl.
  unfold path_exists at 1. simpl.
  rewrite (bool_decide_eq_true_2 _ Hdir). simpl.
  unfold path_exists. simpl. rewrite Hc.
  rewrite bool_decide_eq_true_2 by eauto. simpl.
  unfold pyfits_open. simpl. rewrite Hc, Hopen.
  destruct verbose; simpl; eexists; (split; [reflexivity|done]).
Qed.

(** C7: after a call that returned a stamp, a call with the same parameters
    and [forcefetch=False] on the world that call left issues no request
    (the list of requests sent is unchanged), leaves the files alone, and
    returns the same stamp. *)
Theorem get_stamp_second_call_cached ra decl survey scaling flip k forcefetch
    cachedir timeout savewcsheader verbose w w1 r :
  get_stamp ra decl survey scaling flip k forcefetch cachedir timeout
            savewcsheader verbose w = (w1, Ok (Some r)) ->
  exists w2,
    get_stamp ra decl survey scaling flip k false cachedir timeout
              savewcsheader verbose w1 = (w2, Ok (Some r)) /\
    sent w2 = sent w1 /\ fs w2 = fs w1.
Proof.
  intros Hfirst.
  apply get_stamp_Ok in Hfirst
    as (rest & gz & data & hdr & frame & Hsl & Hdir & Hc & Hopen & Hr).
  destruct (get_stamp_hit ra decl survey scaling flip k cachedir timeout
              savewcsheader verbose w1 survey rest gz data hdr frame)
    as (w2 & Hsecond & Hsent & Hfs); try done.
  exists w2. by rewrite Hsecond, Hr.
Qed.

(** X1: the kernel does not reach the result: a call with a kernel that
    returns a stamp returns what the call without a kernel returns, and
    leaves the same world. *)
Theorem get_stamp_ignores_kernel ra decl survey scaling flip k forcefetch
    cachedir timeout savewcsheader verbose w w1 r :
  get_stamp ra decl survey scaling flip (Some k) forcefetch cachedir timeout
            savewcsheader verbose w = (w1, Ok (Some r)) ->
  get_stamp ra decl survey scaling flip None forcefetch cachedir timeout
            savewcsheader verbose w = (w1, Ok (Some r)).
Proof.
  unfold get_stamp.
  apply bind_Ok_mono; intros surveys wa.
  apply bind_Ok_mono; intros direxists wb.
  apply bind_Ok_mono; intros [] wc.
  apply bind_Ok_mono; intros cached wd.
  apply bind_Ok_mono; intros goon we.
  destruct goon; cbn [negb]; [|done].
  apply bind_Ok_mono; intros [hdr frame] wf.
  apply bind_Ok_mono; intros [] wg.
  rewrite deliver_kernel. unfold lift.
  destruct (convolve _ k); [done|]. simpl. intros; simplify_eq.
Qed.
End SkyviewFacts.

Section SkyviewRuns.
Import Skyview SkyviewDemo.

(** C1, the code at a failing input: with the frame [[0, 9, 0]] in the
    cache and a three-pixel box kernel, [get_stamp] returns [[0, 9, 0]]
    although the convolution of that frame with that kernel is
    [[3, 3, 3]]. *)
Theorem get_stamp_returns_unconvolved_frame :
  (get_stamp "10.6847" "41.2690" "DSS2 Red" "Linear" false (Some box3) false
             cachedir "10.0" true false cached_world).2
    = Ok (Some (FrameHeader star "SIMPLE = T")) /\
  convolve star box3 = Ok [[3; 3; 3]].
Proof. split; vm_compute; reflexivity. Qed.

Lemma fetch_fresh_world :
  fetch "10.6847, 41.2690" "DSS2 Red" "Linear" demo_params "10.0"
        false cachedir cachefile fresh_world = (fetched_world, Ok true).
Proof. vm_compute. reflexivity. Qed.

(** C4, a run: the page lists two files, the cache ends up with the
    second. *)
Lemma fetch_caches_last_url_witness :
  fetch "10.6847, 41.2690" "DSS2 Red" "Linear" demo_params "10.0"
        false cachedir cachefile fresh_world = (fetched_world, Ok true) /\
  exists status text c u st txt content,
    server (sent fresh_world) (query_request demo_params "10.0")
      = Response status text c /\
    last (FITS_REGEX_findall text) = Some u /\
    server (sent fresh_world ++ query_request demo_params "10.0"
              :: (file_request "10.0" <$> removelast (FITS_REGEX_findall text)))
           (file_request "10.0" u) = Response st txt content /\
    fs fetched_world !! cachefile = Some (File true content).
Proof.
  split; [exact fetch_fresh_world|].
  exact (fetch_caches_last_url "10.6847, 41.2690" "DSS2 Red" "Linear"
           demo_params "10.0" false cachedir cachefile fresh_world
           fetched_world fetch_fresh_world).
Defined.

(** C4 as stated fails: the page lists two files whose contents differ, the
    fetch completes, and the cache holds the download of the second URL, not
    of the first. *)
Lemma fetch_does_not_cache_first_url :
  fetch "10.6847, 41.2690" "DSS2 Red" "Linear" demo_params "10.0"
        false cachedir cachefile fresh_world = (fetched_world, Ok true) /\
  server (sent fresh_world) (query_request demo_params "10.0")
    = Response 200 result_page ("", []) /\
  FITS_REGEX_findall result_page = [first_url; second_url] /\
  server (sent fresh_world ++ [query_request demo_params "10.0"])
         (file_request "10.0" first_url) = Response 200 "" first_file /\
  fs fetched_world !! cachefile = Some (File true second_file) /\
  second_file <> first_file /\
  ~ caches_first_url "10.6847, 41.2690" "DSS2 Red" "Linear" demo_params "10.0"
      false cachedir cachefile fresh_world.
Proof.
  assert (Hrun : fetch "10.6847, 41.2690" "DSS2 Red" "Linear" demo_params "10.0"
        false cachedir cachefile fresh_world = (fetched_world, Ok true))
    by (vm_compute; reflexivity).
  assert (Hpage : server (sent fresh_world) (query_request demo_params "10.0")
    = Response 200 result_page ("", [])) by (vm_compute; reflexivity).
  assert (Hurls : FITS_REGEX_findall result_page = [first_url; second_url])
    by (vm_compute; reflexivity).
  assert (Hfirst : server (sent fresh_world ++ [query_request demo_params "10.0"])
         (file_request "10.0" first_url) = Response 200 "" first_file)
    by (vm_compute; reflexivity).
  assert (Hcache : fs fetched_world !! cachefile = Some (File true second_file))
    by (vm_compute; reflexivity).
  assert (Hne : second_file <> first_file) by discriminate.
  split_and!; try done.
  intros Hclaim.
  specialize (Hclaim fetched_world 200 result_page ("", []) first_url
                     [second_url] 200 "" first_file Hrun Hpage Hurls Hfirst).
  rewrite Hcache in Hclaim. by injection Hclaim.
Qed.

Lemma get_stamp_fresh_world :
  get_stamp "10.6847" "41.2690" "DSS2 Red" "Linear" true None false
            cachedir "10.0" true false fresh_world
    = (fetched_world, Ok (Some (FrameHeader [[7; 8]; [5; 6]] "SIMPLE = T"))).
Proof. vm_compute. reflexivity. Qed.

(** C7, a run: the first call downloads, the second is served from the
    cache. *)
Lemma get_stamp_second_call_cached_witness :
  exists w2,
    get_stamp "10.6847" "41.2690" "DSS2 Red" "Linear" true None false
              cachedir "10.0" true false fetched_world
      = (w2, Ok (Some (FrameHeader [[7; 8]; [5; 6]] "SIMPLE = T"))) /\
    sent w2 = sent fetched_world /\ fs w2 = fs fetched_world.
Proof.
  exact (get_stamp_second_call_cached "10.6847" "41.2690" "DSS2 Red" "Linear"
           true None false cachedir "10.0" true false fresh_world fetched_world
           (FrameHeader [[7; 8]; [5; 6]] "SIMPLE = T") get_stamp_fresh_world).
Defined.

Lemma get_stamp_cached_world :
  get_stamp "10.6847" "41.2690" "DSS2 Red" "Linear" false (Some box3) false
            cachedir "10.0" true false cached_world
    = (cached_world, Ok (Some (FrameHeader star "SIMPLE = T"))).
Proof. vm_compute. reflexivity. Qed.

(** X1, a run with a kernel, and with it the run without: the same
    stamp. *)
Lemma get_stamp_ignores_kernel_witness :
  get_stamp "10.6847" "41.2690" "DSS2 Red" "Linear" false None false
            cachedir "10.0" true false cached_world
    = (cached_world, Ok (Some (FrameHeader star "SIMPLE = T"))).
Proof.
  exact (get_stamp_ignores_kernel "10.6847" "41.2690" "DSS2 Red" "Linear"
           false box3 false cachedir "10.0" true false cached_world
           cached_world (FrameHeader star "SIMPLE = T") get_stamp_cached_world).
Defined.

(** X6, a run: the bottom row of a flipped frame is the top row of the
    frame. *)
Lemma flipud_lookup_witness :
  flipud [[1; 2]; [3; 4]; [5; 6]] !! 2%nat
    = [[1; 2]; [3; 4]; [5; 6]] !! (length [[1; 2]; [3; 4]; [5; 6]] - 3)%nat.
Proof. apply (flipud_lookup [[1; 2]; [3; 4]; [5; 6]] 2). simpl. lia. Defined.
End SkyviewRuns.

(** ** The feature collector and the classifier functions *)

Section RfclassFacts.
Import Rfclass.
Context `{Extern}.

(** *** [maxobjects] *)

Lemma truncate_pklist_zero pklist : truncate_pklist (Some 0) pklist = pklist.
Proof. reflexivity. Qed.

Lemma truncate_pklist_positive m pklist :
  0 < m -> truncate_pklist (Some m) pklist = take (Z.to_nat m) pklist.
Proof.
  intros Hm. unfold truncate_pklist, slice_to.
  rewrite bool_decide_eq_false_2 by lia.
  destruct (0 <=? m) eqn:E; [done|lia].
Qed.

Lemma truncate_pklist_negative m pklist :
  m < 0 ->
  truncate_pklist (Some m) pklist
    = take (length pklist - Z.to_nat (- m)) pklist.
Proof.
  intros Hm. unfold truncate_pklist, slice_to.
  rewrite bool_decide_eq_false_2 by lia.
  destruct (0 <=? m) eqn:E; [lia|]. f_equal. lia.
Qed.

(** The outcome of [pickle_dump] does not depend on what is written. *)
Lemma pickle_dump_outcome v1 v2 p w :
  (pickle_dump v1 p w).2 = (pickle_dump v2 p w).2.
Proof. unfold pickle_dump. repeat case_match; done. Qed.

(** Two dumps of different values to one path go the same way; what is
    left to compare is the two values, which differ in ['kwargs'] only. *)
Ltac same_dump :=
  match goal with
  | |- context [pickle_dump ?a ?p ?w] =>
      match goal with
      | |- context [pickle_dump ?b p w] =>
          lazymatch a with
          | b => fail
          | _ => pose proof (pickle_dump_outcome a b p w);
                 destruct (pickle_dump a p w) as [? [[]|?]],
                          (pickle_dump b p w) as [? [[]|?]];
                 simpl in *; simplify_eq; try done;
                 by rewrite !delete_insert_eq
          end
      end
  end.

(** [collect_features] with [maxobjects=0] has the outcome it has with
    [maxobjects=None]: the same exception, or the same collection but for
    the ['kwargs'] entry that records the argument. *)
Lemma collect_features_zero_as_none featuresdir magcol outfile pklglob
    featurestouse labeldict labeltype w :
  delete "kwargs" <$>
    (collect_features featuresdir magcol outfile pklglob featurestouse
                      (Some 0) labeldict labeltype w).2
  = delete "kwargs" <$>
    (collect_features featuresdir magcol outfile pklglob featurestouse
                      None labeldict labeltype w).2.
Proof.
  unfold collect_features, bind, glob. simpl.
  destruct (collect_pickles _ _ _ _ _) as [w1 [fd1|e]]; [|done].
  unfold lift. destruct (stack_features fd1) as [[fd2 m]|e]; [|done].
  destruct labeldict as [ld|].
  - destruct (dict_get fd2 "objectids") as [ids|e]; [|done].
    destruct (make_labels ld labeltype ids) as [labels|e]; [|done].
    unfold ret.
    same_dump.
  - unfold ret.
    same_dump.
Qed.

(** *** Arguments that cannot be resolved *)

Lemma resolve_unresolvable arg msg w :
  unresolvable arg w -> resolve arg msg w = (complain msg w, Ok None).
Proof.
  destruct arg as [path|d|]; simpl; [|done|done].
  intros Hnone. unfold bind, path_exists. rewrite Hnone.
  rewrite bool_decide_eq_false_2 by (by intros [? ?]). done.
Qed.

(** C8, as the code has it: for an argument that is neither a dict nor a
    string naming an existing path, [train_rf_classifier] and
    [apply_rf_classifier] log one error line, change nothing else, raise
    nothing and return [None]. *)
Theorem unresolvable_input_returns_none arg kw classifier_to_pickle
    varfeaturesdir outpickle maxobjects w :
  unresolvable arg w ->
  train_rf_classifier arg kw classifier_to_pickle w
    = (complain "can't figure out the input collected_features arg" w, Ok None) /\
  apply_rf_classifier arg varfeaturesdir outpickle maxobjects w
    = (complain "can't figure out the input classifier arg" w, Ok None).
Proof.
  intros Hu. unfold train_rf_classifier, apply_rf_classifier, bind.
  by rewrite !resolve_unresolvable.
Qed.

(** *** The label array *)

Lemma label_loop_spec labeldict labeltype ids : forall ind arr arr',
  label_loop labeldict labeltype ind ids arr = Ok arr' ->
  length arr' = length arr /\
  (forall j, (j < ind)%nat -> arr' !! j = arr !! j) /\
  (forall j, (ind + length ids <= j)%nat -> arr' !! j = arr !! j) /\
  (forall j id, ids !! j = Some id -> arr !! (ind + j)%nat = Some 0 ->
     arr' !! (ind + j)%nat = Some (spec_label labeldict labeltype id)).
Proof.
  induction ids as [|id ids IH]; intros ind arr arr' Hloop; simpl in Hloop.
  { simplify_eq. split_and!; try done. }
  apply obind_Ok in Hloop as (arr1 & Hstep & Hloop).
  apply IH in Hloop as (Hlen & Hlow & Hhigh & Hmid).
  assert (Harr1 : length arr1 = length arr /\
            (forall j, j <> ind -> arr1 !! j = arr !! j) /\
            (arr !! ind = Some 0 ->
             arr1 !! ind = Some (spec_label labeldict labeltype id))).
  { assert (Hset : forall z, length (<[ind := z]> arr) = length arr /\
              (forall j, j <> ind -> <[ind := z]> arr !! j = arr !! j) /\
              (arr !! ind = Some 0 -> <[ind := z]> arr !! ind = Some z)).
    { intros z. rewrite length_insert. split_and!; [done| |].
      - intros j Hj. by rewrite list_lookup_insert_ne.
      - intros Hi. apply list_lookup_insert_eq. by eapply lookup_lt_Some. }
    revert Hstep. unfold spec_label.
    destruct (label_lookup labeldict id) as [v|]; [|by intros; simplify_eq].
    destruct (bool_decide (labeltype = "binary")).
    { destruct (truthy v); intros; simplify_eq; [apply Hset|done]. }
    destruct (bool_decide (labeltype = "classes")); [|by intros; simplify_eq].
    intros Hstep. apply obind_Ok in Hstep as (z & Hz & Hstep). simplify_eq.
    replace (class_code v) with z; [apply Hset|].
    destruct v as [b|z']; simpl in *; [by simplify_eq|].
    by case_match; simplify_eq. }
  destruct Harr1 as (Hlen1 & Hother & Hhere).
  split_and!.
  - congruence.
  - intros j Hj. rewrite Hlow by lia. apply Hother. lia.
  - intros j Hj. simpl in Hj. rewrite Hhigh by lia. apply Hother. lia.
  - intros [|j] id' Hid Hzero; simpl in Hid.
    + simplify_eq. rewrite Nat.add_0_r in *. rewrite Hlow by lia. auto.
    + replace (ind + S j)%nat with (S ind + j)%nat in * by lia.
      apply Hmid; [done|]. rewrite Hother by lia. done.
Qed.

Lemma make_labels_spec labeldict labeltype c labels :
  make_labels labeldict labeltype c = Ok labels ->
  exists ids, c = CArray ids /\ length labels = length ids /\
    forall i id, ids !! i = Some id ->
      labels !! i = Some (spec_label labeldict labeltype id).
Proof.
  unfold make_labels. intros Hm.
  apply obind_Ok in Hm as (n & Hn & Hm).
  apply obind_Ok in Hm as (ids & Hids & Hm).
  destruct c as [s|l|l|s]; simpl in *; simplify_eq.
  apply label_loop_spec in Hm as (Hlen & _ & _ & Hmid).
  rewrite length_replicate in Hlen. exists ids. split_and!; [done..|].
  intros i id Hi. apply (Hmid i id Hi). simpl.
  apply lookup_replicate_2. by eapply lookup_lt_Some.
Qed.

Lemma spec_label_binary labeldict id :
  spec_label labeldict "binary" id = 0 \/ spec_label labeldict "binary" id = 1.
Proof.
  unfold spec_label. destruct (label_lookup labeldict id) as [v|]; [|by left].
  simpl. destruct (truthy v); auto.
Qed.

(** C6: when [collect_features] is given a label map and returns, its
    ['labels_array'] has one entry per entry of ['objectids'], entry [i]
    being the label of object [i] in the words of the specification
    ([spec_label]: 0 for an object absent from the map; in binary mode 1 for
    a true lookup and 0 otherwise; in class mode the integer looked up); in
    binary mode every entry is 0 or 1. *)
Theorem collect_features_labels featuresdir magcol outfile pklglob
    featurestouse maxobjects labeldict labeltype w w' fd :
  collect_features featuresdir magcol outfile pklglob featurestouse
                   maxobjects (Some labeldict) labeltype w = (w', Ok fd) ->
  exists ids labels,
    fd !! "objectids" = Some (DCell (CArray ids)) /\
    fd !! "labels_array" = Some (DLabels labels) /\
    length labels = length ids /\
    (forall i id, ids !! i = Some id ->
       labels !! i = Some (spec_label labeldict labeltype id)) /\
    (labeltype = "binary" -> Forall (fun z => z = 0 \/ z = 1) labels).
Proof.
  unfold collect_features. intros Hc.
  apply bind_Ok in Hc as (w1 & pklist & _ & Hc).
  apply bind_Ok in Hc as (w2 & [] & _ & Hc).
  apply bind_Ok in Hc as (w3 & fd1 & _ & Hc).
  apply bind_Ok in Hc as (w4 & [fd2 m] & _ & Hc).
  apply bind_Ok in Hc as (w5 & result & Hlab & Hc).
  apply bind_Ok in Hc as (w6 & [] & _ & Hc).
  unfold ret in Hc. simplify_eq.
  apply bind_Ok in Hlab as (w7 & c & Hget & Hlab).
  apply lift_Ok in Hget as [-> Hget].
  apply bind_Ok in Hlab as (w8 & labels & Hmk & Hlab).
  apply lift_Ok in Hmk as [-> Hmk]. unfold ret in Hlab. simplify_eq.
  apply make_labels_spec in Hmk as (ids & -> & Hlen & Hids).
  exists ids, labels.
  unfold dict_get in Hget. destruct (fd2 !! "objectids") eqn:Ho; simplify_eq.
  split_and!; try done.
  - rewrite lookup_insert_ne by done. rewrite lookup_insert_ne by done.
    rewrite lookup_insert_ne by done. by rewrite lookup_fmap, Ho.
  - rewrite lookup_insert_ne by done. by rewrite lookup_insert_eq.
  - intros ->. apply Forall_lookup. intros i z Hz.
    destruct (lookup_lt_is_Some_2 ids i) as [id Hid].
    { rewrite <- Hlen. by eapply lookup_lt_Some. }
    rewrite (Hids i id Hid) in Hz. simplify_eq. apply spec_label_binary.
Qed.

(** *** Reading the records *)

Lemma existsb_atom_is (f : string) (l : list string) :
  existsb (atom_is f) (AStr <$> l) = bool_decide (f ∈ l).
Proof.
  induction l as [|x l IH].
  - symmetry. apply bool_decide_eq_false_2. set_solver.
  - rewrite fmap_cons. cbn [existsb atom_is]. rewrite IH.
    destruct (decide (f = x)) as [->|Hne].
    + rewrite (bool_decide_eq_true_2 (x = x)) by done.
      symmetry. apply bool_decide_eq_true_2. by left.
    + rewrite (bool_decide_eq_false_2 (f = x)) by done.
      apply bool_decide_ext. rewrite elem_of_cons. intuition congruence.
Qed.

Section OneRecord.
Context (d : gmap string scalar).

Lemma collect_feature_new (fd : gmap string cell) f pre x :
  fd !! "availablefeatures" = Some (CList (AStr <$> pre)) ->
  f ∉ pre -> f <> "availablefeatures" -> d !! f = Some x ->
  collect_feature (VFeatures d) fd f
    = Ok (<[f := CList [ANum x]]>
            (<["availablefeatures" := CList (AStr <$> pre ++ [f])]> fd)).
Proof.
  intros Hfd Hfp Hne Hx. unfold collect_feature, contains, append.
  rewrite Hfd. simpl.
  rewrite existsb_atom_is, (bool_decide_eq_false_2 _ Hfp). simpl.
  rewrite (bool_decide_eq_true_2 (is_Some (d !! f))) by eauto. simpl.
  rewrite Hx. simpl. rewrite lookup_insert_eq, insert_insert_eq.
  by rewrite fmap_app.
Qed.

Lemma collect_feature_known (fd : gmap string cell) f avail l x :
  fd !! "availablefeatures" = Some (CList (AStr <$> avail)) ->
  f ∈ avail -> fd !! f = Some (CList l) -> d !! f = Some x ->
  collect_feature (VFeatures d) fd f = Ok (<[f := CList (l ++ [ANum x])]> fd).
Proof.
  intros Hfd Hin Hl Hx. unfold collect_feature, contains, append.
  rewrite Hfd. simpl.
  rewrite existsb_atom_is, (bool_decide_eq_true_2 _ Hin). simpl.
  rewrite (bool_decide_eq_true_2 (is_Some (d !! f))) by eauto. simpl.
  by rewrite Hx, Hl.
Qed.

Lemma register_features : forall names pre (fd : gmap string cell),
  NoDup (pre ++ names) -> "availablefeatures" ∉ names ->
  (forall f, f ∈ names -> is_Some (d !! f)) ->
  fd !! "availablefeatures" = Some (CList (AStr <$> pre)) ->
  exists fd',
    fold_outcome (collect_feature (VFeatures d)) names fd = Ok fd' /\
    fd' !! "availablefeatures" = Some (CList (AStr <$> pre ++ names)) /\
    (forall f x, f ∈ names -> d !! f = Some x -> fd' !! f = Some (CList [ANum x])) /\
    (forall k, k ∉ names -> k <> "availablefeatures" -> fd' !! k = fd !! k).
Proof.
  induction names as [|f names IH]; intros pre fd Hnd Hav Hd Hfd.
  { exists fd. rewrite app_nil_r. split_and!; try done. set_solver. }
  assert ((f ∉ pre) /\ (f ∉ names) /\ NoDup ((pre ++ [f]) ++ names)) as (Hfp & Hff & Hnd').
  { rewrite <- app_assoc. simpl. apply NoDup_app in Hnd as (? & Hdis & Hnd2).
    apply NoDup_cons in Hnd2 as [? ?]. split_and!; try done.
    - intros Hin. apply (Hdis f Hin). set_solver.
    - apply NoDup_app. split_and!; try done. by constructor. }
  destruct (Hd f) as [x Hx]; [set_solver|].
  assert (Hne : f <> "availablefeatures") by set_solver.
  set (fd3 := <[f := CList [ANum x]]>
                (<["availablefeatures" := CList (AStr <$> pre ++ [f])]> fd)).
  destruct (IH (pre ++ [f]) fd3) as (fd' & Hfold & Havail & Hvals & Hrest);
    try done.
  { set_solver. }
  { set_solver. }
  { unfold fd3. rewrite lookup_insert_ne by done.
    by rewrite lookup_insert_eq. }
  exists fd'. split_and!.
  - simpl. by rewrite (collect_feature_new fd f pre x).
  - by rewrite Havail, <- app_assoc.
  - intros f' x' Hin Hx'. apply elem_of_cons in Hin as [->|Hin].
    + rewrite Hrest by done. unfold fd3. rewrite lookup_insert_eq. congruence.
    + by apply Hvals.
  - intros k Hk Hk'. rewrite Hrest by set_solver.
    unfold fd3. rewrite !lookup_insert_ne by set_solver. done.
Qed.

Lemma append_features avail : forall names (fd : gmap string cell),
  NoDup names -> "availablefeatures" ∉ names ->
  (forall f, f ∈ names -> is_Some (d !! f)) ->
  fd !! "availablefeatures" = Some (CList (AStr <$> avail)) ->
  names ⊆ avail ->
  (forall f, f ∈ names -> exists l, fd !! f = Some (CList l)) ->
  exists fd',
    fold_outcome (collect_feature (VFeatures d)) names fd = Ok fd' /\
    (forall f l x, f ∈ names -> fd !! f = Some (CList l) -> d !! f = Some x ->
       fd' !! f = Some (CList (l ++ [ANum x]))) /\
    (forall k, k ∉ names -> fd' !! k = fd !! k).
Proof.
  induction names as [|f names IH]; intros fd Hnd Hav Hd Hfd Hsub Hcols.
  { exists fd. split_and!; try done. set_solver. }
  apply NoDup_cons in Hnd as [Hff Hnd].
  destruct (Hd f) as [x Hx]; [set_solver|].
  destruct (Hcols f) as [l Hl]; [set_solver|].
  assert (Hne : f <> "availablefeatures") by set_solver.
  destruct (IH (<[f := CList (l ++ [ANum x])]> fd)) as (fd' & Hfold & Hvals & Hrest);
    try done.
  { set_solver. }
  { set_solver. }
  { by rewrite lookup_insert_ne. }
  { set_solver. }
  { intros f' Hin. rewrite lookup_insert_ne by set_solver. apply Hcols. set_solver. }
  exists fd'. split_and!.
  - simpl. rewrite (collect_feature_known fd f avail l x); try done.
    set_solver.
  - intros f' l' x' Hin Hl' Hx'. apply elem_of_cons in Hin as [->|Hin].
    + rewrite Hrest by done. rewrite lookup_insert_eq. congruence.
    + apply Hvals; [done| |done]. rewrite lookup_insert_ne by set_solver. done.
  - intros k Hk. rewrite Hrest by set_solver.
    rewrite lookup_insert_ne by set_solver. done.
Qed.
End OneRecord.

Lemma note_objectid (fd : gmap string cell) ids v :
  fd !! "objectids" = Some (CList (AStr <$> ids)) ->
  exists fd1,
    (forall B (k : gmap string cell -> outcome B),
       (contains fd "objectids" (objectid v) ≫= fun seen =>
          (if negb seen then append fd "objectids" (AStr (objectid v)) else Ok fd)
            ≫= k) = k fd1) /\
    fd1 !! "objectids" = Some (CList (AStr <$> note_id ids (objectid v))) /\
    forall k, k <> "objectids" -> fd1 !! k = fd !! k.
Proof.
  intros Hfd. unfold contains, append, note_id. rewrite Hfd. simpl.
  rewrite existsb_atom_is. case_bool_decide; simpl.
  - exists fd. by split_and!.
  - eexists. split_and!; [done| |].
    + by rewrite lookup_insert_eq, fmap_app.
    + intros k Hk. by rewrite lookup_insert_ne.
Qed.

Lemma seen_ids_snoc vs v : seen_ids (vs ++ [v]) = note_id (seen_ids vs) (objectid v).
Proof. unfold seen_ids. by rewrite fmap_app, foldl_app. Qed.

Lemma column_snoc magcol f vs v x :
  feature_of magcol f v = Some x ->
  column magcol f (vs ++ [v]) = column magcol f vs ++ [ANum x].
Proof.
  intros Hx. unfold column. rewrite omap_app, fmap_app. simpl. by rewrite Hx.
Qed.

Section Records.
Context (magcol : string) (featurestouse : option (list string)).
Context (Hnodup : NoDup (featurestoget featurestouse))
        (Hids : "objectids" ∉ (featurestoget featurestouse))
        (Havail : "availablefeatures" ∉ (featurestoget featurestouse)).

Lemma collect_varf_first v :
  exposes magcol (featurestoget featurestouse) v ->
  exists fd',
    collect_varf magcol featurestouse (initial_feature_dict magcol) v = Ok fd' /\
    collected magcol (featurestoget featurestouse) [v] fd'.
Proof.
  intros (d & Hd & Hall). unfold collect_varf.
  destruct (note_objectid (initial_feature_dict magcol) [] v)
    as (fd1 & -> & Ho & Hk); [done|]. rewrite Hd. simpl.
  destruct (register_features d (featurestoget featurestouse) [] fd1) as (fd' & Hfold & Hav & Hvals & Hrest);
    try done.
  { by rewrite Hk. }
  exists fd'. split; [exact Hfold|]. split_and!.
  - rewrite Hrest by done. exact Ho.
  - exact Hav.
  - intros f Hf. destruct (Hall f Hf) as [x Hx].
    rewrite (Hvals f x Hf Hx). unfold column, feature_of. simpl.
    by rewrite Hd, Hx.
Qed.

Lemma collect_varf_next vs (fd : gmap string cell) v :
  collected magcol (featurestoget featurestouse) vs fd ->
  exposes magcol (featurestoget featurestouse) v ->
  exists fd',
    collect_varf magcol featurestouse fd v = Ok fd' /\
    collected magcol (featurestoget featurestouse) (vs ++ [v]) fd'.
Proof.
  intros (Ho & Hav & Hcols) (d & Hd & Hall). unfold collect_varf.
  destruct (note_objectid fd (seen_ids vs) v) as (fd1 & -> & Ho1 & Hk); [done|].
  rewrite Hd. simpl.
  destruct (append_features d (featurestoget featurestouse) (featurestoget featurestouse) fd1) as (fd' & Hfold & Hvals & Hrest);
    try done.
  { by rewrite Hk. }
  { intros f Hf. exists (column magcol f vs). rewrite Hk by set_solver. by apply Hcols. }
  exists fd'. split; [exact Hfold|]. split_and!.
  - rewrite Hrest by done. by rewrite seen_ids_snoc.
  - rewrite Hrest by done. by rewrite Hk.
  - intros f Hf. destruct (Hall f Hf) as [x Hx].
    rewrite (Hvals f (column magcol f vs) x Hf); [| |done].
    + rewrite (column_snoc magcol f vs v x); [done|].
      unfold feature_of. by rewrite Hd.
    + rewrite Hk by set_solver. by apply Hcols.
Qed.

Lemma collect_varfs_next : forall rest vs (fd : gmap string cell),
  collected magcol (featurestoget featurestouse) vs fd ->
  Forall (exposes magcol (featurestoget featurestouse)) rest ->
  exists fd',
    fold_outcome (collect_varf magcol featurestouse) rest fd = Ok fd' /\
    collected magcol (featurestoget featurestouse) (vs ++ rest) fd'.
Proof.
  induction rest as [|v rest IH]; intros vs fd Hc Hall.
  { exists fd. by rewrite app_nil_r. }
  apply Forall_cons in Hall as [Hv Hall].
  destruct (collect_varf_next vs fd v Hc Hv) as (fd1 & Hstep & Hc1).
  destruct (IH (vs ++ [v]) fd1 Hc1 Hall) as (fd' & Hfold & Hc').
  exists fd'. simpl. rewrite Hstep. simpl. split; [done|].
  by rewrite <- app_assoc in Hc'.
Qed.

Lemma collect_varfs v vs :
  Forall (exposes magcol (featurestoget featurestouse)) (v :: vs) ->
  exists fd',
    fold_outcome (collect_varf magcol featurestouse) (v :: vs)
                 (initial_feature_dict magcol) = Ok fd' /\
    collected magcol (featurestoget featurestouse) (v :: vs) fd'.
Proof.
  intros Hall. apply Forall_cons in Hall as [Hv Hall].
  destruct (collect_varf_first v Hv) as (fd1 & Hstep & Hc1).
  destruct (collect_varfs_next vs [v] fd1 Hc1 Hall) as (fd' & Hfold & Hc').
  exists fd'. simpl. rewrite Hstep. done.
Qed.
End Records.

(** *** Lists into arrays, columns into the matrix *)

Lemma coerce_nums (l : list scalar) : coerce (ANum <$> l) = ANum <$> l.
Proof.
  unfold coerce. replace (existsb is_str (ANum <$> l)) with false; [done|].
  induction l; simpl; auto.
Qed.

Lemma coerce_strs (l : list string) : coerce (AStr <$> l) = AStr <$> l.
Proof.
  unfold coerce. replace (existsb is_num (AStr <$> l)) with false.
  { by rewrite andb_false_r. }
  induction l; simpl; auto.
Qed.

Lemma to_array_str (fd : gmap string cell) f c :
  fd !! f = Some c -> to_array fd (AStr f) = Ok (<[f := np_array c]> fd).
Proof. intros Hc. unfold to_array, lookup_atom. by rewrite Hc. Qed.

Lemma to_arrays : forall names (fd : gmap string cell),
  NoDup names ->
  (forall f, f ∈ names -> exists l, fd !! f = Some (CList l)) ->
  exists fd',
    fold_outcome to_array (AStr <$> names) fd = Ok fd' /\
    (forall f l, f ∈ names -> fd !! f = Some (CList l) ->
       fd' !! f = Some (CArray (coerce l))) /\
    (forall k, k ∉ names -> fd' !! k = fd !! k).
Proof.
  induction names as [|f names IH]; intros fd Hnd Hcols.
  { exists fd. split_and!; try done. set_solver. }
  apply NoDup_cons in Hnd as [Hf Hnd].
  destruct (Hcols f) as [l Hl]; [set_solver|].
  destruct (IH (<[f := CArray (coerce l)]> fd)) as (fd' & Hfold & Hvals & Hrest);
    try done.
  { intros f' Hin. rewrite lookup_insert_ne by set_solver. apply Hcols. set_solver. }
  exists fd'. split_and!.
  - simpl. rewrite (to_array_str fd f (CList l) Hl). exact Hfold.
  - intros f' l' Hin Hl'. apply elem_of_cons in Hin as [->|Hin].
    + rewrite Hrest by done. rewrite lookup_insert_eq. congruence.
    + apply Hvals; [done|]. by rewrite lookup_insert_ne by set_solver.
  - intros k Hk. rewrite Hrest by set_solver.
    by rewrite lookup_insert_ne by set_solver.
Qed.

Lemma map_outcome_cons {A B} (f : A -> outcome B) x xs :
  map_outcome f (x :: xs) = (f x ≫= fun y => map_outcome f xs ≫= fun ys => Ok (y :: ys)).
Proof. reflexivity. Qed.

Lemma columns_lookup : forall names (fd : gmap string cell) (col : string -> list atom),
  (forall f, f ∈ names -> fd !! f = Some (CArray (col f))) ->
  map_outcome (fun feat => column_of <$> lookup_atom fd feat) (AStr <$> names)
    = Ok (col <$> names).
Proof.
  induction names as [|f names IH]; intros fd col Hcols; [done|].
  rewrite !fmap_cons, map_outcome_cons, (IH fd col) by set_solver.
  unfold lookup_atom. rewrite (Hcols f) by set_solver. done.
Qed.

Lemma column_exposed magcol feats f vs :
  Forall (exposes magcol feats) vs -> f ∈ feats ->
  Forall2 (fun v a => exists x, feature_of magcol f v = Some x /\ a = ANum x)
          vs (column magcol f vs).
Proof.
  intros Hall Hf. induction Hall as [|v vs (d & Hd & Hex) Hall IH]; [constructor|].
  destruct (Hex f Hf) as [x Hx]. unfold column. simpl.
  assert (Hfo : feature_of magcol f v = Some x) by (unfold feature_of; by rewrite Hd).
  rewrite Hfo. simpl. constructor; [eauto|exact IH].
Qed.

Lemma column_length magcol feats f vs :
  Forall (exposes magcol feats) vs -> f ∈ feats ->
  length (column magcol f vs) = length vs.
Proof.
  intros Hall Hf. symmetry. eapply Forall2_length, column_exposed; eauto.
Qed.

Lemma column_no_string magcol f vs : existsb is_str (column magcol f vs) = false.
Proof. unfold column. induction (omap (feature_of magcol f) vs); simpl; auto. Qed.

Lemma no_strings magcol vs names :
  existsb (existsb is_str) ((fun f => column magcol f vs) <$> names) = false.
Proof.
  induction names as [|f names IH]; [done|].
  rewrite fmap_cons. cbn [existsb]. by rewrite IH, column_no_string.
Qed.

Lemma stack_collected magcol feats vs (fd : gmap string cell) :
  collected magcol feats vs fd ->
  feats <> [] -> NoDup feats ->
  "objectids" ∉ feats -> "availablefeatures" ∉ feats ->
  Forall (exposes magcol feats) vs ->
  exists fd2,
    stack_features fd = Ok (fd2, stacked magcol feats vs) /\
    fd2 !! "objectids" = Some (CArray (AStr <$> seen_ids vs)) /\
    fd2 !! "availablefeatures" = Some (CList (AStr <$> feats)).
Proof.
  intros (Ho & Hav & Hcols) Hne Hnd Hids Havail Hall.
  destruct (to_arrays feats fd Hnd) as (fd1 & Hfold & Hvals & Hrest).
  { intros f Hf. eexists. by apply Hcols. }
  set (fd2 := <["objectids" := CArray (AStr <$> seen_ids vs)]> fd1).
  exists fd2. split_and!.
  - unfold stack_features, dict_get. rewrite Hav. simpl. rewrite Hfold. simpl.
    rewrite Hrest, Ho by done. simpl. rewrite coerce_strs. fold fd2.
    assert (Hav2 : fd2 !! "availablefeatures" = Some (CList (AStr <$> feats))).
    { unfold fd2. rewrite lookup_insert_ne by done. by rewrite Hrest. }
    rewrite Hav2. simpl.
    rewrite (columns_lookup feats fd2 (fun f => column magcol f vs)).
    2:{ intros f Hf. unfold fd2. rewrite lookup_insert_ne by set_solver.
        rewrite (Hvals f _ Hf (Hcols f Hf)). unfold column. by rewrite coerce_nums. }
    simpl. unfold column_stack, stacked.
    destruct feats as [|f feats']; [done|].
    rewrite fmap_cons.
    rewrite (column_length magcol (f :: feats') f vs Hall) by set_solver.
    replace (forallb _ _) with true.
    2:{ symmetry. apply forallb_forall. intros c Hc.
        apply list_elem_of_In, list_elem_of_fmap in Hc as (f' & -> & Hf').
        rewrite (column_length magcol (f :: feats') f' vs Hall) by set_solver.
        by apply Nat.eqb_eq. }
    pose proof (no_strings magcol vs (f :: feats')) as Hns.
    rewrite fmap_cons in Hns. unfold coerce_all. rewrite Hns. simpl.
    by rewrite length_fmap.
  - unfold fd2. by rewrite lookup_insert_eq.
  - unfold fd2. rewrite lookup_insert_ne by done. by rewrite Hrest.
Qed.

Lemma stacked_rows magcol feats vs :
  Forall (exposes magcol feats) vs ->
  Forall2 (row_of magcol feats) vs (rows (stacked magcol feats vs)).
Proof.
  intros Hall. simpl. apply Forall2_same_length_lookup_2.
  { by rewrite length_fmap, length_seq. }
  intros i v row Hv Hrow.
  rewrite list_lookup_fmap in Hrow.
  rewrite lookup_seq_lt in Hrow by (by eapply lookup_lt_Some).
  simpl in Hrow. injection Hrow as <-.
  unfold row_of, row_at.
  assert (Hsub : forall names, names ⊆ feats ->
    Forall2 (fun f a => exists d x, varf_get v magcol = Ok (VFeatures d) /\
                                    d !! f = Some x /\ a = ANum x)
            names (omap (fun c => c !! i) ((fun f => column magcol f vs) <$> names))).
  { induction names as [|f names IH]; intros Hsub; [constructor|].
    pose proof (column_exposed magcol feats f vs Hall) as Hcol.
    destruct (Forall2_lookup_l _ _ _ i v (Hcol ltac:(set_solver)) Hv)
      as (a & Ha & x & Hx & ->).
    rewrite fmap_cons. simpl. rewrite Ha. constructor; [|apply IH; set_solver].
    unfold feature_of in Hx.
    destruct (varf_get v magcol) as [[s|d]|e]; try done. eauto. }
  by apply Hsub.
Qed.

Lemma seen_ids_NoDup vs :
  NoDup (objectid <$> vs) -> seen_ids vs = objectid <$> vs.
Proof.
  induction vs as [|v vs IH] using rev_ind; [done|].
  rewrite fmap_app. simpl. intros Hnd.
  apply NoDup_app in Hnd as (Hnd & Hdis & _).
  rewrite seen_ids_snoc, IH by done. unfold note_id.
  rewrite bool_decide_eq_false_2; [done|].
  intros Hin. apply (Hdis _ Hin). constructor.
Qed.

Lemma featurestoget_nonempty featurestouse : featurestoget featurestouse <> [].
Proof. by destruct featurestouse as [[|? ?]|]. Qed.

Lemma stack_features_initial magcol :
  stack_features (initial_feature_dict magcol)
    = Raise (ValueError "need at least one array to concatenate").
Proof. reflexivity. Qed.

(** Reading the pickles leaves the world alone. *)
Lemma collect_pickles_records magcol featurestouse w :
  forall pklist records (fd : gmap string cell),
  Forall2 (fun pkl v => fs w !! pkl = Some (FPickle (PDict (DictVarf v))))
          pklist records ->
  collect_pickles magcol featurestouse pklist fd w
    = (w, fold_outcome (collect_varf magcol featurestouse) records fd).
Proof.
  intros pklist records fd Hload. revert fd.
  induction Hload as [|pkl v pklist records Hpkl Hload IH]; intros fd; [done|].
  simpl. unfold bind at 1, pickle_load. rewrite Hpkl. simpl.
  unfold bind at 1, lift at 1. simpl.
  unfold bind at 1, lift at 1.
  destruct (collect_varf magcol featurestouse fd v) as [fd'|e]; simpl; [|done].
  apply IH.
Qed.

Lemma truncate_pklist_nil maxobjects : truncate_pklist maxobjects [] = [].
Proof.
  destruct maxobjects as [m|]; [|done]. unfold truncate_pklist, slice_to.
  repeat case_match; by rewrite ?take_nil.
Qed.

Lemma collect_features_empty_glob featuresdir magcol outfile pklglob
    featurestouse maxobjects labeldict labeltype w :
  glob_glob (paths w) (path_join featuresdir pklglob) = [] ->
  (collect_features featuresdir magcol outfile pklglob featurestouse
                    maxobjects labeldict labeltype w).2
    = Raise (ValueError "need at least one array to concatenate").
Proof.
  intros Hglob. unfold collect_features, bind, glob. simpl.
  rewrite Hglob, truncate_pklist_nil. simpl.
  unfold lift. by rewrite stack_features_initial.
Qed.

Lemma collect_features_kwargs featuresdir magcol outfile pklglob
    featurestouse maxobjects labeldict labeltype w w' fd :
  collect_features featuresdir magcol outfile pklglob featurestouse
                   maxobjects labeldict labeltype w = (w', Ok fd) ->
  fd !! "kwargs"
    = Some (DKwargs (Kwargs pklglob featurestouse maxobjects labeltype)).
Proof.
  unfold collect_features. intros Hc.
  apply bind_Ok in Hc as (w1 & pklist & _ & Hc).
  apply bind_Ok in Hc as (w2 & [] & _ & Hc).
  apply bind_Ok in Hc as (w3 & fd1 & _ & Hc).
  apply bind_Ok in Hc as (w4 & [fd2 m] & _ & Hc).
  apply bind_Ok in Hc as (w5 & result & Hlab & Hc).
  apply bind_Ok in Hc as (w6 & [] & _ & Hc).
  unfold ret in Hc. simplify_eq. by rewrite lookup_insert_eq.
Qed.

(** C5, as the code has it: when [collect_features] returns for records that
    each expose every requested feature, the requested names being distinct
    and none of them ['objectids'] or ['availablefeatures'], the matrix has
    one row per record and one column per requested feature; row [i] holds
    the values of record [i] in the requested order; ['availablefeatures']
    is the requested list; and ['objectids'] lists the identifiers of the
    records in order when these are distinct. *)
Theorem collect_features_matrix featuresdir magcol outfile pklglob
    featurestouse maxobjects labeldict labeltype w w' fd records :
  Forall2 (fun pkl v => fs w !! pkl = Some (FPickle (PDict (DictVarf v))))
          (truncate_pklist maxobjects (glob_glob (paths w) (path_join featuresdir pklglob)))
          records ->
  Forall (exposes magcol (featurestoget featurestouse)) records ->
  NoDup (featurestoget featurestouse) ->
  "objectids" ∉ featurestoget featurestouse ->
  "availablefeatures" ∉ featurestoget featurestouse ->
  collect_features featuresdir magcol outfile pklglob featurestouse
                   maxobjects labeldict labeltype w = (w', Ok fd) ->
  exists m,
    fd !! "features_array" = Some (DMatrix m) /\
    nrows m = length records /\
    ncols m = length (featurestoget featurestouse) /\
    Forall2 (row_of magcol (featurestoget featurestouse)) records (rows m) /\
    fd !! "availablefeatures"
      = Some (DCell (CList (AStr <$> featurestoget featurestouse))) /\
    (NoDup (objectid <$> records) ->
     fd !! "objectids" = Some (DCell (CArray (AStr <$> (objectid <$> records))))).
Proof.
  intros Hload Hall Hnd Hids Havail Hc. unfold collect_features in Hc.
  apply bind_Ok in Hc as (w1 & pklist & Hglob & Hc).
  unfold glob in Hglob. injection Hglob as Hw Hp. subst w1 pklist.
  apply bind_Ok in Hc as (w2 & [] & Hlog & Hc).
  assert (Hfs : fs w2 = fs w).
  { unfold LOGINFO, LOG, modify in Hlog. by simplify_eq. }
  rewrite <- Hfs in Hload.
  apply bind_Ok in Hc as (w3 & fd1 & Hpk & Hc).
  rewrite (collect_pickles_records _ _ _ _ _ _ Hload) in Hpk.
  injection Hpk as Hw3 Hpk. subst w3.
  apply bind_Ok in Hc as (w4 & [fd2 m] & Hst & Hc).
  apply lift_Ok in Hst as [-> Hst].
  apply bind_Ok in Hc as (w5 & result & Hlab & Hc).
  apply bind_Ok in Hc as (w6 & [] & _ & Hc).
  unfold ret in Hc. injection Hc as Hw6 Hfd. subst fd.
  assert (result !! "features_array" = Some (DMatrix m) /\
          result !! "availablefeatures" = DCell <$> fd2 !! "availablefeatures" /\
          result !! "objectids" = DCell <$> fd2 !! "objectids")
    as (Hr1 & Hr2 & Hr3).
  { destruct labeldict as [ld|].
    - apply bind_Ok in Hlab as (w7 & c & _ & Hlab).
      apply bind_Ok in Hlab as (w8 & labels & _ & Hlab).
      unfold ret in Hlab. simplify_eq.
      rewrite !(lookup_insert_ne _ "labels_array") by done.
      rewrite lookup_insert_eq, !(lookup_insert_ne _ "features_array") by done.
      by rewrite !lookup_fmap.
    - unfold ret in Hlab. simplify_eq.
      rewrite lookup_insert_eq, !(lookup_insert_ne _ "features_array") by done.
      by rewrite !lookup_fmap. }
  rewrite !(lookup_insert_ne _ "kwargs") by done.
  destruct records as [|v vs].
  { simpl in Hpk. injection Hpk as <-. by rewrite stack_features_initial in Hst. }
  destruct (collect_varfs magcol featurestouse Hnd Hids Havail v vs Hall)
    as (fd' & Hfold & Hcoll).
  rewrite Hfold in Hpk. injection Hpk as <-.
  destruct (stack_collected magcol (featurestoget featurestouse) (v :: vs) fd')
    as (fd2' & Hst' & Ho & Hav); try done.
  { apply featurestoget_nonempty. }
  rewrite Hst' in Hst. injection Hst as <- <-.
  exists (stacked magcol (featurestoget featurestouse) (v :: vs)).
  rewrite Hr1, Hr2, Hr3, Ho, Hav. split_and!; try done.
  - by apply stacked_rows.
  - intros Hnd'. by rewrite seen_ids_NoDup.
Qed.

(** The label loop runs through when every label of the map fits an
    [int64]. *)
Lemma label_loop_Ok labeldict labeltype ids :
  map_Forall (fun _ v => exists z, to_int64 v = Ok z) labeldict ->
  forall ind arr, exists arr', label_loop labeldict labeltype ind ids arr = Ok arr'.
Proof.
  intros Hfit. induction ids as [|id ids IH]; intros ind arr; simpl; [eauto|].
  destruct (label_lookup labeldict id) as [v|] eqn:Hv; [|apply IH].
  destruct (bool_decide (labeltype = "binary")).
  { destruct (truthy v); apply IH. }
  destruct (bool_decide (labeltype = "classes")); [|apply IH].
  destruct id as [s|x]; simpl in Hv; [|done].
  destruct (Hfit s v Hv) as [z ->]. apply IH.
Qed.

(** *** Applying a classifier *)

(** X2: [apply_rf_classifier] collects with the default label type,
    whatever the bundle recorded. *)
Lemma apply_rf_classifier_collects_binary classifier varfeaturesdir outpickle
    maxobjects w w' p :
  apply_rf_classifier classifier varfeaturesdir outpickle maxobjects w
    = (w', Ok (Some p)) ->
  exists k, pred_features p !! "kwargs" = Some (DKwargs k) /\
            kw_labeltype k = "binary".
Proof.
  unfold apply_rf_classifier. intros Ha.
  apply bind_Ok in Ha as (w1 & r & _ & Ha).
  destruct r as [[d|]|]; [| |done].
  2:{ done. }
  destruct (pydict_lookup d "feature_names") as [names|].
  2:{ apply bind_Ok in Ha as (? & [] & _ & Ha). done. }
  apply bind_Ok in Ha as (w2 & ck & _ & Ha).
  apply bind_Ok in Ha as (w3 & lt & _ & Ha).
  apply bind_Ok in Ha as (w4 & pg & _ & Ha).
  apply bind_Ok in Ha as (w5 & mc & _ & Ha).
  apply bind_Ok in Ha as (w6 & mc' & _ & Ha).
  apply bind_Ok in Ha as (w7 & ftu & _ & Ha).
  apply bind_Ok in Ha as (w8 & features & Hc & Ha).
  apply bind_Ok in Ha as (w9 & clf & _ & Ha).
  apply bind_Ok in Ha as (w10 & fa & _ & Ha).
  apply bind_Ok in Ha as (w11 & pl & _ & Ha).
  apply bind_Ok in Ha as (w12 & pp & _ & Ha).
  apply bind_Ok in Ha as (w13 & [] & _ & Ha).
  unfold ret in Ha. injection Ha as _ <-. simpl.
  apply collect_features_kwargs in Hc. eauto.
Qed.

(** X3: with no file for the glob of the bundle, the collection fails and
    so does [apply_rf_classifier]. *)
Lemma apply_rf_classifier_empty_glob c names k magcol varfeaturesdir outpickle
    maxobjects w :
  clf_feature_names c = Some (DCell (CList (AStr <$> names))) ->
  clf_collect_kwargs c = Some (DKwargs k) ->
  clf_magcol c = Some (DCell (CStr magcol)) ->
  glob_glob (paths w) (path_join varfeaturesdir (kw_pklglob k)) = [] ->
  (apply_rf_classifier (ArgDict (DictClassifier c)) varfeaturesdir outpickle
                       maxobjects w).2
    = Raise (ValueError "need at least one array to concatenate").
Proof.
  intros Hn Hk Hm Hglob. unfold apply_rf_classifier, bind. simpl.
  unfold pydict_lookup, pydict_get, pydict_lookup, clf_lookup. simpl.
  rewrite Hn, Hk, Hm. simpl. unfold lift. simpl.
  replace (map_outcome as_name (AStr <$> names)) with (Ok names : outcome (list string)).
  2:{ clear. induction names as [|n names IH]; [done|].
      rewrite fmap_cons. simpl. by rewrite <- IH. }
  pose proof (collect_features_empty_glob varfeaturesdir magcol
    (path_join (dirname outpickle) "actual-collected-features.pkl")
    (kw_pklglob k) (Some names) maxobjects None "binary" w Hglob) as Hc.
  destruct (collect_features _ _ _ _ _ _ _ _ w) as [w' [fd|e]]; simpl in *; [done|].
  congruence.
Qed.
End RfclassFacts.

Section RfclassRuns.
Import Rfclass RfclassDemo.

(** C2, the code at a failing input: for a bundle whose glob matches no
    file, [apply_rf_classifier] raises the [ValueError] of
    [np.column_stack] on an empty list. *)
Theorem apply_rf_classifier_crashes_without_files :
  glob_glob (paths demo_world) (path_join features_dir "missing-*.pkl") = [] /\
  (apply_rf_classifier (ArgDict (DictClassifier (bundle "missing-*.pkl" "binary")))
     features_dir "/out/predictions.pkl" None demo_world).2
    = Raise (ValueError "need at least one array to concatenate").
Proof. split; vm_compute; reflexivity. Qed.

(** C3, the code at a failing input: for a bundle collected with label type
    ['classes'], the collection [apply_rf_classifier] makes records the
    label type ['binary']: the bundle's label type is read and not passed
    on. *)
Theorem apply_rf_classifier_drops_labeltype :
  clf_collect_kwargs (bundle "varfeatures-*.pkl" "classes")
    = Some (DKwargs (Kwargs "varfeatures-*.pkl" (Some ["stetsonj"; "mad"]) None "classes")) /\
  kwargs_used
    (apply_rf_classifier
       (ArgDict (DictClassifier (bundle "varfeatures-*.pkl" "classes")))
       features_dir "/out/predictions.pkl" None demo_world).2
    = Some (DKwargs (Kwargs "varfeatures-*.pkl" (Some ["stetsonj"; "mad"]) None "binary")).
Proof. split; vm_compute; reflexivity. Qed.

Lemma collect_features_demo :
  collect_features features_dir "aep_000" "/out/features.pkl" "varfeatures-*.pkl"
    (Some ["stetsonj"; "mad"]) None (Some demo_labels) "binary" demo_world
  = (collected_world, Ok collected_dict).
Proof. vm_compute. reflexivity. Qed.

(** C6, a run: two objects, the second labelled true. *)
Lemma collect_features_labels_witness :
  exists ids labels,
    collected_dict !! "objectids" = Some (DCell (CArray ids)) /\
    collected_dict !! "labels_array" = Some (DLabels labels) /\
    length labels = length ids /\
    (forall i id, ids !! i = Some id ->
       labels !! i = Some (spec_label demo_labels "binary" id)) /\
    ("binary" = "binary" -> Forall (fun z => z = 0 \/ z = 1) labels).
Proof.
  exact (collect_features_labels features_dir "aep_000" "/out/features.pkl"
           "varfeatures-*.pkl" (Some ["stetsonj"; "mad"]) None demo_labels
           "binary" demo_world collected_world collected_dict
           collect_features_demo).
Defined.

(** C8, a run: a path that does not exist. *)
Lemma unresolvable_input_returns_none_witness :
  train_rf_classifier (ArgStr "/features/nothere.pkl") demo_kwargs None demo_world
    = (complain "can't figure out the input collected_features arg" demo_world,
       Ok None) /\
  apply_rf_classifier (ArgStr "/features/nothere.pkl") features_dir
                      "/out/predictions.pkl" None demo_world
    = (complain "can't figure out the input classifier arg" demo_world, Ok None).
Proof.
  apply (unresolvable_input_returns_none (ArgStr "/features/nothere.pkl")
           demo_kwargs None features_dir "/out/predictions.pkl" None demo_world).
  vm_compute. reflexivity.
Defined.

(** C8 as stated fails: a string that names an existing file which is no
    pickle is neither a loadable path to a pickle nor a dict, and both
    functions raise [UnpicklingError] on it, logging nothing. *)
Lemma unpicklable_path_raises :
  fs demo_world !! "/features/README.txt" = Some FBytes /\
  (pickle_load "/features/README.txt" demo_world).2
    = Raise (OtherError "UnpicklingError") /\
  train_rf_classifier (ArgStr "/features/README.txt") demo_kwargs None demo_world
    = (demo_world, Raise (OtherError "UnpicklingError")) /\
  apply_rf_classifier (ArgStr "/features/README.txt") features_dir
                      "/out/predictions.pkl" None demo_world
    = (demo_world, Raise (OtherError "UnpicklingError")).
Proof. split_and!; vm_compute; reflexivity. Qed.

(** C5 as stated fails: two records expose the same feature set, two
    features are requested, one of which no record has, and the matrix has
    one column. *)
Lemma collect_features_skips_missing_feature :
  dom features_a = dom features_b /\
  length ["stetsonj"; "kurtosis"] = 2%nat /\
  features_array_of
    (collect_features features_dir "aep_000" "/out/features.pkl"
       "varfeatures-*.pkl" (Some ["stetsonj"; "kurtosis"]) None None "binary"
       demo_world).2
    = Some (Matrix 2 1 [[ANum 12]; [ANum 7]]).
Proof. split_and!; vm_compute; reflexivity. Qed.

(** C5, a run: two records, two features. *)
Lemma collect_features_matrix_witness :
  exists m,
    collected_dict !! "features_array" = Some (DMatrix m) /\
    nrows m = length [varf_a; varf_b] /\
    ncols m = length (featurestoget (Some ["stetsonj"; "mad"])) /\
    Forall2 (row_of "aep_000" (featurestoget (Some ["stetsonj"; "mad"])))
            [varf_a; varf_b] (rows m) /\
    collected_dict !! "availablefeatures"
      = Some (DCell (CList (AStr <$> featurestoget (Some ["stetsonj"; "mad"])))) /\
    (NoDup (objectid <$> [varf_a; varf_b]) ->
     collected_dict !! "objectids"
       = Some (DCell (CArray (AStr <$> (objectid <$> [varf_a; varf_b]))))).
Proof.
  apply (collect_features_matrix features_dir "aep_000" "/out/features.pkl"
           "varfeatures-*.pkl" (Some ["stetsonj"; "mad"]) None
           (Some demo_labels) "binary" demo_world collected_world
           collected_dict [varf_a; varf_b]).
  - repeat constructor; vm_compute; reflexivity.
  - repeat constructor.
    + exists features_a. split; [reflexivity|].
      intros f Hf. apply (bool_decide_unpack _).
      repeat (apply elem_of_cons in Hf as [->|Hf]; [vm_compute; exact I|]).
      by apply elem_of_nil in Hf.
    + exists features_b. split; [reflexivity|].
      intros f Hf. apply (bool_decide_unpack _).
      repeat (apply elem_of_cons in Hf as [->|Hf]; [vm_compute; exact I|]).
      by apply elem_of_nil in Hf.
  - apply (bool_decide_unpack _). vm_compute. exact I.
  - apply (bool_decide_unpack _). vm_compute. exact I.
  - apply (bool_decide_unpack _). vm_compute. exact I.
  - exact collect_features_demo.
Defined.

Lemma apply_rf_classifier_demo :
  apply_rf_classifier
    (ArgDict (DictClassifier (bundle "varfeatures-*.pkl" "classes")))
    features_dir "/out/predictions.pkl" None demo_world
  = (applied_world, Ok (Some demo_prediction)).
Proof. vm_compute. reflexivity. Qed.

(** X2, a run of [apply_rf_classifier] for a bundle collected with the
    label type ['classes']: the collection it makes records ['binary']. *)
Lemma apply_rf_classifier_collects_binary_witness :
  exists k, pred_features demo_prediction !! "kwargs" = Some (DKwargs k) /\
            kw_labeltype k = "binary".
Proof.
  exact (apply_rf_classifier_collects_binary
           (ArgDict (DictClassifier (bundle "varfeatures-*.pkl" "classes")))
           features_dir "/out/predictions.pkl" None demo_world applied_world
           demo_prediction apply_rf_classifier_demo).
Defined.

(** X3, a run of [apply_rf_classifier] for a glob that matches no file. *)
Lemma apply_rf_classifier_empty_glob_witness :
  (apply_rf_classifier (ArgDict (DictClassifier (bundle "missing-*.pkl" "binary")))
     features_dir "/out/predictions.pkl" None demo_world).2
    = Raise (ValueError "need at least one array to concatenate").
Proof.
  apply (apply_rf_classifier_empty_glob (bundle "missing-*.pkl" "binary")
           ["stetsonj"; "mad"]
           (Kwargs "missing-*.pkl" (Some ["stetsonj"; "mad"]) None "binary")
           "aep_000" features_dir "/out/predictions.pkl" None demo_world).
  all: vm_compute; reflexivity.
Defined.

End RfclassRuns.

(** ** What [get_stamp] does to the world *)

Section SkyviewEffects.
Import Skyview.
Context `{Extern}.

#[local] Instance advances_refl timeout : Reflexive (advances timeout).
Proof.
  intros w. split_and!; try done.
  - exists []. by rewrite app_nil_r.
  - exists []. by rewrite app_nil_r.
Qed.

#[local] Instance advances_trans timeout : Transitive (advances timeout).
Proof.
  intros a b c (Hs & Hp & (n1 & Hn1 & Ha1) & (l1 & Hl1))
               (Hs' & Hp' & (n2 & Hn2 & Ha2) & (l2 & Hl2)).
  split_and!.
  - congruence.
  - auto.
  - exists (n1 ++ n2). split; [by rewrite Hn2, Hn1, app_assoc|by apply Forall_app].
  - exists (l1 ++ l2). by rewrite Hl2, Hl1, app_assoc.
Qed.

Lemma LOG_advances timeout l f a : preserves (advances timeout) (LOG l f a).
Proof.
  intros w. split_and!; try done.
  - exists []. by rewrite app_nil_r.
  - by eexists.
Qed.

Lemma http_get_advances timeout r :
  allowed timeout r -> preserves (advances timeout) (http_get r).
Proof.
  intros Hr w. unfold http_get.
  assert (advances timeout w (set_sent (fun rs => rs ++ [r]) w)).
  { split_and!; try done.
    - exists [r]. split; [done|]. by constructor.
    - exists []. by rewrite app_nil_r. }
  by destruct (server (sent w) r).
Qed.

Lemma raise_for_status_advances timeout st :
  preserves (advances timeout) (raise_for_status st).
Proof. intros w. unfold raise_for_status. by case_match. Qed.

Lemma insert_advances timeout p e w :
  advances timeout w (set_fs (fun m => <[p := e]> m) w).
Proof.
  split_and!; try done.
  - intros q Hq. simpl.
    destruct (decide (p = q)) as [->|]; [by rewrite lookup_insert_eq|by rewrite lookup_insert_ne].
  - exists []. by rewrite app_nil_r.
  - exists []. by rewrite app_nil_r.
Qed.

Lemma gzip_write_advances timeout d p c :
  preserves (advances timeout) (gzip_write d p c).
Proof.
  intros w. unfold gzip_write.
  repeat case_match; try done; apply insert_advances.
Qed.

Lemma makedirs_advances timeout p : preserves (advances timeout) (makedirs p).
Proof.
  intros w. unfold makedirs. destruct (makedirs_error p w); [reflexivity|].
  split_and!; try done.
  - intros q Hq. cbn [fst fs set_fs]. rewrite make_dirs_lookup.
    by case_bool_decide.
  - exists []. by rewrite app_nil_r.
  - exists []. by rewrite app_nil_r.
Qed.

(** *** The cache directory *)

Lemma usable_makedirs w p :
  ~ is_Some (fs w !! p) -> usable w p -> makedirs_error p w = None.
Proof.
  intros Hn [?|[Hne Hall]]; [done|]. unfold makedirs_error.
  rewrite !bool_decide_eq_false_2 by done.
  destruct (existsb _ _) eqn:Hex; [|done].
  apply existsb_exists in Hex as (a & Ha & Hf).
  rewrite Forall_forall in Hall. rewrite Hall in Hf; [done|].
  by apply list_elem_of_In.
Qed.


Lemma path_exists_advances timeout p : preserves (advances timeout) (path_exists p).
Proof. by intros w. Qed.

Lemma pyfits_open_advances timeout p : preserves (advances timeout) (pyfits_open p).
Proof. intros w. unfold pyfits_open. by repeat case_match. Qed.

Lemma preserves_for_each_elem {W A} (R : W -> W -> Prop) `{!Reflexive R}
    `{!Transitive R} (xs : list A) (body : A -> M W unit) :
  (forall x, x ∈ xs -> preserves R (body x)) -> preserves R (for_each xs body).
Proof.
  induction xs as [|x xs IH]; intros Hb; simpl.
  - by apply preserves_ret.
  - apply preserves_bind; try done; [apply Hb; by left|].
    intros _. apply IH. intros y Hy. apply Hb. by right.
Qed.

(** *** The pattern *)

Lemma span_digits_spec s : forall ds rest,
  span_digits s = (ds, rest) -> all_digits ds = true /\ s = ds +:+ rest.
Proof.
  induction s as [|c s IH]; intros ds rest Hs; simpl in Hs.
  { by simplify_eq. }
  destruct (is_digit c) eqn:Hc; [|by simplify_eq].
  destruct (span_digits s) as [ds' rest'] eqn:Hs'. simplify_eq.
  destruct (IH ds' rest eq_refl) as [Hd ->]. simpl. by rewrite Hc, Hd.
Qed.

Lemma match_here_fits_path s m : match_here s = Some m -> fits_path m.
Proof.
  unfold match_here.
  destruct (strip_prefix "tempspace/fits/skv" s) as [s1|]; [|done].
  destruct (span_digits s1) as [ds s2] eqn:Hspan.
  destruct ((8 <=? String.length ds)%nat && (String.length ds <=? 20)%nat) eqn:Hlen;
    [|done].
  destruct (strip_prefix ".fits" s2); [|done].
  intros Hm. injection Hm as <-.
  apply span_digits_spec in Hspan as [Hd _].
  apply andb_true_iff in Hlen as [H8 H20].
  apply Nat.leb_le in H8, H20. exists ds. by split_and!.
Qed.

Lemma findall_fits_path s : forall skip u,
  u ∈ findall_from skip s -> fits_path u.
Proof.
  induction s as [|c s IH]; intros skip u Hu; simpl in Hu.
  { by apply elem_of_nil in Hu. }
  destruct skip as [|k]; [|by eapply IH].
  destruct (match_here (String c s)) as [m|] eqn:Hm; [|by eapply IH].
  apply elem_of_cons in Hu as [->|Hu]; [by eapply match_here_fits_path|by eapply IH].
Qed.

Lemma query_allowed params timeout : allowed timeout (query_request params timeout).
Proof. split; [done|]. left. by split; [|eexists]. Qed.

Lemma file_allowed timeout u : fits_path u -> allowed timeout (file_request timeout u).
Proof. intros Hu. split; [done|]. right. exists u. by split_and!. Qed.

Lemma download_advances timeout verbose cachedir cachefname u :
  fits_path u ->
  preserves (advances timeout) (download timeout verbose cachedir cachefname u).
Proof.
  intros Hu. unfold download. apply preserves_bind; try apply _.
  { apply preserves_when; try apply _. apply LOG_advances. }
  intros _. apply preserves_bind; try apply _.
  { apply http_get_advances. by apply file_allowed. }
  intros [[? ?] ?]. apply gzip_write_advances.
Qed.

Lemma on_error_advances fp timeout e : preserves (advances timeout) (on_error fp timeout e).
Proof.
  destruct e; (apply preserves_bind; try apply _;
    [apply LOG_advances|intros _; apply preserves_raise; apply _]).
Qed.

Lemma fetch_advances fp survey scaling params timeout verbose cachedir cachefname :
  preserves (advances timeout)
    (fetch fp survey scaling params timeout verbose cachedir cachefname).
Proof.
  unfold fetch. apply preserves_try_except; try apply _; [|apply on_error_advances].
  apply preserves_bind; try apply _.
  { apply preserves_when; try apply _. apply LOG_advances. }
  intros _. apply preserves_bind; try apply _.
  { apply http_get_advances, query_allowed. }
  intros [[st resp] c]. apply preserves_bind; try apply _;
    [apply raise_for_status_advances|].
  intros _. destruct (FITS_REGEX_findall resp) as [|u us] eqn:E.
  - apply preserves_bind; try apply _; [apply LOG_advances|]. intros _. apply preserves_ret; apply _.
  - apply preserves_bind; try apply _; [|intros _; apply preserves_ret; apply _].
    apply preserves_for_each_elem; try apply _. intros y Hy.
    apply download_advances. apply (findall_fits_path resp 0). by rewrite <- E in Hy.
Qed.

(** [get_stamp] sets the survey, sees to the cache directory, and goes
    on from there. *)
Lemma get_stamp_from_cache ra decl survey scaling flip k forcefetch cachedir
    timeout savewcsheader verbose w x rest :
  survey_list w = x :: rest ->
  usable w (resolve_cachedir cachedir) ->
  get_stamp ra decl survey scaling flip k forcefetch cachedir timeout
            savewcsheader verbose w
  = from_cache ra decl survey scaling flip k forcefetch cachedir timeout
               savewcsheader verbose (survey :: rest)
      (with_cachedir (resolve_cachedir cachedir)
         (set_survey_list (fun _ => survey :: rest) w)).
Proof.
  intros Hsl Hu. unfold get_stamp, bind at 1, set_survey. rewrite Hsl.
  unfold bind at 1, path_exists at 1. unfold bind at 1, with_cachedir.
  cbn [fs set_survey_list].
  case_bool_decide as Hd; [done|]. cbn [negb when]. unfold makedirs.
  assert (Hm : makedirs_error (resolve_cachedir cachedir)
            (set_survey_list (fun _ => survey :: rest) w) = None)
    by (apply usable_makedirs; [exact Hd|exact Hu]).
  by rewrite Hm.
Qed.


Lemma from_cache_advances ra decl survey scaling flip k forcefetch cachedir timeout
    savewcsheader verbose surveys :
  preserves (advances timeout)
    (from_cache ra decl survey scaling flip k forcefetch cachedir timeout
                savewcsheader verbose surveys).
Proof.
  unfold from_cache.
  apply preserves_bind; try apply _; [apply path_exists_advances|].
  intros cached. apply preserves_bind; try apply _.
  { destruct (forcefetch || negb cached);
      [apply fetch_advances|apply preserves_ret; apply _]. }
  intros goon. destruct goon; simpl; [|apply preserves_ret; apply _].
  apply preserves_bind; try apply _; [apply pyfits_open_advances|].
  intros [hdr frame]. apply preserves_bind; try apply _.
  { apply preserves_when; try apply _. apply LOG_advances. }
  intros _. apply preserves_lift; apply _.
Qed.

(** The world any call leaves, seen from the world with the survey
    set. *)
Lemma get_stamp_advances ra decl survey scaling flip k forcefetch cachedir
    timeout savewcsheader verbose w x rest w' r :
  survey_list w = x :: rest ->
  get_stamp ra decl survey scaling flip k forcefetch cachedir timeout
            savewcsheader verbose w = (w', r) ->
  advances timeout (set_survey_list (fun _ => survey :: rest) w) w'.
Proof.
  intros Hsl. unfold get_stamp, bind at 1, set_survey. rewrite Hsl.
  match goal with
  | |- ?m ?w1 = _ -> _ =>
      assert (Hp : preserves (advances timeout) m); [|intros Hg]
  end.
  { apply preserves_bind; try apply _; [apply path_exists_advances|].
    intros direxists. apply preserves_bind; try apply _.
    { apply preserves_when; try apply _. apply makedirs_advances. }
    intros _. apply from_cache_advances. }
  specialize (Hp (set_survey_list (fun _ => survey :: rest) w)).
  by rewrite Hg in Hp.
Qed.

Lemma with_cachedir_spec dir w :
  survey_list (with_cachedir dir w) = survey_list w /\
  sent (with_cachedir dir w) = sent w /\
  log (with_cachedir dir w) = log w /\
  is_Some (fs (with_cachedir dir w) !! dir) /\
  (forall p, is_Some (fs w !! p) -> is_Some (fs (with_cachedir dir w) !! p)) /\
  (forall p, p ∉ dir :: ancestors dir ->
     fs (with_cachedir dir w) !! p = fs w !! p) /\
  ((forall gz data, fs w !! dir <> Some (File gz data)) ->
   fs (with_cachedir dir w) !! dir = Some Dir).
Proof.
  unfold with_cachedir. case_bool_decide as Hd;
    cbn [fs set_fs survey_list sent log]; split_and!; try done.
  - intros Hnf. destruct Hd as [[|gz data] Hd]; [done|]. by destruct (Hnf gz data).
  - rewrite make_dirs_lookup. rewrite bool_decide_eq_true_2 by (by left). eauto.
  - intros p Hp. rewrite make_dirs_lookup. by case_bool_decide.
  - intros p Hp. rewrite make_dirs_lookup. by rewrite bool_decide_eq_false_2.
  - intros _. rewrite make_dirs_lookup. by rewrite bool_decide_eq_true_2 by (by left).
Qed.


Lemma when_log (c : bool) l f a (w : world) :
  when c (LOG l f a) w
    = (set_log (fun ls => ls ++ (if c then [LogLine l f a] else [])) w, Ok tt).
Proof.
  destruct c; [done|]. unfold when, ret, set_log. destruct w. simpl.
  by rewrite app_nil_r.
Qed.


(** X22: the requests of any call of [get_stamp].  Whether it returns or
    raises, the call only adds requests, each with the timeout given, and
    each either the query form with its parameters or a result file of
    the SkyView site whose path has the form of the pattern. *)
Theorem get_stamp_requests ra decl survey scaling flip k forcefetch cachedir
    timeout savewcsheader verbose w x rest w' r :
  survey_list w = x :: rest ->
  get_stamp ra decl survey scaling flip k forcefetch cachedir timeout
            savewcsheader verbose w = (w', r) ->
  exists new, sent w' = sent w ++ new /\ Forall (allowed timeout) new.
Proof.
  intros Hsl Hg.
  by destruct (get_stamp_advances _ _ _ _ _ _ _ _ _ _ _ _ _ _ _ _ Hsl Hg)
    as (_ & _ & Hn & _).
Qed.

Section Call.
Context (ra decl : float) (survey scaling : string) (flip : bool)
        (convolvewith : option kernel) (forcefetch : bool) (cachedir : string)
        (timeout : float) (savewcsheader verbose : bool).
Context (w : world) (x : string) (rest : list string).
Context (Hsl : survey_list w = x :: rest).

Let dir := resolve_cachedir cachedir.
Let cache := cachefname cachedir ra decl survey scaling.
Let w2 := with_cachedir dir (set_survey_list (fun _ => survey :: rest) w).

Lemma w2_spec :
  sent w2 = sent w /\ log w2 = log w /\
  (cache ∉ cache_dirs cachedir -> fs w2 !! cache = fs w !! cache).
Proof.
  destruct (with_cachedir_spec dir (set_survey_list (fun _ => survey :: rest) w))
    as (_ & Hs & Hl & _ & _ & Hp & _).
  split_and!; [done..|]. intros Hne. by rewrite Hp.
Qed.





(** The cache has the path. *)
Lemma from_cache_offline :
  cache ∉ cache_dirs cachedir -> is_Some (fs w !! cache) ->
  exists w',
    from_cache ra decl survey scaling flip convolvewith false cachedir timeout
               savewcsheader verbose (survey :: rest) w2
    = (w', (pyfits_open cache w).2 ≫= fun '(hdr, frame) =>
             deliver convolvewith savewcsheader
                     (if flip then flipud frame else frame) hdr) /\
    fs w' = fs w2 /\ sent w' = sent w.
Proof.
  intros Hne Hsome. destruct w2_spec as (Hs & _ & Hc). specialize (Hc Hne).
  unfold from_cache, bind at 1, path_exists. fold cache.
  rewrite Hc, (bool_decide_eq_true_2 _ Hsome). cbn [orb negb].
  unfold bind at 1, ret at 1. cbn [negb].
  unfold bind at 1, pyfits_open. rewrite Hc.
  destruct (fs w !! cache) as [[|gz data]|]; [by eexists|..|by destruct Hsome].
  destruct (fits_open data) as [[hdr frame]|e]; cbn [mbind outcome_bind];
    [|by eexists].
  unfold bind, LOGINFO. rewrite when_log. unfold lift.
  eexists. split; [reflexivity|]. done.
Qed.
End Call.




(** X26: a stamp in the cache is served without any request.  Without
    [forcefetch], when the cache directory is there or can be made, and
    the cache path exists and is neither the cache directory nor a
    directory above it, [get_stamp] sends nothing, creates no file
    besides the cache directory and those above it, and its result is
    what opening the cache path gives. *)
Theorem get_stamp_offline_when_cached ra decl survey scaling flip k cachedir
    timeout savewcsheader verbose w x rest :
  survey_list w = x :: rest ->
  usable w (resolve_cachedir cachedir) ->
  cachefname cachedir ra decl survey scaling ∉ cache_dirs cachedir ->
  is_Some (fs w !! cachefname cachedir ra decl survey scaling) ->
  exists w',
    get_stamp ra decl survey scaling flip k false cachedir timeout
              savewcsheader verbose w
    = (w', (pyfits_open (cachefname cachedir ra decl survey scaling) w).2
             ≫= fun '(hdr, frame) =>
                  deliver k savewcsheader
                          (if flip then flipud frame else frame) hdr) /\
    sent w' = sent w /\
    fs w' = fs (with_cachedir (resolve_cachedir cachedir) w).
Proof.
  intros Hsl Hu Hne Hsome.
  rewrite (get_stamp_from_cache _ _ _ _ _ _ _ _ _ _ _ _ _ _ Hsl Hu).
  destruct (from_cache_offline ra decl survey scaling flip k cachedir timeout
              savewcsheader verbose w rest Hne Hsome) as (w' & -> & Hfs & Hsent).
  exists w'. split_and!; [done..|]. rewrite Hfs.
  unfold with_cachedir. simpl. by case_bool_decide.
Qed.




End SkyviewEffects.

(** ** Runs of [get_stamp] *)

Section SkyviewEffectRuns.
Import Skyview SkyviewDemo.


(** X22, the same run: the query and the two files of the result page. *)
Lemma get_stamp_requests_witness :
  exists new,
    sent fetched_world = sent fresh_world ++ new /\ Forall (allowed "10.0") new.
Proof.
  refine (get_stamp_requests "10.6847" "41.2690" "DSS2 Red" "Linear" true None
           false cachedir "10.0" true false fresh_world "DSS2 Red"
           ["_skip_"; "_skip_"; "_skip_"] fetched_world
           (Ok (Some (FrameHeader [[7; 8]; [5; 6]] "SIMPLE = T")))
           _ _).
  - reflexivity.
  - exact get_stamp_fresh_world.
Defined.

(** X26, a run: the stamp is in the cache. *)
Lemma get_stamp_offline_when_cached_witness :
  exists w',
    get_stamp "10.6847" "41.2690" "DSS2 Red" "Linear" false None false cachedir
              "10.0" true false cached_world
    = (w', Ok (Some (FrameHeader star "SIMPLE = T"))) /\
    sent w' = sent cached_world /\
    fs w' = fs (with_cachedir (resolve_cachedir cachedir) cached_world).
Proof.
  refine (get_stamp_offline_when_cached "10.6847" "41.2690" "DSS2 Red" "Linear"
           false None cachedir "10.0" true false cached_world "DSS2 Red"
           ["_skip_"; "_skip_"; "_skip_"]
           _ _ _ _).
  - reflexivity.
  - left. apply (bool_decide_unpack _). vm_compute. exact I.
  - apply (bool_decide_unpack _). vm_compute. exact I.
  - apply (bool_decide_unpack _). vm_compute. exact I.
Defined.


End SkyviewEffectRuns.

Section SkyviewFaultRuns.
Import Skyview SkyviewFaults.



End SkyviewFaultRuns.

(** ** What the collector gathers, and what becomes of it *)

Section RfclassGathering.
Import Rfclass.
Context `{Extern}.

Lemma note_features_mono d g : forall todo avail,
  g ∈ avail -> g ∈ foldl (note_feature d) avail todo.
Proof.
  induction todo as [|f todo IH]; intros avail Hg; [done|].
  simpl. apply IH. unfold note_feature.
  repeat case_bool_decide; set_solver.
Qed.

Lemma note_features_elem d g : forall todo avail,
  g ∈ todo -> is_Some (d !! g) -> g ∈ foldl (note_feature d) avail todo.
Proof.
  induction todo as [|f todo IH]; intros avail Hg Hd; [set_solver|].
  simpl. apply elem_of_cons in Hg as [->|Hg]; [|by apply IH].
  apply note_features_mono. unfold note_feature.
  repeat case_bool_decide; set_solver.
Qed.

Lemma note_features_sub d g : forall todo avail,
  g ∈ foldl (note_feature d) avail todo ->
  g ∈ avail \/ (g ∈ todo /\ is_Some (d !! g)).
Proof.
  induction todo as [|f todo IH]; intros avail Hg; [by left|].
  simpl in Hg. apply IH in Hg as [Hg|[Hg Hd]].
  2:{ right. split; [by right|done]. }
  unfold note_feature in Hg.
  destruct (bool_decide (f ∈ avail)); [by left|].
  case_bool_decide as Hd; [|by left].
  apply elem_of_app in Hg as [Hg|Hg]; [by left|].
  apply list_elem_of_singleton in Hg as ->. right. split; [by left|done].
Qed.

Lemma note_features_NoDup d : forall todo avail,
  NoDup avail -> NoDup (foldl (note_feature d) avail todo).
Proof.
  induction todo as [|f todo IH]; intros avail Hnd; [done|].
  simpl. apply IH. unfold note_feature.
  repeat case_bool_decide; try done.
  apply NoDup_app. split_and!; [done| |apply NoDup_singleton].
  intros x Hx Hx'. by apply list_elem_of_singleton in Hx' as ->.
Qed.

Lemma available_snoc magcol feats vs v :
  available magcol feats (vs ++ [v])
    = note_record magcol feats (available magcol feats vs) v.
Proof. unfold available. by rewrite foldl_app. Qed.

Lemma available_NoDup magcol feats vs : NoDup (available magcol feats vs).
Proof.
  induction vs as [|v vs IH] using rev_ind; [constructor|].
  rewrite available_snoc. unfold note_record.
  destruct (varf_get v magcol) as [[s|d]|e]; try done.
  by apply note_features_NoDup.
Qed.

Lemma available_sub magcol feats vs f :
  f ∈ available magcol feats vs -> f ∈ feats.
Proof.
  induction vs as [|v vs IH] using rev_ind; [set_solver|].
  rewrite available_snoc. unfold note_record.
  destruct (varf_get v magcol) as [[s|d]|e]; try done.
  intros Hf. apply note_features_sub in Hf as [Hf|[Hf _]]; auto.
Qed.

Lemma column_app magcol f vs vs' :
  column magcol f (vs ++ vs') = column magcol f vs ++ column magcol f vs'.
Proof. unfold column. by rewrite omap_app, fmap_app. Qed.

Lemma column_one magcol f v d :
  varf_get v magcol = Ok (VFeatures d) -> column magcol f [v] = contribution d f.
Proof.
  intros Hd. unfold column, contribution, feature_of. simpl. rewrite Hd.
  by destruct (d !! f).
Qed.

(** A requested feature is available exactly when some record has it. *)
Lemma available_spec magcol feats vs f :
  f ∈ available magcol feats vs <->
  f ∈ feats /\ Exists (fun v => is_Some (feature_of magcol f v)) vs.
Proof.
  induction vs as [|v vs IH] using rev_ind.
  { split; [set_solver|]. intros [_ Hex]. by apply Exists_nil in Hex. }
  rewrite available_snoc, Exists_app, Exists_cons, Exists_nil.
  unfold note_record, feature_of.
  destruct (varf_get v magcol) as [[s|d]|e].
  - rewrite IH. split; [intuition|]. intros [? [?|[[? ?]|[]]]]; done.
  - split.
    + intros Hf. apply note_features_sub in Hf as [Hf|[Hf Hd]].
      * apply IH in Hf. intuition.
      * intuition.
    + intros [Hf [Hex|[Hd|[]]]].
      * apply note_features_mono. apply IH. auto.
      * by apply note_features_elem.
  - rewrite IH. split; [intuition|]. intros [? [?|[[? ?]|[]]]]; done.
Qed.

Lemma column_unavailable magcol feats vs f :
  f ∈ feats -> f ∉ available magcol feats vs -> column magcol f vs = [].
Proof.
  intros Hf Hna. rewrite available_spec in Hna.
  unfold column. induction vs as [|v vs IH]; [done|].
  simpl. destruct (feature_of magcol f v) as [x|] eqn:Hx.
  - exfalso. apply Hna. split; [done|]. apply Exists_cons. left. by rewrite Hx.
  - apply IH. intros [_ Hex]. apply Hna. split; [done|]. apply Exists_cons. by right.
Qed.

Lemma collect_feature_absent (d : gmap string scalar) (fd : gmap string cell) f c :
  fd !! "availablefeatures" = Some c -> d !! f = None ->
  collect_feature (VFeatures d) fd f = Ok fd.
Proof.
  intros Hfd Hx. unfold collect_feature, contains. rewrite Hfd. simpl.
  rewrite (bool_decide_eq_false_2 (is_Some (d !! f))).
  2:{ rewrite Hx. by intros [? ?]. }
  by rewrite andb_false_r.
Qed.

(** The loop over the requested features, for one record. *)
Lemma feature_loop (d : gmap string scalar) (base : string -> list atom) :
  forall todo done avail (fd : gmap string cell),
  NoDup (done ++ todo) ->
  "availablefeatures" ∉ todo ->
  "availablefeatures" ∉ avail ->
  fd !! "availablefeatures" = Some (CList (AStr <$> avail)) ->
  (forall f, f ∈ avail ->
     fd !! f = Some (CList (base f ++
                 (if bool_decide (f ∈ done) then contribution d f else [])))) ->
  (forall f, f ∈ todo -> f ∉ avail -> base f = []) ->
  exists fd',
    fold_outcome (collect_feature (VFeatures d)) todo fd = Ok fd' /\
    fd' !! "availablefeatures"
      = Some (CList (AStr <$> foldl (note_feature d) avail todo)) /\
    (forall f, f ∈ foldl (note_feature d) avail todo ->
       fd' !! f = Some (CList (base f ++
                   (if bool_decide (f ∈ done ++ todo) then contribution d f else [])))) /\
    (forall k, k ∉ todo -> k <> "availablefeatures" -> fd' !! k = fd !! k).
Proof.
  induction todo as [|f todo IH]; intros done avail fd Hnd Hres Hres' Hav Hcols Hbase.
  { exists fd. rewrite app_nil_r. by split_and!. }
  assert (Hnd' : NoDup ((done ++ [f]) ++ todo)) by (by rewrite <- app_assoc).
  assert ((f ∉ done) /\ (f ∉ todo)) as (Hfd & Hft).
  { apply NoDup_app in Hnd as (_ & Hdis & Hnd2).
    apply NoDup_cons in Hnd2 as [? _]. split; [|done].
    intros Hin. apply (Hdis f Hin). by left. }
  assert (Hne : f <> "availablefeatures") by set_solver.
  assert (Hmem : forall g, g <> f ->
            bool_decide (g ∈ done ++ [f]) = bool_decide (g ∈ done)).
  { intros g Hg. apply bool_decide_ext. rewrite elem_of_app.
    split; [intros [?|Hin]; [done|]|by left].
    by apply list_elem_of_singleton in Hin. }
  cbn [foldl fold_outcome].
  destruct (d !! f) as [x|] eqn:Hx.
  - destruct (decide (f ∈ avail)) as [Hin|Hnin].
    + (* known feature: one more value *)
      pose proof (Hcols f Hin) as Hl.
      rewrite (bool_decide_eq_false_2 _ Hfd), app_nil_r in Hl.
      rewrite (collect_feature_known d fd f avail (base f) x) by done.
      cbn [mbind outcome_bind].
      replace (note_feature d avail f) with avail.
      2:{ unfold note_feature. by rewrite (bool_decide_eq_true_2 _ Hin). }
      destruct (IH (done ++ [f]) avail (<[f := CList (base f ++ [ANum x])]> fd))
        as (fd' & Hfold & Hav' & Hcols' & Hrest); try done.
      { set_solver. }
      { by rewrite lookup_insert_ne. }
      { intros g Hg. destruct (decide (g = f)) as [->|Hgf].
        - rewrite lookup_insert_eq.
          rewrite (bool_decide_eq_true_2 (f ∈ done ++ [f])) by set_solver.
          unfold contribution. by rewrite Hx.
        - rewrite lookup_insert_ne by done. rewrite Hmem by done. by apply Hcols. }
      { intros g Hg. apply Hbase. set_solver. }
      exists fd'. split_and!; try done.
      * intros g Hg. rewrite (Hcols' g Hg). by rewrite <- app_assoc.
      * intros k Hk Hk'. rewrite Hrest by set_solver.
        rewrite lookup_insert_ne by set_solver. done.
    + (* new feature: it is registered, with one value *)
      rewrite (collect_feature_new d fd f avail x) by done.
      cbn [mbind outcome_bind].
      replace (note_feature d avail f) with (avail ++ [f]).
      2:{ unfold note_feature. rewrite (bool_decide_eq_false_2 _ Hnin).
          by rewrite bool_decide_eq_true_2 by (by rewrite Hx). }
      destruct (IH (done ++ [f]) (avail ++ [f])
                  (<[f := CList [ANum x]]>
                     (<["availablefeatures" := CList (AStr <$> avail ++ [f])]> fd)))
        as (fd' & Hfold & Hav' & Hcols' & Hrest); try done.
      { set_solver. }
      { intros Hin. apply elem_of_app in Hin as [Hin|Hin]; [done|].
        by apply list_elem_of_singleton in Hin. }
      { rewrite lookup_insert_ne by done. by rewrite lookup_insert_eq. }
      { intros g Hg. destruct (decide (g = f)) as [->|Hgf].
        - rewrite lookup_insert_eq.
          rewrite (bool_decide_eq_true_2 (f ∈ done ++ [f]))
            by (apply elem_of_app; right; by left).
          rewrite (Hbase f); [|by left|done]. unfold contribution. by rewrite Hx.
        - assert (Hga : g ∈ avail).
          { apply elem_of_app in Hg as [?|Hg]; [done|].
            by apply list_elem_of_singleton in Hg. }
          rewrite lookup_insert_ne by done.
          rewrite lookup_insert_ne by (intros <-; done).
          rewrite Hmem by done. by apply Hcols. }
      { intros g Hg Hga. apply Hbase; set_solver. }
      exists fd'. split_and!; try done.
      * intros g Hg. rewrite (Hcols' g Hg). by rewrite <- app_assoc.
      * intros k Hk Hk'. rewrite Hrest by set_solver.
        rewrite !lookup_insert_ne by set_solver. done.
  - (* the record does not have the feature *)
    rewrite (collect_feature_absent d fd f _ Hav Hx).
    cbn [mbind outcome_bind].
    replace (note_feature d avail f) with avail.
    2:{ unfold note_feature. case_bool_decide; [done|].
        rewrite bool_decide_eq_false_2; [done|]. rewrite Hx. by intros [? ?]. }
    destruct (IH (done ++ [f]) avail fd) as (fd' & Hfold & Hav' & Hcols' & Hrest);
      try done.
    { set_solver. }
    { intros g Hg. destruct (decide (g = f)) as [->|Hgf].
      - rewrite (Hcols f Hg). rewrite (bool_decide_eq_false_2 _ Hfd).
        unfold contribution. rewrite Hx. simpl. by case_bool_decide.
      - rewrite Hmem by done. by apply Hcols. }
    { intros g Hg. apply Hbase. set_solver. }
    exists fd'. split_and!; try done.
    * intros g Hg. rewrite (Hcols' g Hg). by rewrite <- app_assoc.
    * intros k Hk Hk'. apply Hrest; set_solver.
Qed.

(** *** The available features, in closed form *)

Lemma filter_ext_elem {A} (P Q : A -> Prop) `{!forall x, Decision (P x)}
    `{!forall x, Decision (Q x)} (l : list A) :
  (forall x, x ∈ l -> P x <-> Q x) -> filter P l = filter Q l.
Proof.
  induction l as [|x l IH]; intros Hext; [done|].
  rewrite !filter_cons.
  rewrite IH by (intros y Hy; apply Hext; by right).
  destruct (decide (P x)) as [HP|HP], (decide (Q x)) as [HQ|HQ]; try done.
  - destruct HQ. apply Hext; [by left|done].
  - destruct HP. apply Hext; [by left|done].
Qed.

Lemma filter_none {A} (P : A -> Prop) `{!forall x, Decision (P x)} (l : list A) :
  (forall x, x ∈ l -> ~ P x) -> filter P l = [].
Proof.
  induction l as [|x l IH]; intros Hno; [done|].
  rewrite filter_cons_False by (apply Hno; by left).
  apply IH. intros y Hy. apply Hno. by right.
Qed.

Lemma filter_all {A} (P : A -> Prop) `{!forall x, Decision (P x)} (l : list A) :
  (forall x, x ∈ l -> P x) -> filter P l = l.
Proof.
  induction l as [|x l IH]; intros Hall; [done|].
  rewrite filter_cons_True by (apply Hall; by left).
  f_equal. apply IH. intros y Hy. apply Hall. by right.
Qed.

(** The features one record adds. *)
Lemma note_features_filter d : forall todo avail,
  NoDup todo ->
  foldl (note_feature d) avail todo
    = avail ++ filter (fun f => (f ∉ avail) /\ is_Some (d !! f)) todo.
Proof.
  induction todo as [|f todo IH]; intros avail Hnd.
  { by rewrite app_nil_r. }
  apply NoDup_cons in Hnd as [Hf Hnd]. simpl. rewrite IH by done.
  unfold note_feature. rewrite filter_cons.
  destruct (decide (f ∈ avail)) as [Hin|Hnin].
  - rewrite (bool_decide_eq_true_2 _ Hin).
    rewrite decide_False by (intros [? _]; done). done.
  - rewrite (bool_decide_eq_false_2 _ Hnin).
    destruct (decide (is_Some (d !! f))) as [Hd|Hd].
    + rewrite (bool_decide_eq_true_2 _ Hd), decide_True by done.
      rewrite <- app_assoc. simpl. do 2 f_equal.
      apply filter_ext_elem. intros g Hg.
      rewrite elem_of_app. split.
      * intros [Hn Hs]. split; [|done]. intros Hga. apply Hn. by left.
      * intros [Hn Hs]. split; [|done]. intros [Hga|Hgf]; [done|].
        apply list_elem_of_singleton in Hgf as ->. done.
    + rewrite (bool_decide_eq_false_2 _ Hd).
      rewrite decide_False by (intros [_ ?]; done). done.
Qed.

Lemma note_records_extend magcol feats : NoDup feats -> forall vs pre,
  exists more,
    foldl (note_record magcol feats) pre vs = pre ++ more /\
    (forall f, f ∈ more -> f ∈ feats /\ f ∉ pre) /\ NoDup more.
Proof.
  intros Hnd. induction vs as [|v vs IH]; intros pre.
  { exists []. rewrite app_nil_r. split_and!; [done| |constructor].
    intros f Hf. by apply elem_of_nil in Hf. }
  simpl. unfold note_record at 2.
  destruct (varf_get v magcol) as [[s|d]|e]; try apply IH.
  rewrite note_features_filter by done.
  set (new := filter (fun f => (f ∉ pre) /\ is_Some (d !! f)) feats).
  destruct (IH (pre ++ new)) as (more & -> & Hmore & Hndm).
  exists (new ++ more). rewrite <- app_assoc. split_and!; [done| |].
  - intros f Hf. apply elem_of_app in Hf as [Hf|Hf].
    + apply list_elem_of_filter in Hf as [[? _] ?]. done.
    + destruct (Hmore f Hf) as [? Hn]. split; [done|].
      intros Hp. apply Hn. apply elem_of_app. by left.
  - apply NoDup_app. split_and!; [|..|done].
    + by apply NoDup_filter.
    + intros f Hf Hf'. destruct (Hmore f Hf') as [_ Hn].
      apply Hn. apply elem_of_app. by right.
Qed.

(** Asking for the features that were found finds them again, in the
    same order. *)
Lemma available_again magcol feats : NoDup feats -> forall vs rest,
  available magcol (available magcol feats (vs ++ rest)) vs
    = available magcol feats vs.
Proof.
  intros Hnd. induction vs as [|v vs IH] using rev_ind; intros rest; [done|].
  rewrite !available_snoc. rewrite <- app_assoc. rewrite IH.
  unfold note_record. destruct (varf_get v magcol) as [[s|d]|e] eqn:Hd; try done.
  set (pre := available magcol feats vs).
  set (new := filter (fun f => (f ∉ pre) /\ is_Some (d !! f)) feats).
  assert (exists later,
            available magcol feats (vs ++ [v] ++ rest) = pre ++ new ++ later /\
            (forall f, f ∈ later -> f ∈ feats /\ f ∉ pre ++ new))
    as (later & Heq & Hlater).
  { unfold available. rewrite foldl_app. fold (available magcol feats vs). fold pre.
    simpl. unfold note_record at 2. rewrite Hd.
    rewrite note_features_filter by done. fold new.
    destruct (note_records_extend magcol feats Hnd rest (pre ++ new))
      as (more & -> & Hmore & _).
    exists more. by rewrite <- app_assoc. }
  pose proof (available_NoDup magcol feats (vs ++ [v] ++ rest)) as HndA.
  rewrite Heq in *.
  rewrite !note_features_filter by done. fold new. f_equal.
  rewrite !filter_app.
  rewrite (filter_none _ pre) by (intros f Hf [Hn _]; done).
  rewrite (filter_all _ new).
  2:{ intros f Hf. by apply list_elem_of_filter in Hf as [? _]. }
  rewrite (filter_none _ later); [by rewrite app_nil_r|].
  intros f Hf [Hn Hs]. destruct (Hlater f Hf) as [Hff Hnew].
  apply Hnew. apply elem_of_app. right. by apply list_elem_of_filter.
Qed.

Lemma available_fixed magcol feats vs :
  NoDup feats ->
  available magcol (available magcol feats vs) vs = available magcol feats vs.
Proof.
  intros Hnd. pose proof (available_again magcol feats Hnd vs []) as Hfix.
  by rewrite app_nil_r in Hfix.
Qed.


Section Records.
Context (magcol : string) (featurestouse : option (list string)).
Context (Hnodup : NoDup (featurestoget featurestouse))
        (Hids : "objectids" ∉ featurestoget featurestouse)
        (Havail : "availablefeatures" ∉ featurestoget featurestouse).

Lemma gathered_initial :
  gathered magcol (featurestoget featurestouse) [] (initial_feature_dict magcol).
Proof.
  unfold gathered, initial_feature_dict. split_and!; try done.
  - intros f Hf. by apply elem_of_nil in Hf.
  - intros k [c Hk].
    destruct (decide (k = "objectids")) as [->|?]; [left; set_solver|].
    rewrite lookup_insert_ne in Hk by done.
    destruct (decide (k = "magcol")) as [->|?]; [left; set_solver|].
    rewrite lookup_insert_ne in Hk by done.
    destruct (decide (k = "availablefeatures")) as [->|?]; [left; set_solver|].
    rewrite lookup_insert_ne in Hk by done. done.
Qed.

Lemma gather_record vs (fd : gmap string cell) v :
  gathered magcol (featurestoget featurestouse) vs fd ->
  has_magcol magcol v ->
  exists fd',
    collect_varf magcol featurestouse fd v = Ok fd' /\
    gathered magcol (featurestoget featurestouse) (vs ++ [v]) fd'.
Proof.
  intros (Ho & Hav & Hcols & Hdom & Hmag) (d & Hd). unfold collect_varf.
  destruct (note_objectid fd (seen_ids vs) v) as (fd1 & -> & Ho1 & Hk); [done|].
  rewrite Hd. cbn [mbind outcome_bind].
  destruct (feature_loop d (fun f => column magcol f vs)
              (featurestoget featurestouse) []
              (available magcol (featurestoget featurestouse) vs) fd1)
    as (fd' & Hfold & Hav' & Hcols' & Hrest); try done.
  { intros Hin. by apply available_sub in Hin. }
  { by rewrite Hk. }
  { intros f Hf. rewrite Hk.
    - rewrite (Hcols f Hf). by rewrite app_nil_r.
    - intros ->. by apply available_sub in Hf. }
  { intros f Hf Hna. by eapply column_unavailable. }
  exists fd'. split; [exact Hfold|].
  assert (Hsnoc : available magcol (featurestoget featurestouse) (vs ++ [v])
            = foldl (note_feature d)
                (available magcol (featurestoget featurestouse) vs)
                (featurestoget featurestouse)).
  { rewrite available_snoc. unfold note_record. by rewrite Hd. }
  split_and!.
  - rewrite Hrest by done. by rewrite seen_ids_snoc.
  - by rewrite Hsnoc.
  - intros f Hf. rewrite Hsnoc in Hf. rewrite (Hcols' f Hf).
    rewrite column_app, (column_one magcol f v d Hd).
    rewrite bool_decide_eq_true_2; [done|].
    simpl. apply available_sub with magcol (vs ++ [v]). by rewrite Hsnoc.
  - intros k Hsome.
    destruct (decide (k ∈ featurestoget featurestouse)) as [?|Hnf]; [by right|].
    destruct (decide (k = "availablefeatures")) as [->|?]; [left; set_solver|].
    rewrite Hrest in Hsome by done.
    destruct (decide (k = "objectids")) as [->|?]; [left; set_solver|].
    rewrite Hk in Hsome by done. by apply Hdom.
  - intros Hnf. rewrite Hrest by done. rewrite Hk by done. by apply Hmag.
Qed.

Lemma gather_records : forall rest vs (fd : gmap string cell),
  gathered magcol (featurestoget featurestouse) vs fd ->
  Forall (has_magcol magcol) rest ->
  exists fd',
    fold_outcome (collect_varf magcol featurestouse) rest fd = Ok fd' /\
    gathered magcol (featurestoget featurestouse) (vs ++ rest) fd'.
Proof.
  induction rest as [|v rest IH]; intros vs fd Hc Hall.
  { exists fd. by rewrite app_nil_r. }
  apply Forall_cons in Hall as [Hv Hall].
  destruct (gather_record vs fd v Hc Hv) as (fd1 & Hstep & Hc1).
  destruct (IH (vs ++ [v]) fd1 Hc1 Hall) as (fd' & Hfold & Hc').
  exists fd'. simpl. rewrite Hstep. simpl. split; [done|].
  by rewrite <- app_assoc in Hc'.
Qed.
End Records.

Lemma columns_no_strings magcol feats vs :
  existsb (existsb is_str) (columns magcol feats vs) = false.
Proof. apply no_strings. Qed.

(** The arrays and the columns [stack_features] makes of what was
    gathered. *)
Lemma stack_gathered_columns magcol feats vs (fd : gmap string cell) :
  gathered magcol feats vs fd ->
  "objectids" ∉ feats -> "availablefeatures" ∉ feats ->
  exists fd2,
    stack_features fd
      = (column_stack (columns magcol feats vs) ≫= fun m => Ok (fd2, m)) /\
    fd2 !! "objectids" = Some (CArray (AStr <$> seen_ids vs)) /\
    fd2 !! "availablefeatures"
      = Some (CList (AStr <$> available magcol feats vs)) /\
    (forall k, is_Some (fd2 !! k) ->
       k ∈ ["objectids"; "magcol"; "availablefeatures"] \/ k ∈ feats) /\
    ("magcol" ∉ feats -> fd2 !! "magcol" = Some (CStr magcol)).
Proof.
  intros (Ho & Hav & Hcols & Hdom & Hmag) Hids Havail.
  assert (Hnr : forall k, k ∈ available magcol feats vs ->
            k <> "objectids" /\ k <> "availablefeatures").
  { intros k Hk. apply available_sub in Hk. split; intros ->; done. }
  destruct (to_arrays (available magcol feats vs) fd (available_NoDup _ _ _))
    as (fd1 & Hfold & Hvals & Hrest).
  { intros f Hf. eexists. by apply Hcols. }
  set (fd2 := <["objectids" := CArray (AStr <$> seen_ids vs)]> fd1).
  assert (Ho1 : fd1 !! "objectids" = Some (CList (AStr <$> seen_ids vs))).
  { rewrite Hrest; [done|]. intros Hin. by destruct (Hnr _ Hin). }
  assert (Hav1 : fd1 !! "availablefeatures"
            = Some (CList (AStr <$> available magcol feats vs))).
  { rewrite Hrest; [done|]. intros Hin. by destruct (Hnr _ Hin). }
  exists fd2. split_and!.
  - unfold stack_features, dict_get. rewrite Hav. simpl. rewrite Hfold. simpl.
    rewrite Ho1. simpl. rewrite coerce_strs. fold fd2.
    assert (Hav2 : fd2 !! "availablefeatures"
              = Some (CList (AStr <$> available magcol feats vs))).
    { unfold fd2. by rewrite lookup_insert_ne. }
    rewrite Hav2. simpl.
    rewrite (columns_lookup (available magcol feats vs) fd2
               (fun f => column magcol f vs)).
    2:{ intros f Hf. unfold fd2. destruct (Hnr f Hf).
        rewrite lookup_insert_ne by done.
        rewrite (Hvals f _ Hf (Hcols f Hf)). unfold column. by rewrite coerce_nums. }
    simpl. fold (columns magcol feats vs).
    by destruct (column_stack (columns magcol feats vs)).
  - unfold fd2. by rewrite lookup_insert_eq.
  - unfold fd2. by rewrite lookup_insert_ne.
  - intros k Hk. apply Hdom.
    destruct (decide (k = "objectids")) as [->|Hne]; [by rewrite Ho|].
    unfold fd2 in Hk. rewrite lookup_insert_ne in Hk by done.
    destruct (decide (k ∈ available magcol feats vs)) as [Hin|Hnin].
    + rewrite (Hcols k Hin). eauto.
    + by rewrite <- Hrest.
  - intros Hnf. unfold fd2. rewrite lookup_insert_ne by done.
    rewrite Hrest; [by apply Hmag|].
    intros Hin. by apply available_sub in Hin.
Qed.

(** [np.column_stack] on the columns gathered: what it returns when it
    returns. *)
Lemma column_stack_Ok magcol feats vs m :
  column_stack (columns magcol feats vs) = Ok m ->
  m = stacked_columns magcol feats vs /\
  available magcol feats vs <> [] /\
  forall f, f ∈ available magcol feats vs -> occurrences magcol f vs = nrows m.
Proof.
  unfold column_stack, stacked_columns, columns, occurrences.
  destruct (available magcol feats vs) as [|f avail] eqn:Hav; [done|].
  rewrite fmap_cons. cbn [head default].
  destruct (forallb _ _) eqn:Hall; [|done].
  pose proof (no_strings magcol vs (f :: avail)) as Hns.
  rewrite fmap_cons in Hns. unfold coerce_all. rewrite Hns. simpl.
  intros Hm. injection Hm as <-. split_and!; [done..|].
  simpl. intros g Hg. apply elem_of_cons in Hg as [->|Hg]; [done|].
  rewrite forallb_forall in Hall.
  apply Nat.eqb_eq, Hall, list_elem_of_In, list_elem_of_fmap. eauto.
Qed.

Lemma column_stack_ragged magcol feats vs f g :
  f ∈ available magcol feats vs -> g ∈ available magcol feats vs ->
  occurrences magcol f vs <> occurrences magcol g vs ->
  column_stack (columns magcol feats vs)
    = Raise (ValueError "all the input array dimensions except for the concatenation axis must match exactly").
Proof.
  intros Hf Hg Hne.
  destruct (column_stack (columns magcol feats vs)) as [m|e] eqn:Hm.
  { apply column_stack_Ok in Hm as (_ & _ & Hall).
    rewrite (Hall f Hf), (Hall g Hg) in Hne. done. }
  revert Hm. unfold column_stack, columns.
  destruct (available magcol feats vs) as [|h avail]; [by apply elem_of_nil in Hf|].
  rewrite fmap_cons. by destruct (forallb _ _); intros; simplify_eq.
Qed.

Lemma column_stack_none magcol feats vs :
  available magcol feats vs = [] ->
  column_stack (columns magcol feats vs)
    = Raise (ValueError "need at least one array to concatenate").
Proof. intros Hav. unfold columns. by rewrite Hav. Qed.

(** *** Reading the pickles *)

Lemma collect_pickles_world magcol featurestouse w : forall pklist fd,
  (collect_pickles magcol featurestouse pklist fd w).1 = w.
Proof.
  induction pklist as [|pkl pklist IH]; intros fd; [done|].
  simpl. unfold bind at 1, pickle_load.
  destruct (fs w !! pkl) as [[| |p]|]; try done.
  unfold bind at 1, lift at 1. destruct (as_varf p) as [v|e]; [|done].
  unfold bind at 1, lift at 1.
  destruct (collect_varf magcol featurestouse fd v) as [fd'|e]; [|done].
  apply IH.
Qed.

Lemma collect_pickles_Ok magcol featurestouse w : forall pklist fd w' fd',
  collect_pickles magcol featurestouse pklist fd w = (w', Ok fd') ->
  exists records,
    Forall2 (fun pkl v => fs w !! pkl = Some (FPickle (PDict (DictVarf v))))
            pklist records /\
    fold_outcome (collect_varf magcol featurestouse) records fd = Ok fd'.
Proof.
  induction pklist as [|pkl pklist IH]; intros fd w' fd' Hc.
  { simpl in Hc. unfold ret in Hc. simplify_eq. exists []. by split; [constructor|]. }
  simpl in Hc. apply bind_Ok in Hc as (w1 & p & Hload & Hc).
  unfold pickle_load in Hload.
  destruct (fs w !! pkl) as [[| |p']|] eqn:Hpkl; simplify_eq.
  apply bind_Ok in Hc as (w2 & v & Hv & Hc). apply lift_Ok in Hv as [-> Hv].
  apply bind_Ok in Hc as (w3 & fd1 & Hstep & Hc). apply lift_Ok in Hstep as [-> Hstep].
  apply IH in Hc as (records & Hload & Hfold).
  assert (p = PDict (DictVarf v)) as ->.
  { destruct p as [[v'| | |]|]; simpl in Hv; try done; try by simplify_eq.
    all: by repeat case_match. }
  exists (v :: records). split; [by constructor|].
  simpl. by rewrite Hstep.
Qed.

Lemma collect_varfs_Ok_magcol magcol featurestouse : forall records (fd fd' : gmap string cell),
  magcol <> "objectid" ->
  fold_outcome (collect_varf magcol featurestouse) records fd = Ok fd' ->
  Forall (has_magcol magcol) records.
Proof.
  induction records as [|v records IH]; intros fd fd' Hm Hfold; [constructor|].
  simpl in Hfold. apply obind_Ok in Hfold as (fd1 & Hstep & Hfold).
  constructor; [|by eapply IH].
  unfold collect_varf in Hstep.
  apply obind_Ok in Hstep as (seen & _ & Hstep).
  apply obind_Ok in Hstep as (fd2 & _ & Hstep).
  apply obind_Ok in Hstep as (tf & Htf & _).
  unfold has_magcol. revert Htf. unfold varf_get.
  rewrite bool_decide_eq_false_2 by done.
  destruct (magcols v !! magcol); [eauto|done].
Qed.

Lemma occurrences_available magcol feats vs f :
  f ∈ feats -> occurrences magcol f vs <> 0%nat -> f ∈ available magcol feats vs.
Proof.
  intros Hf Hc. destruct (decide (f ∈ available magcol feats vs)) as [|Hn]; [done|].
  unfold occurrences in Hc. by rewrite (column_unavailable magcol feats vs f Hf Hn) in Hc.
Qed.

Lemma row_at_full (n i : nat) : forall (cols : list (list atom)),
  Forall (fun c => length c = n) cols -> (i < n)%nat ->
  forall k, row_at cols i !! k = cols !! k ≫= fun c => c !! i.
Proof.
  unfold row_at. induction cols as [|c cols IH]; intros Hall Hi k; [done|].
  apply Forall_cons in Hall as [Hc Hall]. simpl.
  destruct (lookup_lt_is_Some_2 c i) as [a Ha]; [lia|]. rewrite Ha.
  destruct k as [|k]; simpl; [by rewrite Ha|by apply IH].
Qed.

(** *** The identifiers noted *)

Lemma seen_ids_elem vs id : id ∈ seen_ids vs <-> id ∈ objectid <$> vs.
Proof.
  induction vs as [|v vs IH] using rev_ind; [done|].
  rewrite seen_ids_snoc, fmap_app, elem_of_app. simpl.
  unfold note_id. case_bool_decide as Hin.
  - rewrite IH. split; [by left|]. intros [?|Hv]; [done|].
    apply list_elem_of_singleton in Hv as ->. by apply IH.
  - rewrite elem_of_app, IH. done.
Qed.

Lemma seen_ids_nodup vs : NoDup (seen_ids vs).
Proof.
  induction vs as [|v vs IH] using rev_ind; [constructor|].
  rewrite seen_ids_snoc. unfold note_id. case_bool_decide as Hin; [done|].
  apply NoDup_app. split_and!; [done| |apply NoDup_singleton].
  intros x Hx Hx'. apply list_elem_of_singleton in Hx' as ->. done.
Qed.

Lemma seen_ids_length vs : (length (seen_ids vs) <= length vs)%nat.
Proof.
  induction vs as [|v vs IH] using rev_ind; [done|].
  rewrite seen_ids_snoc, length_app. simpl. unfold note_id.
  case_bool_decide; rewrite ?length_app; simpl; lia.
Qed.

Lemma seen_ids_repeated vs :
  ~ NoDup (objectid <$> vs) -> (length (seen_ids vs) < length vs)%nat.
Proof.
  induction vs as [|v vs IH] using rev_ind.
  { intros Hn. destruct Hn. constructor. }
  rewrite fmap_app, seen_ids_snoc, length_app. simpl. intros Hn.
  unfold note_id. case_bool_decide as Hin.
  - pose proof (seen_ids_length vs). lia.
  - rewrite length_app. simpl.
    destruct (decide (NoDup (objectid <$> vs))) as [Hnd|Hnd].
    + destruct Hn. apply NoDup_app. split_and!; [done| |apply NoDup_singleton].
      intros x Hx Hx'. apply list_elem_of_singleton in Hx' as ->.
      by apply seen_ids_elem in Hx.
    + specialize (IH Hnd). lia.
Qed.

(** *** [collect_features] up to the stacking *)

Section Call.
Context (featuresdir magcol outfile pklglob : string)
        (featurestouse : option (list string)) (maxobjects : option Z)
        (labeldict : option (gmap string pylabel)) (labeltype : string).

Lemma collect_features_unfold w :
  collect_features featuresdir magcol outfile pklglob featurestouse maxobjects
                   labeldict labeltype w
  = (fd <- collect_pickles magcol featurestouse
             (truncate_pklist maxobjects (glob_glob (paths w) (path_join featuresdir pklglob)))
             (initial_feature_dict magcol) ;;
     stacked <- lift (stack_features fd) ;;
     finish outfile pklglob featurestouse maxobjects labeldict labeltype stacked.1 stacked.2) (announced magcol w).
Proof.
  unfold collect_features, finish, bind at 1, glob.
  unfold bind at 1, LOGINFO, LOG, modify. fold (announced magcol w).
  unfold bind. destruct (collect_pickles _ _ _ _ _) as [w1 [fd|e]]; [|done].
  unfold lift. by destruct (stack_features fd) as [[fd2 m]|e].
Qed.

Context (Hnodup : NoDup (featurestoget featurestouse))
        (Hids : "objectids" ∉ featurestoget featurestouse)
        (Havail : "availablefeatures" ∉ featurestoget featurestouse).

(** For records that have the magnitude column, the call comes down to
    the stacking of the columns gathered and to what follows it. *)
Lemma collect_features_gathered w records :
  Forall2 (holds w)
          (truncate_pklist maxobjects (glob_glob (paths w) (path_join featuresdir pklglob)))
          records ->
  Forall (has_magcol magcol) records ->
  exists fd2,
    fd2 !! "objectids" = Some (CArray (AStr <$> seen_ids records)) /\
    fd2 !! "availablefeatures"
      = Some (CList (AStr <$> available magcol (featurestoget featurestouse) records)) /\
    (forall k, is_Some (fd2 !! k) ->
       k ∈ ["objectids"; "magcol"; "availablefeatures"] \/
       k ∈ featurestoget featurestouse) /\
    ("magcol" ∉ featurestoget featurestouse ->
     fd2 !! "magcol" = Some (CStr magcol)) /\
    collect_features featuresdir magcol outfile pklglob featurestouse maxobjects
                     labeldict labeltype w
    = match column_stack (columns magcol (featurestoget featurestouse) records) with
      | Ok m => finish outfile pklglob featurestouse maxobjects labeldict labeltype fd2 m (announced magcol w)
      | Raise e => (announced magcol w, Raise e)
      end.
Proof.
  intros Hload Hall.
  destruct (gather_records magcol featurestouse Hnodup Hids Havail records []
              (initial_feature_dict magcol))
    as (fd & Hfold & Hg); [by apply gathered_initial|done|].
  simpl in Hg.
  destruct (stack_gathered_columns magcol _ records fd Hg Hids Havail)
    as (fd2 & Hst & Ho & Hav & Hdom & Hmag).
  exists fd2. split_and!; try done.
  rewrite collect_features_unfold. unfold bind at 1.
  rewrite (collect_pickles_records _ _ _ _ records) by exact Hload.
  rewrite Hfold. unfold bind at 1, lift at 1. rewrite Hst.
  by destruct (column_stack _).
Qed.

(** The same, read from a call that returned. *)
Lemma collect_features_Ok w w' fd :
  magcol <> "objectid" ->
  collect_features featuresdir magcol outfile pklglob featurestouse maxobjects
                   labeldict labeltype w = (w', Ok fd) ->
  exists records fd2 m,
    Forall2 (holds w)
            (truncate_pklist maxobjects (glob_glob (paths w) (path_join featuresdir pklglob)))
            records /\
    Forall (has_magcol magcol) records /\
    column_stack (columns magcol (featurestoget featurestouse) records) = Ok m /\
    fd2 !! "objectids" = Some (CArray (AStr <$> seen_ids records)) /\
    fd2 !! "availablefeatures"
      = Some (CList (AStr <$> available magcol (featurestoget featurestouse) records)) /\
    (forall k, is_Some (fd2 !! k) ->
       k ∈ ["objectids"; "magcol"; "availablefeatures"] \/
       k ∈ featurestoget featurestouse) /\
    ("magcol" ∉ featurestoget featurestouse ->
     fd2 !! "magcol" = Some (CStr magcol)) /\
    finish outfile pklglob featurestouse maxobjects labeldict labeltype fd2 m (announced magcol w) = (w', Ok fd).
Proof.
  intros Hm Hc. pose proof Hc as Hc'. rewrite collect_features_unfold in Hc'.
  apply bind_Ok in Hc' as (w1 & fd1 & Hpk & _).
  apply collect_pickles_Ok in Hpk as (records & Hload & Hfold).
  assert (Hload' : Forall2 (holds w)
            (truncate_pklist maxobjects (glob_glob (paths w) (path_join featuresdir pklglob)))
            records) by exact Hload.
  pose proof (collect_varfs_Ok_magcol _ _ _ _ _ Hm Hfold) as Hall.
  destruct (collect_features_gathered w records Hload' Hall)
    as (fd2 & Ho & Hav & Hdom & Hmag & Heq).
  rewrite Heq in Hc.
  destruct (column_stack _) as [m|e] eqn:Hst; [|done].
  exists records, fd2, m. by split_and!.
Qed.

Lemma finish_Ok fd2 m w1 w' fd :
  finish outfile pklglob featurestouse maxobjects labeldict labeltype fd2 m w1 = (w', Ok fd) ->
  fd !! "features_array" = Some (DMatrix m) /\
  fd !! "kwargs" = Some (DKwargs (Kwargs pklglob featurestouse maxobjects labeltype)) /\
  (forall k, k <> "features_array" -> k <> "kwargs" -> k <> "labels_array" ->
     fd !! k = DCell <$> fd2 !! k) /\
  match labeldict with
  | Some ld => exists ids labels,
      fd2 !! "objectids" = Some ids /\
      make_labels ld labeltype ids = Ok labels /\
      fd !! "labels_array" = Some (DLabels labels)
  | None => fd !! "labels_array" = DCell <$> fd2 !! "labels_array"
  end /\
  fs w' = <[outfile := FPickle (PDict (DictFeatures fd))]> (fs w1) /\
  log w' = log w1.
Proof.
  unfold finish. intros Hf.
  apply bind_Ok in Hf as (w2 & result & Hlab & Hf).
  apply bind_Ok in Hf as (w3 & [] & Hdump & Hf).
  unfold ret in Hf. injection Hf as <- <-.
  assert (Hw : fs w3 = <[outfile := FPickle (PDict (DictFeatures
             (<["kwargs" := DKwargs (Kwargs pklglob featurestouse maxobjects labeltype)]> result)))]> (fs w2)
           /\ log w3 = log w2).
  { revert Hdump. unfold pickle_dump. intros Hd.
    repeat case_match; simplify_eq; done. }
  destruct Hw as [Hfs Hlog].
  destruct labeldict as [ld|].
  - apply bind_Ok in Hlab as (w4 & ids & Hget & Hlab).
    apply lift_Ok in Hget as [-> Hget].
    apply bind_Ok in Hlab as (w5 & labels & Hmk & Hlab).
    apply lift_Ok in Hmk as [-> Hmk]. unfold ret in Hlab. injection Hlab as <- <-.
    unfold dict_get in Hget. destruct (fd2 !! "objectids") as [c|] eqn:Hids'; simplify_eq.
    split_and!; try done.
    + rewrite lookup_insert_ne by done. rewrite lookup_insert_ne by done.
      by rewrite lookup_insert_eq.
    + by rewrite lookup_insert_eq.
    + intros k ? ? ?. rewrite !lookup_insert_ne by done. by rewrite lookup_fmap.
    + exists ids, labels. split_and!; try done.
      rewrite lookup_insert_ne by done. by rewrite lookup_insert_eq.
  - unfold ret in Hlab. injection Hlab as <- <-.
    split_and!; try done.
    + rewrite lookup_insert_ne by done. by rewrite lookup_insert_eq.
    + by rewrite lookup_insert_eq.
    + intros k ? ? ?. rewrite !lookup_insert_ne by done. by rewrite lookup_fmap.
    + rewrite !lookup_insert_ne by done. by rewrite lookup_fmap.
Qed.

Lemma finish_Raise fd2 m w1 w' e :
  finish outfile pklglob featurestouse maxobjects labeldict labeltype fd2 m w1 = (w', Raise e) -> w' = w1.
Proof.
  unfold finish, bind. destruct labeldict as [ld|].
  - unfold lift. destruct (dict_get fd2 "objectids") as [ids|e']; [|by intros; simplify_eq].
    destruct (make_labels ld labeltype ids) as [labels|e']; [|by intros; simplify_eq].
    unfold ret, pickle_dump. intros Hf. repeat case_match; by simplify_eq.
  - unfold ret, pickle_dump. intros Hf. repeat case_match; by simplify_eq.
Qed.

(** A call that returned wrote what it returned to [outfile], and
    nothing else. *)
Lemma collect_features_written w w' fd :
  collect_features featuresdir magcol outfile pklglob featurestouse maxobjects
                   labeldict labeltype w = (w', Ok fd) ->
  fs w' = <[outfile := FPickle (PDict (DictFeatures fd))]> (fs w) /\
  log w' = log w ++ [LogLine INFO "collecting features for magcol: %s" [magcol]] /\
  fd !! "kwargs"
    = Some (DKwargs (Kwargs pklglob featurestouse maxobjects labeltype)).
Proof.
  intros Hc. rewrite collect_features_unfold in Hc.
  apply bind_Ok in Hc as (w1 & fd1 & Hpk & Hc).
  pose proof (collect_pickles_world magcol featurestouse (announced magcol w)
    (truncate_pklist maxobjects (glob_glob (paths w) (path_join featuresdir pklglob)))
    (initial_feature_dict magcol)) as Hw.
  rewrite Hpk in Hw. simpl in Hw. subst w1.
  apply bind_Ok in Hc as (w2 & [fd2 m] & Hst & Hc).
  apply lift_Ok in Hst as [-> _]. simpl in Hc.
  apply finish_Ok in Hc as (_ & Hkw & _ & _ & Hfs & Hlog).
  by split_and!.
Qed.
End Call.

(** *** Calls that return *)

Lemma pickle_dump_writable v p w :
  writable w p ->
  pickle_dump v p w = (set_fs (fun m => <[p := FPickle v]> m) w, Ok tt).
Proof.
  intros (Hne & Hslash & Hdir & Hparent). unfold pickle_dump, open_wb_error.
  rewrite bool_decide_eq_false_2 by done. rewrite Hslash.
  assert (Hd : (if all_slashes (dirname p) then Some FDir
                else fs w !! dirname p) = Some FDir).
  { destruct Hparent as [->|Hp]; [done|]. by destruct (all_slashes _). }
  rewrite Hd. by destruct (fs w !! p) as [[]|].
Qed.

Lemma finish_returns outfile pklglob featurestouse maxobjects labeldict labeltype
    (fd2 : gmap string cell) m w ids :
  fd2 !! "objectids" = Some (CArray (AStr <$> ids)) ->
  map_Forall (fun _ v => exists z, to_int64 v = Ok z) (default ∅ labeldict) ->
  writable w outfile ->
  exists w' fd,
    finish outfile pklglob featurestouse maxobjects labeldict labeltype fd2 m w
      = (w', Ok fd).
Proof.
  intros Ho Hfit Hw. unfold finish.
  destruct labeldict as [ld|]; simpl in Hfit.
  - unfold bind at 2, lift at 1, dict_get. rewrite Ho.
    unfold make_labels. simpl.
    destruct (label_loop_Ok ld labeltype (AStr <$> ids) Hfit 0%nat
                (replicate (length (AStr <$> ids)) 0)) as [labels Hl].
    unfold bind at 2, lift at 1. rewrite Hl. simpl.
    unfold bind at 1, ret at 1. unfold bind.
    rewrite pickle_dump_writable by exact Hw. eauto.
  - unfold bind at 1, ret at 1. unfold bind.
    rewrite pickle_dump_writable by exact Hw. eauto.
Qed.

(** For records that expose every requested feature, the call comes down
    to what follows the stacking. *)
Lemma collect_features_exposed featuresdir magcol outfile pklglob featurestouse
    maxobjects labeldict labeltype w records :
  Forall2 (holds w)
          (truncate_pklist maxobjects
             (glob_glob (paths w) (path_join featuresdir pklglob)))
          records ->
  records <> [] ->
  Forall (exposes magcol (featurestoget featurestouse)) records ->
  NoDup (featurestoget featurestouse) ->
  "objectids" ∉ featurestoget featurestouse ->
  "availablefeatures" ∉ featurestoget featurestouse ->
  exists fd2,
    fd2 !! "objectids" = Some (CArray (AStr <$> seen_ids records)) /\
    collect_features featuresdir magcol outfile pklglob featurestouse maxobjects
                     labeldict labeltype w
    = finish outfile pklglob featurestouse maxobjects labeldict labeltype fd2
             (stacked magcol (featurestoget featurestouse) records)
             (announced magcol w).
Proof.
  intros Hload Hne Hall Hnd Hids Havail.
  destruct records as [|v vs]; [done|].
  destruct (collect_varfs magcol featurestouse Hnd Hids Havail v vs Hall)
    as (fd' & Hfold & Hcoll).
  destruct (stack_collected magcol (featurestoget featurestouse) (v :: vs) fd')
    as (fd2 & Hst & Ho & Hav); try done.
  { apply featurestoget_nonempty. }
  exists fd2. split; [done|].
  rewrite collect_features_unfold. unfold bind at 1.
  rewrite (collect_pickles_records _ _ _ _ (v :: vs)) by exact Hload.
  rewrite Hfold. unfold bind at 1, lift at 1. by rewrite Hst.
Qed.

Lemma occurrences_positive magcol feats vs f :
  f ∈ available magcol feats vs -> (0 < occurrences magcol f vs)%nat.
Proof.
  intros Hf. apply available_spec in Hf as [_ Hex].
  unfold occurrences, column. rewrite length_fmap.
  apply Exists_exists in Hex as (v & Hv & [x Hx]).
  assert (Hin : x ∈ omap (feature_of magcol f) vs).
  { apply list_elem_of_omap. by exists v. }
  destruct (omap (feature_of magcol f) vs); [by apply elem_of_nil in Hin|].
  simpl. lia.
Qed.

(** A call that returned made the collection of the pickles it was left
    with. *)
Lemma collect_features_collection featuresdir magcol outfile pklglob
    featurestouse maxobjects labeldict labeltype w w' fd :
  magcol <> "objectid" ->
  NoDup (featurestoget featurestouse) ->
  "objectids" ∉ featurestoget featurestouse ->
  "availablefeatures" ∉ featurestoget featurestouse ->
  collect_features featuresdir magcol outfile pklglob featurestouse maxobjects
                   labeldict labeltype w = (w', Ok fd) ->
  collection_of magcol (featurestoget featurestouse) w
    (truncate_pklist maxobjects
       (glob_glob (paths w) (path_join featuresdir pklglob))) fd.
Proof.
  intros Hm Hnd Hids Havail Hc.
  destruct (collect_features_Ok featuresdir magcol outfile pklglob featurestouse
              maxobjects labeldict labeltype Hnd Hids Havail w w' fd Hm Hc)
    as (records & fd2 & m & Hload & Hall & Hst & Ho & Hav & Hdom & _ & Hfin).
  apply finish_Ok in Hfin as (Hfa & _ & Hrest & _).
  apply column_stack_Ok in Hst as (-> & Hne & Hcount).
  assert (exists f, f ∈ available magcol (featurestoget featurestouse) records)
    as [f Hf].
  { destruct (available magcol (featurestoget featurestouse) records)
      as [|f avail]; [done|]. exists f. by left. }
  exists records. split_and!; try done.
  - intros ->. by apply elem_of_nil in Hf.
  - rewrite Hrest by done. by rewrite Ho.
  - intros v Hv. apply seen_ids_elem. by apply list_elem_of_fmap_2.
  - rewrite Hrest by done. by rewrite Hav.
  - rewrite <- (Hcount f Hf). by eapply occurrences_positive.
Qed.

(** C10: what [maxobjects] leaves of the glob.  With [maxobjects=0] a
    call that returned made the collection of every file the glob lists:
    each of them was read, there is at least one object and one row.
    Only a strictly positive [maxobjects] cuts the list to its first
    [maxobjects] files; a negative one drops the last [-maxobjects]
    files, as the slice [pklist[:maxobjects]] does.  The outcome with [0]
    is the outcome with [None], but for the ['kwargs'] entry that
    records the argument.  And with [maxobjects=0] the call does return,
    when the glob lists at least one file, every file listed holds a
    record that exposes every requested feature, the labels fit an
    [int64] and the output file can be written.  The magnitude column is
    taken not to be ['objectid'], the requested features to be distinct,
    and none of them to be ['objectids'] or ['availablefeatures']. *)
Theorem collect_features_maxobjects_zero featuresdir magcol outfile pklglob
    featurestouse labeldict labeltype w :
  magcol <> "objectid" ->
  NoDup (featurestoget featurestouse) ->
  "objectids" ∉ featurestoget featurestouse ->
  "availablefeatures" ∉ featurestoget featurestouse ->
  (forall w' fd,
     collect_features featuresdir magcol outfile pklglob featurestouse
                      (Some 0) labeldict labeltype w = (w', Ok fd) ->
     collection_of magcol (featurestoget featurestouse) w
       (glob_glob (paths w) (path_join featuresdir pklglob)) fd) /\
  (forall m w' fd, 0 < m ->
     collect_features featuresdir magcol outfile pklglob featurestouse
                      (Some m) labeldict labeltype w = (w', Ok fd) ->
     collection_of magcol (featurestoget featurestouse) w
       (take (Z.to_nat m) (glob_glob (paths w) (path_join featuresdir pklglob)))
       fd) /\
  (forall m w' fd, m < 0 ->
     collect_features featuresdir magcol outfile pklglob featurestouse
                      (Some m) labeldict labeltype w = (w', Ok fd) ->
     collection_of magcol (featurestoget featurestouse) w
       (take (length (glob_glob (paths w) (path_join featuresdir pklglob))
              - Z.to_nat (- m))
             (glob_glob (paths w) (path_join featuresdir pklglob)))
       fd) /\
  delete "kwargs" <$>
    (collect_features featuresdir magcol outfile pklglob featurestouse
                      (Some 0) labeldict labeltype w).2
  = delete "kwargs" <$>
    (collect_features featuresdir magcol outfile pklglob featurestouse
                      None labeldict labeltype w).2 /\
  (forall records,
     Forall2 (holds w) (glob_glob (paths w) (path_join featuresdir pklglob))
             records ->
     records <> [] ->
     Forall (exposes magcol (featurestoget featurestouse)) records ->
     map_Forall (fun _ v => exists z, to_int64 v = Ok z) (default ∅ labeldict) ->
     writable w outfile ->
     exists w' fd,
       collect_features featuresdir magcol outfile pklglob featurestouse
                        (Some 0) labeldict labeltype w = (w', Ok fd)).
Proof.
  intros Hm Hnd Hids Havail. split_and!.
  - intros w' fd Hc.
    by apply (collect_features_collection _ _ _ _ _ (Some 0) _ _ _ _ _
                Hm Hnd Hids Havail) in Hc.
  - intros m w' fd Hpos Hc.
    apply (collect_features_collection _ _ _ _ _ (Some m) _ _ _ _ _
             Hm Hnd Hids Havail) in Hc.
    by rewrite truncate_pklist_positive in Hc.
  - intros m w' fd Hneg Hc.
    apply (collect_features_collection _ _ _ _ _ (Some m) _ _ _ _ _
             Hm Hnd Hids Havail) in Hc.
    by rewrite truncate_pklist_negative in Hc.
  - apply collect_features_zero_as_none.
  - intros records Hload Hne Hall Hfit Hw.
    destruct (collect_features_exposed featuresdir magcol outfile pklglob
                featurestouse (Some 0) labeldict labeltype w records)
      as (fd2 & Ho & ->); try done.
    by eapply finish_returns.
Qed.

(** X4: [collect_features] returns, when the glob leaves at least one
    pickle, every pickle read holds a record that exposes every requested
    feature, the labels fit an [int64] and the output file can be
    written: its path is not empty, has no slash at its end and is not a
    directory, and its directory exists. *)
Theorem collect_features_returns featuresdir magcol outfile pklglob
    featurestouse maxobjects labeldict labeltype w records :
  Forall2 (holds w)
          (truncate_pklist maxobjects
             (glob_glob (paths w) (path_join featuresdir pklglob)))
          records ->
  records <> [] ->
  Forall (exposes magcol (featurestoget featurestouse)) records ->
  NoDup (featurestoget featurestouse) ->
  "objectids" ∉ featurestoget featurestouse ->
  "availablefeatures" ∉ featurestoget featurestouse ->
  map_Forall (fun _ v => exists z, to_int64 v = Ok z) (default ∅ labeldict) ->
  writable w outfile ->
  exists w' fd,
    collect_features featuresdir magcol outfile pklglob featurestouse
                     maxobjects labeldict labeltype w = (w', Ok fd) /\
    fs w' = <[outfile := FPickle (PDict (DictFeatures fd))]> (fs w).
Proof.
  intros Hload Hne Hall Hnd Hids Havail Hfit Hw.
  destruct (collect_features_exposed featuresdir magcol outfile pklglob
              featurestouse maxobjects labeldict labeltype w records)
    as (fd2 & Ho & Heq); try done.
  destruct (finish_returns outfile pklglob featurestouse maxobjects labeldict
              labeltype fd2
              (stacked magcol (featurestoget featurestouse) records)
              (announced magcol w) (seen_ids records) Ho Hfit Hw)
    as (w' & fd & Hfin).
  exists w', fd. rewrite Heq. split; [done|].
  by apply finish_Ok in Hfin as (_ & _ & _ & _ & Hfs & _).
Qed.

(** X5: a negative [maxobjects].  The slice [pklist[:maxobjects]] then
    drops the last [-maxobjects] files the glob lists.  When the glob
    lists no more files than that, no file is read and [collect_features]
    raises the [ValueError] of [np.column_stack] on an empty list, after
    its one log line and without writing; and a call that returned made
    the collection of the files before the last [-maxobjects], of which
    there is at least one.  The magnitude column is taken not to be
    ['objectid'], the requested features to be distinct, and none of them
    to be ['objectids'] or ['availablefeatures']. *)
Theorem collect_features_negative_maxobjects featuresdir magcol outfile pklglob
    featurestouse m labeldict labeltype w :
  m < 0 ->
  magcol <> "objectid" ->
  NoDup (featurestoget featurestouse) ->
  "objectids" ∉ featurestoget featurestouse ->
  "availablefeatures" ∉ featurestoget featurestouse ->
  ((length (glob_glob (paths w) (path_join featuresdir pklglob))
      <= Z.to_nat (- m))%nat ->
   collect_features featuresdir magcol outfile pklglob featurestouse (Some m)
                    labeldict labeltype w
   = (announced magcol w,
      Raise (ValueError "need at least one array to concatenate"))) /\
  (forall w' fd,
     collect_features featuresdir magcol outfile pklglob featurestouse (Some m)
                      labeldict labeltype w = (w', Ok fd) ->
     (Z.to_nat (- m)
        < length (glob_glob (paths w) (path_join featuresdir pklglob)))%nat /\
     collection_of magcol (featurestoget featurestouse) w
       (take (length (glob_glob (paths w) (path_join featuresdir pklglob))
              - Z.to_nat (- m))
             (glob_glob (paths w) (path_join featuresdir pklglob)))
       fd).
Proof.
  intros Hneg Hm Hnd Hids Havail. split.
  - intros Hfew.
    destruct (collect_features_gathered featuresdir magcol outfile pklglob
                featurestouse (Some m) labeldict labeltype Hnd Hids Havail
                w []) as (fd2 & _ & _ & _ & _ & ->).
    + rewrite truncate_pklist_negative by done.
      replace (_ - _)%nat with 0%nat by lia. constructor.
    + constructor.
    + by rewrite column_stack_none.
  - intros w' fd Hc.
    apply (collect_features_collection _ _ _ _ _ (Some m) _ _ _ _ _
             Hm Hnd Hids Havail) in Hc.
    rewrite truncate_pklist_negative in Hc by done.
    split; [|done].
    destruct Hc as (records & Hload & Hne & _).
    apply Forall2_length in Hload. rewrite length_take in Hload.
    destruct records; [done|]. simpl in Hload. lia.
Qed.

Lemma gather_missing magcol featurestouse :
  NoDup (featurestoget featurestouse) ->
  "objectids" ∉ featurestoget featurestouse ->
  "availablefeatures" ∉ featurestoget featurestouse ->
  magcol <> "objectid" ->
  forall rest vs (fd : gmap string cell),
  gathered magcol (featurestoget featurestouse) vs fd ->
  Exists (fun v => magcols v !! magcol = None) rest ->
  fold_outcome (collect_varf magcol featurestouse) rest fd = Raise (KeyError magcol).
Proof.
  intros Hnd Hids Havail Hm.
  induction rest as [|v rest IH]; intros vs fd Hg Hex.
  { by apply Exists_nil in Hex. }
  destruct (magcols v !! magcol) as [d|] eqn:Hd.
  - assert (Hv : has_magcol magcol v).
    { exists d. unfold varf_get. rewrite bool_decide_eq_false_2 by done. by rewrite Hd. }
    destruct (gather_record magcol featurestouse Hnd Hids Havail vs fd v Hg Hv)
      as (fd1 & Hstep & Hg1).
    simpl. rewrite Hstep. simpl. apply (IH (vs ++ [v])); [done|].
    apply Exists_cons in Hex as [Hex|Hex]; [congruence|done].
  - simpl. unfold collect_varf. destruct Hg as (Ho & _).
    destruct (note_objectid fd (seen_ids vs) v) as (fd1 & -> & _); [done|].
    unfold varf_get. rewrite bool_decide_eq_false_2 by done. by rewrite Hd.
Qed.

Lemma label_loop_unknown labeldict labeltype ids :
  labeltype <> "binary" -> labeltype <> "classes" ->
  forall ind arr, label_loop labeldict labeltype ind ids arr = Ok arr.
Proof.
  intros Hb Hc. induction ids as [|id ids IH]; intros ind arr; [done|].
  simpl. rewrite !bool_decide_eq_false_2 by done.
  destruct (label_lookup labeldict id); simpl; apply IH.
Qed.

Lemma exposes_has_magcol magcol feats v : exposes magcol feats v -> has_magcol magcol v.
Proof. intros (d & Hd & _). by exists d. Qed.

(** X7: columns of different lengths.  When every record read has the
    magnitude column, and two requested features are each found in some
    record but in different numbers of records, [collect_features] logs
    its line and raises the [ValueError] of [np.column_stack]; no file is
    written. *)
Theorem collect_features_ragged featuresdir magcol outfile pklglob
    featurestouse maxobjects labeldict labeltype w records f g :
  Forall2 (holds w)
          (truncate_pklist maxobjects (glob_glob (paths w) (path_join featuresdir pklglob)))
          records ->
  Forall (has_magcol magcol) records ->
  NoDup (featurestoget featurestouse) ->
  "objectids" ∉ featurestoget featurestouse ->
  "availablefeatures" ∉ featurestoget featurestouse ->
  f ∈ featurestoget featurestouse -> g ∈ featurestoget featurestouse ->
  occurrences magcol f records <> 0%nat -> occurrences magcol g records <> 0%nat ->
  occurrences magcol f records <> occurrences magcol g records ->
  collect_features featuresdir magcol outfile pklglob featurestouse maxobjects
                   labeldict labeltype w
    = (announced magcol w,
       Raise (ValueError "all the input array dimensions except for the concatenation axis must match exactly")).
Proof.
  intros Hload Hall Hnd Hids Havail Hf Hg Hcf Hcg Hne.
  destruct (collect_features_gathered featuresdir magcol outfile pklglob
              featurestouse maxobjects labeldict labeltype Hnd Hids Havail
              w records Hload Hall) as (fd2 & _ & _ & _ & _ & ->).
  rewrite (column_stack_ragged magcol _ records f g); try done.
  all: by apply occurrences_available.
Qed.

(** X8: the matrix of a call that returned.  ['availablefeatures'] lists
    the requested features that some record has, each once, as
    [available] orders them; the matrix has one column for each of them;
    every one of them was found in as many records as the matrix has
    rows; and entry [k] of row [i] is the [i]-th value collected for the
    [k]-th available feature. *)
Theorem collect_features_columns featuresdir magcol outfile pklglob
    featurestouse maxobjects labeldict labeltype w w' fd :
  magcol <> "objectid" ->
  NoDup (featurestoget featurestouse) ->
  "objectids" ∉ featurestoget featurestouse ->
  "availablefeatures" ∉ featurestoget featurestouse ->
  collect_features featuresdir magcol outfile pklglob featurestouse maxobjects
                   labeldict labeltype w = (w', Ok fd) ->
  exists records m,
    Forall2 (holds w)
            (truncate_pklist maxobjects (glob_glob (paths w) (path_join featuresdir pklglob)))
            records /\
    fd !! "features_array" = Some (DMatrix m) /\
    fd !! "availablefeatures"
      = Some (DCell (CList (AStr <$>
                available magcol (featurestoget featurestouse) records))) /\
    NoDup (available magcol (featurestoget featurestouse) records) /\
    (forall f, f ∈ available magcol (featurestoget featurestouse) records <->
       f ∈ featurestoget featurestouse /\
       Exists (fun v => is_Some (feature_of magcol f v)) records) /\
    ncols m = length (available magcol (featurestoget featurestouse) records) /\
    length (rows m) = nrows m /\
    (forall f, f ∈ available magcol (featurestoget featurestouse) records ->
       occurrences magcol f records = nrows m) /\
    (forall i k f row,
       rows m !! i = Some row ->
       available magcol (featurestoget featurestouse) records !! k = Some f ->
       row !! k = column magcol f records !! i).
Proof.
  intros Hm Hnd Hids Havail Hc.
  destruct (collect_features_Ok featuresdir magcol outfile pklglob featurestouse
              maxobjects labeldict labeltype Hnd Hids Havail w w' fd Hm Hc)
    as (records & fd2 & m & Hload & Hall & Hst & Ho & Hav & Hdom & _ & Hfin).
  apply finish_Ok in Hfin as (Hfa & _ & Hrest & _).
  apply column_stack_Ok in Hst as (-> & Hne & Hcount).
  exists records, (stacked_columns magcol (featurestoget featurestouse) records).
  split_and!; try done.
  - rewrite Hrest by done. by rewrite Hav.
  - apply available_NoDup.
  - intros f. apply available_spec.
  - simpl. unfold columns. by rewrite length_fmap.
  - simpl. by rewrite length_fmap, length_seq.
  - intros i k f row Hrow Hk. simpl in Hrow.
    rewrite list_lookup_fmap in Hrow.
    destruct (seq _ _ !! i) as [i'|] eqn:Hi; [|done].
    apply lookup_seq in Hi as [-> Hi]. simpl in Hrow. injection Hrow as <-.
    rewrite (row_at_full
               (nrows (stacked_columns magcol (featurestoget featurestouse) records))
               i (columns magcol (featurestoget featurestouse) records)).
    + unfold columns. rewrite list_lookup_fmap, Hk. done.
    + apply Forall_forall. intros c Hcol. unfold columns in Hcol.
      apply list_elem_of_fmap in Hcol as (f' & -> & Hf').
      apply (Hcount f' Hf').
    + exact Hi.
Qed.

(** X9: object ids are deduplicated, rows are not.  When every record
    exposes every requested feature, the matrix of a call that returned
    has one row per record, while ['objectids'] holds each id once: with
    a repeated id there are fewer ids than rows, and the labels array, if
    there is one, has one entry per id, not per row. *)
Theorem collect_features_duplicate_ids featuresdir magcol outfile pklglob
    featurestouse maxobjects labeldict labeltype w w' fd records :
  Forall2 (holds w)
          (truncate_pklist maxobjects (glob_glob (paths w) (path_join featuresdir pklglob)))
          records ->
  Forall (exposes magcol (featurestoget featurestouse)) records ->
  NoDup (featurestoget featurestouse) ->
  "objectids" ∉ featurestoget featurestouse ->
  "availablefeatures" ∉ featurestoget featurestouse ->
  collect_features featuresdir magcol outfile pklglob featurestouse maxobjects
                   labeldict labeltype w = (w', Ok fd) ->
  exists m,
    fd !! "features_array" = Some (DMatrix m) /\
    nrows m = length records /\
    fd !! "objectids" = Some (DCell (CArray (AStr <$> seen_ids records))) /\
    NoDup (seen_ids records) /\
    (forall id, id ∈ seen_ids records <-> id ∈ objectid <$> records) /\
    (~ NoDup (objectid <$> records) ->
     (length (seen_ids records) < nrows m)%nat) /\
    (forall ld, labeldict = Some ld ->
       exists labels, fd !! "labels_array" = Some (DLabels labels) /\
                      length labels = length (seen_ids records)).
Proof.
  intros Hload Hall Hnd Hids Havail Hc.
  assert (Hmag : Forall (has_magcol magcol) records).
  { eapply Forall_impl; [exact Hall|]. intros v. apply exposes_has_magcol. }
  destruct (collect_features_gathered featuresdir magcol outfile pklglob
              featurestouse maxobjects labeldict labeltype Hnd Hids Havail
              w records Hload Hmag) as (fd2 & Ho & Hav & Hdom & _ & Heq).
  rewrite Heq in Hc.
  destruct (column_stack _) as [m|e] eqn:Hst; [|done].
  apply column_stack_Ok in Hst as (-> & Hne & Hcount).
  apply finish_Ok in Hc as (Hfa & _ & Hrest & Hlab & _).
  assert (Hrows : nrows (stacked_columns magcol (featurestoget featurestouse) records)
            = length records).
  { assert (exists f, f ∈ available magcol (featurestoget featurestouse) records)
      as [f Hf].
    { destruct (available magcol (featurestoget featurestouse) records)
        as [|f avail]; [done|]. exists f. by left. }
    rewrite <- (Hcount f Hf).
    apply (column_length magcol (featurestoget featurestouse)); [done|].
    by apply available_sub with magcol records. }
  exists (stacked_columns magcol (featurestoget featurestouse) records).
  split_and!; try done.
  - rewrite Hrest by done. by rewrite Ho.
  - apply seen_ids_nodup.
  - apply seen_ids_elem.
  - intros Hdup. rewrite Hrows. by apply seen_ids_repeated.
  - intros ld ->. destruct Hlab as (ids & labels & Hids' & Hmk & Hl).
    exists labels. split; [done|].
    rewrite Ho in Hids'. injection Hids' as <-.
    apply make_labels_spec in Hmk as (ids' & Heq' & Hlen & _).
    injection Heq' as <-. by rewrite Hlen, length_fmap.
Qed.

(** X10: a record without the magnitude column.  When one of the records
    read has no entry for [magcol], [collect_features] logs its line and
    raises [KeyError] for [magcol]; no file is written. *)
Theorem collect_features_missing_magcol featuresdir magcol outfile pklglob
    featurestouse maxobjects labeldict labeltype w records :
  Forall2 (holds w)
          (truncate_pklist maxobjects (glob_glob (paths w) (path_join featuresdir pklglob)))
          records ->
  Exists (fun v => magcols v !! magcol = None) records ->
  magcol <> "objectid" ->
  NoDup (featurestoget featurestouse) ->
  "objectids" ∉ featurestoget featurestouse ->
  "availablefeatures" ∉ featurestoget featurestouse ->
  collect_features featuresdir magcol outfile pklglob featurestouse maxobjects
                   labeldict labeltype w
    = (announced magcol w, Raise (KeyError magcol)).
Proof.
  intros Hload Hex Hm Hnd Hids Havail.
  rewrite collect_features_unfold. unfold bind at 1.
  rewrite (collect_pickles_records _ _ _ _ records) by exact Hload.
  by rewrite (gather_missing magcol featurestouse Hnd Hids Havail Hm records []
                (initial_feature_dict magcol)
                (gathered_initial magcol featurestouse Hnd Hids Havail) Hex).
Qed.

(** X11: no requested feature in any record.  When the records read have
    the magnitude column but none of them has any requested feature,
    [collect_features] raises the [ValueError] of [np.column_stack] on an
    empty list; no file is written. *)
Theorem collect_features_nothing_available featuresdir magcol outfile pklglob
    featurestouse maxobjects labeldict labeltype w records :
  Forall2 (holds w)
          (truncate_pklist maxobjects (glob_glob (paths w) (path_join featuresdir pklglob)))
          records ->
  Forall (has_magcol magcol) records ->
  NoDup (featurestoget featurestouse) ->
  "objectids" ∉ featurestoget featurestouse ->
  "availablefeatures" ∉ featurestoget featurestouse ->
  (forall f v, f ∈ featurestoget featurestouse -> v ∈ records ->
     feature_of magcol f v = None) ->
  collect_features featuresdir magcol outfile pklglob featurestouse maxobjects
                   labeldict labeltype w
    = (announced magcol w,
       Raise (ValueError "need at least one array to concatenate")).
Proof.
  intros Hload Hall Hnd Hids Havail Hnone.
  destruct (collect_features_gathered featuresdir magcol outfile pklglob
              featurestouse maxobjects labeldict labeltype Hnd Hids Havail
              w records Hload Hall) as (fd2 & _ & _ & _ & _ & ->).
  rewrite column_stack_none; [done|].
  destruct (available magcol (featurestoget featurestouse) records) as [|f avail] eqn:Hav;
    [done|].
  assert (Hf : f ∈ available magcol (featurestoget featurestouse) records)
    by (rewrite Hav; by left).
  apply available_spec in Hf as [Hf Hex].
  apply Exists_exists in Hex as (v & Hv & Hsome).
  rewrite (Hnone f v Hf Hv) in Hsome. by destruct Hsome.
Qed.

(** X12: the output pickle.  A call of [collect_features] that returned
    wrote the dict it returned to [outfile] and changed no other path;
    loading [outfile] gives back that dict; the call logged one line; and
    the dict records the call's arguments under ['kwargs']. *)
Theorem collect_features_pickles_result featuresdir magcol outfile pklglob
    featurestouse maxobjects labeldict labeltype w w' fd :
  collect_features featuresdir magcol outfile pklglob featurestouse maxobjects
                   labeldict labeltype w = (w', Ok fd) ->
  fs w' = <[outfile := FPickle (PDict (DictFeatures fd))]> (fs w) /\
  log w' = log w ++ [LogLine INFO "collecting features for magcol: %s" [magcol]] /\
  pickle_load outfile w' = (w', Ok (PDict (DictFeatures fd))) /\
  fd !! "kwargs"
    = Some (DKwargs (Kwargs pklglob featurestouse maxobjects labeltype)).
Proof.
  intros Hc. apply collect_features_written in Hc as (Hfs & Hlog & Hkw).
  split_and!; try done.
  unfold pickle_load. by rewrite Hfs, lookup_insert_eq.
Qed.

(** X13: a call of [collect_features] that raised left every file as it
    was, and logged its one line. *)
Theorem collect_features_failure_writes_nothing featuresdir magcol outfile
    pklglob featurestouse maxobjects labeldict labeltype w w' e :
  collect_features featuresdir magcol outfile pklglob featurestouse maxobjects
                   labeldict labeltype w = (w', Raise e) ->
  fs w' = fs w /\
  log w' = log w ++ [LogLine INFO "collecting features for magcol: %s" [magcol]].
Proof.
  intros Hc. rewrite collect_features_unfold in Hc.
  assert (w' = announced magcol w) as ->; [|done].
  revert Hc. unfold bind at 1.
  pose proof (collect_pickles_world magcol featurestouse (announced magcol w)
    (truncate_pklist maxobjects (glob_glob (paths w) (path_join featuresdir pklglob)))
    (initial_feature_dict magcol)) as Hw.
  destruct (collect_pickles _ _ _ _ _) as [w1 [fd1|e1]]; simpl in Hw; subst w1.
  2:{ by intros; simplify_eq. }
  unfold bind at 1, lift at 1.
  destruct (stack_features fd1) as [[fd2 m]|e2]; [|by intros; simplify_eq].
  simpl. intros Hf. by apply finish_Raise in Hf.
Qed.

(** X14: a label type that is neither ['binary'] nor ['classes'] is not
    refused.  In the dict of a call that returned, every entry of the
    labels array is zero, whatever the label dict holds. *)
Theorem collect_features_unknown_labeltype featuresdir magcol outfile pklglob
    featurestouse maxobjects labeldict labeltype w w' fd :
  labeltype <> "binary" -> labeltype <> "classes" ->
  collect_features featuresdir magcol outfile pklglob featurestouse maxobjects
                   (Some labeldict) labeltype w = (w', Ok fd) ->
  exists labels,
    fd !! "labels_array" = Some (DLabels labels) /\
    Forall (fun z => z = 0) labels.
Proof.
  intros Hb Hcl Hc. rewrite collect_features_unfold in Hc.
  apply bind_Ok in Hc as (w1 & fd1 & _ & Hc).
  apply bind_Ok in Hc as (w2 & [fd2 m] & _ & Hc). simpl in Hc.
  apply finish_Ok in Hc as (_ & _ & _ & (ids & labels & _ & Hmk & Hl) & _).
  exists labels. split; [done|].
  unfold make_labels in Hmk.
  apply obind_Ok in Hmk as (n & _ & Hmk).
  apply obind_Ok in Hmk as (items & _ & Hmk).
  rewrite label_loop_unknown in Hmk by done. injection Hmk as <-.
  apply Forall_forall. intros z Hz. by apply elem_of_replicate in Hz as [-> _].
Qed.

(** X15: a collection made without a label dict cannot be trained on.
    [train_rf_classifier] raises [KeyError] for ['labels_array'] on the
    dict such a call returned and on the path it was written to, and
    leaves the world as it was. *)
Theorem train_rf_classifier_needs_labels featuresdir magcol outfile pklglob
    featurestouse maxobjects labeltype w w' fd kw classifier_to_pickle w2 :
  magcol <> "objectid" ->
  NoDup (featurestoget featurestouse) ->
  "objectids" ∉ featurestoget featurestouse ->
  "availablefeatures" ∉ featurestoget featurestouse ->
  "labels_array" ∉ featurestoget featurestouse ->
  collect_features featuresdir magcol outfile pklglob featurestouse maxobjects
                   None labeltype w = (w', Ok fd) ->
  train_rf_classifier (ArgDict (DictFeatures fd)) kw classifier_to_pickle w2
    = (w2, Raise (KeyError "labels_array")) /\
  train_rf_classifier (ArgStr outfile) kw classifier_to_pickle w'
    = (w', Raise (KeyError "labels_array")).
Proof.
  intros Hm Hnd Hids Havail Hlab Hc.
  assert (Hfile : fs w' !! outfile = Some (FPickle (PDict (DictFeatures fd)))).
  { pose proof Hc as Hc'. rewrite collect_features_unfold in Hc'.
    apply bind_Ok in Hc' as (w1 & fd1 & _ & Hc').
    apply bind_Ok in Hc' as (w3 & [fd2 m] & _ & Hc'). simpl in Hc'.
    apply finish_Ok in Hc' as (_ & _ & _ & _ & Hfs & _).
    by rewrite Hfs, lookup_insert_eq. }
  destruct (collect_features_Ok featuresdir magcol outfile pklglob featurestouse
              maxobjects None labeltype Hnd Hids Havail w w' fd Hm Hc)
    as (records & fd2 & m & _ & _ & _ & _ & _ & Hdom & _ & Hfin).
  apply finish_Ok in Hfin as (Hfa & _ & _ & Hl & _).
  assert (Hnone : fd !! "labels_array" = None).
  { rewrite Hl. destruct (fd2 !! "labels_array") as [c|] eqn:Hc2; [|done].
    destruct (Hdom "labels_array") as [Hr|Hr]; [by rewrite Hc2| |done].
    repeat (apply elem_of_cons in Hr as [Hr|Hr]; [done|]). by apply elem_of_nil in Hr. }
  split.
  - unfold train_rf_classifier, bind, resolve, ret, lift. simpl.
    unfold pydict_get. simpl. by rewrite Hfa, Hnone.
  - unfold train_rf_classifier, bind at 1, resolve, bind at 1, path_exists.
    rewrite bool_decide_eq_true_2 by (by rewrite Hfile).
    unfold bind at 1, pickle_load. rewrite Hfile. unfold ret.
    unfold bind, lift. simpl. unfold pydict_get. simpl. by rewrite Hfa, Hnone.
Qed.

Lemma resolve_Some arg msg w w' p :
  resolve arg msg w = (w', Ok (Some p)) ->
  w' = w /\
  match arg with
  | ArgStr path => fs w !! path = Some (FPickle p)
  | ArgDict d => p = PDict d
  | ArgOther => False
  end.
Proof.
  destruct arg as [path|d|]; simpl.
  - unfold bind, path_exists, pickle_load, ret, LOGERROR, LOG, modify.
    case_bool_decide; [|by intros; simplify_eq].
    destruct (fs w !! path) as [[| |p']|]; intros; by simplify_eq.
  - unfold ret. intros; by simplify_eq.
  - unfold bind, ret, LOGERROR, LOG, modify. intros; by simplify_eq.
Qed.

Lemma resolve_path path msg w p :
  fs w !! path = Some (FPickle p) ->
  resolve (ArgStr path) msg w = (w, Ok (Some p)).
Proof.
  intros Hp. unfold resolve, bind, path_exists, pickle_load, ret.
  rewrite bool_decide_eq_true_2 by (by rewrite Hp). by rewrite Hp.
Qed.

Lemma pickle_dump_Ok v p w w' :
  pickle_dump v p w = (w', Ok tt) ->
  fs w' = <[p := FPickle v]> (fs w) /\ log w' = log w.
Proof. unfold pickle_dump. intros Hd. repeat case_match; by simplify_eq. Qed.

Lemma pickle_dump_Raise v p w w' e :
  pickle_dump v p w = (w', Raise e) -> w' = w.
Proof. unfold pickle_dump. intros Hd. repeat case_match; by simplify_eq. Qed.

Lemma as_names_Ok v names :
  as_names v = Ok names -> v = DCell (CList (AStr <$> names)).
Proof.
  destruct v as [[s|l|l|s]|m|l|k|]; try done. simpl.
  revert names. induction l as [|a l IH]; intros names Hm.
  { simpl in Hm. by simplify_eq. }
  simpl in Hm. apply obind_Ok in Hm as (n & Hn & Hm).
  apply obind_Ok in Hm as (ns & Hns & Hm). simplify_eq.
  destruct a as [s|x]; simpl in Hn; simplify_eq.
  specialize (IH ns Hns). by simplify_eq.
Qed.

Lemma as_kwargs_Ok v k : as_kwargs v = Ok k -> v = DKwargs k.
Proof. destruct v; simpl; intros; by simplify_eq. Qed.

Lemma as_magcol_Ok v s : as_magcol v = Ok s -> v = DCell (CStr s).
Proof. destruct v as [[]| | | |]; simpl; intros; by simplify_eq. Qed.

Lemma as_matrix_Ok v m : as_matrix v = Ok m -> v = DMatrix m.
Proof. destruct v; simpl; intros; by simplify_eq. Qed.

(** What a call of [apply_rf_classifier] that returned a result did. *)
Lemma apply_rf_classifier_Ok arg varfeaturesdir outpickle maxobjects w w' p :
  apply_rf_classifier arg varfeaturesdir outpickle maxobjects w
    = (w', Ok (Some p)) ->
  exists d names k magcol w1,
    resolve arg "can't figure out the input classifier arg" w
      = (w, Ok (Some (PDict d))) /\
    pydict_lookup d "feature_names" = Some (DCell (CList (AStr <$> names))) /\
    pydict_lookup d "collect_kwargs" = Some (DKwargs k) /\
    pydict_lookup d "magcol" = Some (DCell (CStr magcol)) /\
    collect_features varfeaturesdir magcol (featfile_of outpickle) (kw_pklglob k)
                     (Some names) maxobjects None "binary" w
      = (w1, Ok (pred_features p)) /\
    pred_featfile p = featfile_of outpickle /\
    pred_classifier p = d /\
    pickle_dump (pickle_prediction p) outpickle w1 = (w', Ok tt).
Proof.
  unfold apply_rf_classifier. intros Ha.
  apply bind_Ok in Ha as (w0 & r & Hres & Ha).
  destruct r as [[d|]|]; [| |done].
  2:{ done. }
  pose proof (resolve_Some _ _ _ _ _ Hres) as [-> _].
  destruct (pydict_lookup d "feature_names") as [fnames|] eqn:Hfn.
  2:{ apply bind_Ok in Ha as (? & [] & _ & Ha). done. }
  apply bind_Ok in Ha as (w2 & ck & Hck & Ha). apply lift_Ok in Hck as [-> Hck].
  apply bind_Ok in Ha as (w3 & lt & Hlt & Ha). apply lift_Ok in Hlt as [-> Hlt].
  apply bind_Ok in Ha as (w4 & pg & Hpg & Ha). apply lift_Ok in Hpg as [-> Hpg].
  apply bind_Ok in Ha as (w5 & mc & Hmc & Ha). apply lift_Ok in Hmc as [-> Hmc].
  apply bind_Ok in Ha as (w6 & mc' & Hmc' & Ha). apply lift_Ok in Hmc' as [-> Hmc'].
  apply bind_Ok in Ha as (w7 & ftu & Hftu & Ha). apply lift_Ok in Hftu as [-> Hftu].
  apply bind_Ok in Ha as (w8 & features & Hc & Ha).
  apply bind_Ok in Ha as (w9 & clf & Hclf & Ha). apply lift_Ok in Hclf as [-> Hclf].
  apply bind_Ok in Ha as (w10 & fa & Hfa & Ha). apply lift_Ok in Hfa as [-> Hfa].
  apply bind_Ok in Ha as (w11 & pl & Hpl & Ha). apply lift_Ok in Hpl as [-> Hpl].
  apply bind_Ok in Ha as (w12 & pp & Hpp & Ha). apply lift_Ok in Hpp as [-> Hpp].
  apply bind_Ok in Ha as (w13 & [] & Hdump & Ha).
  unfold ret in Ha. injection Ha as <- <-.
  apply as_names_Ok in Hftu as ->. apply as_magcol_Ok in Hmc' as ->.
  destruct (as_kwargs ck) as [k|] eqn:Hk; [|done]. apply as_kwargs_Ok in Hk as ->.
  simpl in Hpg. injection Hpg as <-.
  exists d, ftu, k, mc', w8. unfold pydict_get in Hck, Hmc.
  destruct (pydict_lookup d "collect_kwargs") eqn:E1; [|done].
  destruct (pydict_lookup d "magcol") eqn:E2; [|done].
  simplify_eq. by split_and!.
Qed.

(** What a call of [train_rf_classifier] that returned a bundle did. *)
Lemma train_rf_classifier_Ok arg kw classifier_to_pickle w w' c :
  train_rf_classifier arg kw classifier_to_pickle w = (w', Ok (Some c)) ->
  exists fdict report w1,
    resolve arg "can't figure out the input collected_features arg" w
      = (w, Ok (Some fdict)) /\
    Ok <$> clf_features c = Some (pickled_get fdict "features_array") /\
    Ok <$> clf_labels c = Some (pickled_get fdict "labels_array") /\
    Ok <$> clf_feature_names c = Some (pickled_get fdict "availablefeatures") /\
    Ok <$> clf_magcol c = Some (pickled_get fdict "magcol") /\
    Ok <$> clf_objectids c = Some (pickled_get fdict "objectids") /\
    Ok <$> clf_collect_kwargs c = Some (pickled_get fdict "kwargs") /\
    clf_kwargs c = Some kw /\
    fs w1 = fs w /\
    log w1 = log w ++
      LogLine INFO "running grid-search CV to optimize RF hyperparameters..." []
      :: report /\
    match classifier_to_pickle with
    | Some path =>
        if bool_decide (path = "") then w' = w1
        else pickle_dump (PDict (DictClassifier c)) path w1 = (w', Ok tt)
    | None => w' = w1
    end.
Proof.
  unfold train_rf_classifier. intros Ht.
  apply bind_Ok in Ht as (w0 & r & Hres & Ht).
  destruct r as [fdict|]; [|done].
  pose proof (resolve_Some _ _ _ _ _ Hres) as [-> _].
  apply bind_Ok in Ht as (w2 & tf & Htf & Ht). apply lift_Ok in Htf as [-> Htf].
  apply bind_Ok in Ht as (w3 & tl & Htl & Ht). apply lift_Ok in Htl as [-> Htl].
  apply bind_Ok in Ht as (w4 & tn & Htn & Ht). apply lift_Ok in Htn as [-> Htn].
  apply bind_Ok in Ht as (w5 & tm & Htm & Ht). apply lift_Ok in Htm as [-> Htm].
  apply bind_Ok in Ht as (w6 & to & Hto & Ht). apply lift_Ok in Hto as [-> Hto].
  apply bind_Ok in Ht as (w7 & sets & Hsets & Ht). apply lift_Ok in Hsets as [-> Hsets].
  apply bind_Ok in Ht as (w8 & [] & Hlog & Ht).
  unfold LOGINFO, LOG, modify in Hlog. injection Hlog as <-.
  apply bind_Ok in Ht as (w9 & [[bestclf best] report] & Hcv & Ht).
  apply lift_Ok in Hcv as [-> Hcv].
  apply bind_Ok in Ht as (w10 & [] & Hemit & Ht).
  unfold emit, modify in Hemit. injection Hemit as <-.
  apply bind_Ok in Ht as (w11 & tested & Hev & Ht). apply lift_Ok in Hev as [-> Hev].
  apply bind_Ok in Ht as (w12 & ck & Hck & Ht). apply lift_Ok in Hck as [-> Hck].
  apply bind_Ok in Ht as (w13 & [] & Hdump & Ht).
  unfold ret in Ht. injection Ht as <- <-.
  exists fdict, report,
    (set_log (fun ls => ls ++ report)
       (set_log (fun ls => ls ++
          [LogLine INFO "running grid-search CV to optimize RF hyperparameters..." []])
          w)).
  split; [done|]. simpl.
  rewrite Htf, Htl, Htn, Htm, Hto, Hck. split_and!; try done.
  { by rewrite <- app_assoc. }
  destruct classifier_to_pickle as [path|].
  - case_bool_decide; simpl in Hdump; [unfold ret in Hdump; by simplify_eq|done].
  - unfold ret in Hdump. by simplify_eq.
Qed.

(** X16: the classifier pickle.  A bundle [train_rf_classifier] returned
    records the training keywords; without a path to pickle to, or with
    the empty string, the call changed no file; with a path, the call
    wrote the bundle there and changed no other path, loading the path
    gives back the bundle, and [apply_rf_classifier] does on the path
    what it does on the bundle. *)
Theorem train_rf_classifier_pickles_bundle arg kw classifier_to_pickle w w' c :
  train_rf_classifier arg kw classifier_to_pickle w = (w', Ok (Some c)) ->
  clf_kwargs c = Some kw /\
  (classifier_to_pickle = None \/ classifier_to_pickle = Some "" ->
   fs w' = fs w) /\
  (forall path, classifier_to_pickle = Some path -> path <> "" ->
     fs w' = <[path := FPickle (PDict (DictClassifier c))]> (fs w) /\
     pickle_load path w' = (w', Ok (PDict (DictClassifier c))) /\
     forall varfeaturesdir outpickle maxobjects,
       apply_rf_classifier (ArgStr path) varfeaturesdir outpickle maxobjects w'
       = apply_rf_classifier (ArgDict (DictClassifier c)) varfeaturesdir
                             outpickle maxobjects w').
Proof.
  intros Ht.
  apply train_rf_classifier_Ok in Ht
    as (fdict & report & w1 & _ & _ & _ & _ & _ & _ & _ & Hkw & Hfs & _ & Hw).
  split_and!; [done| |].
  - intros [->| ->]; simpl in Hw; by subst.
  - intros path -> Hne. rewrite bool_decide_eq_false_2 in Hw by done.
    apply pickle_dump_Ok in Hw as [Hfs' _].
    assert (Hfile : fs w' !! path = Some (FPickle (PDict (DictClassifier c)))).
    { by rewrite Hfs', lookup_insert_eq. }
    split_and!.
    + by rewrite Hfs', Hfs.
    + unfold pickle_load. by rewrite Hfile.
    + intros. unfold apply_rf_classifier, bind at 1.
      rewrite (resolve_path _ _ _ _ Hfile). by unfold bind at 3, resolve, ret.
Qed.

(** X17: a collection without ['kwargs'] fails late.  When the dict given
    has the five arrays but no ['kwargs'] entry, and the split, the grid
    search and the evaluation succeed, [train_rf_classifier] logs the
    report of the search before it raises [KeyError] for ['kwargs']; no
    file is written. *)
Theorem train_rf_classifier_late_key_error fd kw classifier_to_pickle w
    tfeatures tlabels sets bestclf best report tested :
  fd !! "features_array" = Some tfeatures ->
  fd !! "labels_array" = Some tlabels ->
  is_Some (fd !! "availablefeatures") ->
  is_Some (fd !! "magcol") ->
  is_Some (fd !! "objectids") ->
  fd !! "kwargs" = None ->
  train_test_split tfeatures tlabels kw = Ok sets ->
  cv_search sets kw = Ok (bestclf, best, report) ->
  evaluate bestclf sets = Ok tested ->
  exists w',
    train_rf_classifier (ArgDict (DictFeatures fd)) kw classifier_to_pickle w
      = (w', Raise (KeyError "kwargs")) /\
    fs w' = fs w /\
    log w' = log w ++
      LogLine INFO "running grid-search CV to optimize RF hyperparameters..." []
      :: report.
Proof.
  intros Hf Hl [tn Hn] [tm Hm] [to Ho] Hk Hsplit Hcv Hev.
  unfold train_rf_classifier, bind, resolve, ret, lift. simpl.
  unfold pydict_get. simpl. rewrite Hf, Hl, Hn, Hm, Ho, Hsplit. simpl.
  rewrite Hcv. simpl. rewrite Hev, Hk. eexists. split; [done|].
  simpl. by rewrite <- app_assoc.
Qed.

(** X18: the two pickles of [apply_rf_classifier].  A call that returned
    a result wrote the collection it made to
    [actual-collected-features.pkl] beside [outpickle], then the result
    to [outpickle], and changed no other path; loading [outpickle] gives
    back the result, and loading the other path gives back the
    collection when the two paths differ; and the call logged the one
    line of the collector. *)
Theorem apply_rf_classifier_pickles_result arg varfeaturesdir outpickle
    maxobjects w w' p :
  apply_rf_classifier arg varfeaturesdir outpickle maxobjects w
    = (w', Ok (Some p)) ->
  pred_featfile p = featfile_of outpickle /\
  fs w' = <[outpickle := FPickle (pickle_prediction p)]>
            (<[featfile_of outpickle := FPickle (PDict (DictFeatures (pred_features p)))]>
               (fs w)) /\
  pickle_load outpickle w' = (w', Ok (pickle_prediction p)) /\
  (outpickle <> featfile_of outpickle ->
   pickle_load (featfile_of outpickle) w'
     = (w', Ok (PDict (DictFeatures (pred_features p))))) /\
  exists magcol,
    log w' = log w ++ [LogLine INFO "collecting features for magcol: %s" [magcol]].
Proof.
  intros Ha.
  apply apply_rf_classifier_Ok in Ha
    as (d & names & k & magcol & w1 & _ & _ & _ & _ & Hc & Hff & _ & Hdump).
  apply collect_features_written in Hc as (Hfs1 & Hlog1 & _).
  apply pickle_dump_Ok in Hdump as [Hfs Hlog].
  split_and!; try done.
  - by rewrite Hfs, Hfs1.
  - unfold pickle_load. by rewrite Hfs, lookup_insert_eq.
  - intros Hne. unfold pickle_load.
    rewrite Hfs, lookup_insert_ne, Hfs1, lookup_insert_eq by done. done.
  - exists magcol. by rewrite Hlog, Hlog1.
Qed.

Lemma AStr_fmap_inj (l l' : list string) :
  AStr <$> l = (AStr <$> l' : list atom) -> l = l'.
Proof.
  revert l'. induction l as [|x l IH]; intros [|y l'] Heq; try done.
  rewrite !fmap_cons in Heq. injection Heq as -> Heq. f_equal. by apply IH.
Qed.

Lemma holds_unique w : forall pklist records records',
  Forall2 (holds w) pklist records -> Forall2 (holds w) pklist records' ->
  records = records'.
Proof.
  induction pklist as [|pkl pklist IH]; intros records records' H1 H2.
  { apply Forall2_nil_inv_l in H1 as ->. by apply Forall2_nil_inv_l in H2 as ->. }
  apply Forall2_cons_inv_l in H1 as (v & vs & Hv & H1 & ->).
  apply Forall2_cons_inv_l in H2 as (v' & vs' & Hv' & H2 & ->).
  unfold holds in Hv, Hv'. rewrite Hv in Hv'. injection Hv' as <-.
  f_equal. by apply IH.
Qed.

Lemma holds_same_files w w' pklist records :
  (forall pkl, pkl ∈ pklist -> fs w' !! pkl = fs w !! pkl) ->
  Forall2 (holds w') pklist records -> Forall2 (holds w) pklist records.
Proof.
  intros Hsame Hh. induction Hh as [|pkl v pklist records Hv Hh IH]; [constructor|].
  constructor.
  - unfold holds in *. rewrite <- Hsame; [done|by left].
  - apply IH. intros pkl' Hin. apply Hsame. by right.
Qed.

(** X19: applying a classifier to the directory it was trained on
    collects the training features again.  For a collection, a training
    on the dict it returned and an application of the bundle to the same
    directory, the features array, the object ids and the available
    features of the application are those of the collection, when the
    magnitude column is not ['objectid'], the requested features are
    distinct, none of them is a reserved key, neither the output file of
    the collection nor the classifier pickle is among the pickles read,
    and the glob lists for the application what it listed for the
    collection: no file written in between matches it. *)
Theorem apply_recollects_training_features featuresdir magcol outfile pklglob
    featurestouse maxobjects labeldict labeltype kw classifier_to_pickle
    outpickle w0 w1 w2 w3 fd c p :
  magcol <> "objectid" ->
  NoDup (featurestoget featurestouse) ->
  "objectids" ∉ featurestoget featurestouse ->
  "availablefeatures" ∉ featurestoget featurestouse ->
  "magcol" ∉ featurestoget featurestouse ->
  outfile ∉ truncate_pklist maxobjects
              (glob_glob (paths w0) (path_join featuresdir pklglob)) ->
  (forall path, classifier_to_pickle = Some path ->
     path ∉ truncate_pklist maxobjects
              (glob_glob (paths w0) (path_join featuresdir pklglob))) ->
  glob_glob (paths w2) (path_join featuresdir pklglob)
    = glob_glob (paths w0) (path_join featuresdir pklglob) ->
  collect_features featuresdir magcol outfile pklglob featurestouse maxobjects
                   labeldict labeltype w0 = (w1, Ok fd) ->
  train_rf_classifier (ArgDict (DictFeatures fd)) kw classifier_to_pickle w1
    = (w2, Ok (Some c)) ->
  apply_rf_classifier (ArgDict (DictClassifier c)) featuresdir outpickle
                      maxobjects w2 = (w3, Ok (Some p)) ->
  pred_features p !! "features_array" = fd !! "features_array" /\
  pred_features p !! "objectids" = fd !! "objectids" /\
  pred_features p !! "availablefeatures" = fd !! "availablefeatures".
Proof.
  intros Hm Hnd Hids Havail Hmag Hout Hcto Hsame Hc Ht Ha.
  set (feats := featurestoget featurestouse) in *.
  set (pklist := truncate_pklist maxobjects
                   (glob_glob (paths w0) (path_join featuresdir pklglob))) in *.
  (* the training collection *)
  pose proof (collect_features_written _ _ _ _ _ _ _ _ _ _ _ Hc) as (Hfs1 & _ & Hkw).
  destruct (collect_features_Ok featuresdir magcol outfile pklglob featurestouse
              maxobjects labeldict labeltype Hnd Hids Havail w0 w1 fd Hm Hc)
    as (records & fd2 & m & Hload & Hall & Hst & Ho & Hav & Hdom & Hmc & Hfin).
  apply finish_Ok in Hfin as (Hfa & _ & Hrest & _).
  pose proof (column_stack_Ok _ _ _ _ Hst) as (_ & Hne & _).
  fold feats in Hst, Hav, Hne.
  set (A := available magcol feats records) in *.
  assert (HfdA : fd !! "availablefeatures" = Some (DCell (CList (AStr <$> A)))).
  { rewrite Hrest by done. by rewrite Hav. }
  assert (HfdM : fd !! "magcol" = Some (DCell (CStr magcol))).
  { rewrite Hrest by done. by rewrite Hmc. }
  assert (HfdO : fd !! "objectids" = Some (DCell (CArray (AStr <$> seen_ids records)))).
  { rewrite Hrest by done. by rewrite Ho. }
  (* the bundle *)
  apply train_rf_classifier_Ok in Ht
    as (fdict & report & w1' & Hres & _ & _ & Hcn & Hcm & _ & Hck & _ & Hfsw & _ & Hw).
  apply resolve_Some in Hres as [_ ->].
  simpl in Hcn, Hcm, Hck. unfold pydict_get in Hcn, Hcm, Hck. simpl in Hcn, Hcm, Hck.
  rewrite HfdA in Hcn. rewrite HfdM in Hcm. rewrite Hkw in Hck.
  assert (Hfs2 : forall pkl, pkl ∈ pklist -> fs w2 !! pkl = fs w0 !! pkl).
  { intros pkl Hin.
    assert (fs w1' !! pkl = fs w0 !! pkl) as <-.
    { rewrite Hfsw, Hfs1. apply lookup_insert_ne. intros ->. done. }
    destruct classifier_to_pickle as [path|]; [|by subst].
    case_bool_decide; [by subst|].
    apply pickle_dump_Ok in Hw as [-> _]. apply lookup_insert_ne.
    intros Heq. apply (Hcto path); [done|]. by rewrite Heq. }
  (* the collection [apply_rf_classifier] makes *)
  apply apply_rf_classifier_Ok in Ha
    as (d & names & k & magcol' & w2' & Hres & Hn & Hk & Hmg & Hc2 & _ & _ & _).
  apply resolve_Some in Hres as [_ Hd]. injection Hd as ->.
  simpl in Hn, Hk, Hmg. unfold clf_lookup in Hn, Hk, Hmg. simpl in Hn, Hk, Hmg.
  destruct (clf_feature_names c) as [v1|]; [|done].
  destruct (clf_magcol c) as [v2|]; [|done].
  destruct (clf_collect_kwargs c) as [v3|]; [|done].
  simpl in Hcn, Hcm, Hck.
  injection Hcn as ->. injection Hcm as ->. injection Hck as ->.
  injection Hn as Hn. apply AStr_fmap_inj in Hn as <-.
  injection Hmg as <-. injection Hk as <-. simpl in Hc2.
  assert (HfA : featurestoget (Some A) = A).
  { destruct A; [done|reflexivity]. }
  assert (HndA : NoDup (featurestoget (Some A))).
  { rewrite HfA. apply available_NoDup. }
  assert (HidsA : "objectids" ∉ featurestoget (Some A)).
  { rewrite HfA. intros Hin. by apply available_sub in Hin. }
  assert (HavA : "availablefeatures" ∉ featurestoget (Some A)).
  { rewrite HfA. intros Hin. by apply available_sub in Hin. }
  destruct (collect_features_Ok featuresdir magcol (featfile_of outpickle) pklglob
              (Some A) maxobjects None "binary" HndA HidsA HavA w2 w2'
              (pred_features p) Hm Hc2)
    as (records' & fd2' & m' & Hload' & _ & Hst' & Ho' & Hav' & _ & _ & Hfin').
  apply finish_Ok in Hfin' as (Hfa' & _ & Hrest' & _).
  rewrite Hsame in Hload'. fold pklist in Hload'.
  assert (records' = records) as ->.
  { apply (holds_unique w0 pklist); [|done]. by apply (holds_same_files w0 w2). }
  rewrite HfA in Hst', Hav'.
  assert (Hfix : available magcol A records = A) by (by apply available_fixed).
  assert (Hcols : columns magcol A records = columns magcol feats records).
  { unfold columns. by rewrite Hfix. }
  rewrite Hcols, Hst in Hst'. injection Hst' as <-.
  split_and!.
  - by rewrite Hfa, Hfa'.
  - rewrite Hrest' by done. by rewrite Ho', HfdO.
  - rewrite Hrest' by done. by rewrite Hav', Hfix, HfdA.
Qed.
End RfclassGathering.

(** ** The report of the grid search *)

Section RfclassReport.
Import Rfclass.
Context `{Extern} `{Report}.

Lemma logged_nil w : logged [] w = w.
Proof. destruct w. unfold logged, set_log. simpl. by rewrite app_nil_r. Qed.

Lemma logged_app a b w : logged b (logged a w) = logged (a ++ b) w.
Proof. unfold logged, set_log. simpl. by rewrite app_assoc. Qed.

Lemma for_each_logged {A} (xs : list A) (body : A -> M world unit)
    (lines : A -> list logline) :
  (forall x w, x ∈ xs -> body x w = (logged (lines x) w, Ok tt)) ->
  forall w, for_each xs body w = (logged (x ← xs; lines x) w, Ok tt).
Proof.
  induction xs as [|x xs IH]; intros Hb w.
  { simpl. by rewrite logged_nil. }
  simpl. unfold bind. rewrite Hb by (by left).
  rewrite IH by (intros; apply Hb; by right).
  by rewrite logged_app.
Qed.

Lemma list_bind_bind {A B C} (f : A -> list B) (g : B -> list C) (l : list A) :
  (l ≫= f) ≫= g = l ≫= fun x => f x ≫= g.
Proof.
  induction l as [|x l IH]; [done|].
  by rewrite !bind_cons, bind_app, IH.
Qed.

Lemma flatnonzero_from_spec ranks i : forall start c,
  c ∈ flatnonzero_from start ranks i <->
  (start <= c)%nat /\ ranks !! (c - start)%nat = Some i.
Proof.
  induction ranks as [|r ranks IH]; intros start c; simpl.
  { split; [by intros ?%elem_of_nil|by intros [_ ?]]. }
  assert (Hs : (S start <= c)%nat /\ ranks !! (c - S start)%nat = Some i <->
               (start < c)%nat /\ (r :: ranks) !! (c - start)%nat = Some i).
  { split; intros [Hc Hl]; (split; [lia|]).
    - replace (c - start)%nat with (S (c - S start)) by lia. done.
    - replace (c - start)%nat with (S (c - S start)) in Hl by lia. done. }
  case_bool_decide as Hr.
  - rewrite elem_of_cons, IH, Hs. split.
    + intros [->|[Hc Hl]]; [|split; [lia|done]].
      split; [lia|]. rewrite Nat.sub_diag. simpl. by f_equal.
    + intros [Hc Hl]. destruct (decide (c = start)) as [->|Hne]; [by left|].
      right. split; [lia|done].
  - rewrite IH, Hs. split; [intros [Hc Hl]; split; [lia|done]|].
    intros [Hc Hl]. split; [|done].
    destruct (decide (c = start)) as [->|Hne]; [|lia].
    rewrite Nat.sub_diag in Hl. simpl in Hl. congruence.
Qed.

Lemma flatnonzero_from_sorted ranks i : forall start,
  StronglySorted lt (flatnonzero_from start ranks i).
Proof.
  induction ranks as [|r ranks IH]; intros start; simpl; [constructor|].
  case_bool_decide; [|apply IH].
  constructor; [apply IH|].
  apply Forall_forall. intros c Hc.
  apply flatnonzero_from_spec in Hc as [Hc _]. lia.
Qed.

Lemma flatnonzero_spec ranks i c :
  c ∈ flatnonzero ranks i <-> ranks !! c = Some i.
Proof.
  unfold flatnonzero. rewrite flatnonzero_from_spec, Nat.sub_0_r.
  split; [by intros [_ ?]|]. intros ?. split; [lia|done].
Qed.

Lemma reported_spec ranks n_top i c :
  (i, c) ∈ reported ranks n_top <-> ranks !! c = Some i /\ 1 <= i <= n_top.
Proof.
  unfold reported. rewrite list_elem_of_bind. split.
  - intros (j & Hc & Hj). apply list_elem_of_fmap in Hc as (c' & Heq & Hc).
    injection Heq as -> ->. apply flatnonzero_spec in Hc.
    apply elem_of_seqZ in Hj. split; [done|lia].
  - intros [Hc Hi]. exists i. split.
    + apply list_elem_of_fmap. exists c. split; [done|]. by apply flatnonzero_spec.
    + apply elem_of_seqZ. lia.
Qed.

Lemma reported_sorted ranks n_top : StronglySorted before (reported ranks n_top).
Proof.
  unfold reported, seqZ.
  generalize (Z.to_nat n_top) as n. intros n.
  assert (Hgen : forall start,
    StronglySorted before
      (i ← (fun k => Z.of_nat k + 1) <$> seq start n;
       (fun c => (i, c)) <$> flatnonzero ranks i) /\
    forall x, x ∈ (i ← (fun k => Z.of_nat k + 1) <$> seq start n;
                   (fun c => (i, c)) <$> flatnonzero ranks i) ->
              1 + Z.of_nat start <= x.1).
  { induction n as [|n IH]; intros start.
    { split; [constructor|]. intros x Hx. by apply elem_of_nil in Hx. }
    cbn [seq]. rewrite fmap_cons, bind_cons.
    destruct (IH (S start)) as [Hs Hlow]. split.
    - apply StronglySorted_app. split_and!; [| |done].
      + intros x y Hx Hy. apply list_elem_of_fmap in Hx as (c & -> & _).
        left. simpl. specialize (Hlow y Hy). lia.
      + apply (StronglySorted_fmap _ lt before).
        * intros a b Hab. right. simpl. done.
        * apply flatnonzero_from_sorted.
    - intros x Hx. apply elem_of_app in Hx as [Hx|Hx].
      + apply list_elem_of_fmap in Hx as (c & -> & _). simpl. lia.
      + specialize (Hlow x Hx). lia. }
  apply (proj1 (Hgen 0%nat)).
Qed.

Lemma report_candidate_Ok results means stds ps i c mean std p w :
  mean_test_score results = Some means -> std_test_score results = Some stds ->
  cv_params results = Some ps ->
  means !! c = Some mean -> stds !! c = Some std -> ps !! c = Some p ->
  report_candidate results i c w
    = (logged (candidate_lines means stds ps (i, c)) w, Ok tt).
Proof.
  intros Hm Hs Hp Hmean Hstd Hpar.
  unfold report_candidate, bind, LOGINFO, LOG, modify, lift, key, item, candidate_lines.
  rewrite Hm, Hs, Hp. simpl. rewrite Hmean, Hstd, Hpar.
  unfold logged, set_log. simpl. by rewrite <- !app_assoc.
Qed.

(** X20: the report of the grid search.  When [results] has the four
    arrays and the scores and settings are as long as the ranks,
    [gridsearch_report] returns and logs three lines for each candidate
    whose rank lies between 1 and [n_top], and nothing else: better ranks
    first, and candidates of one rank in the order of their indices. *)
Theorem gridsearch_report_lists_best_first results n_top ranks means stds ps w :
  rank_test_score results = Some ranks ->
  mean_test_score results = Some means ->
  std_test_score results = Some stds ->
  cv_params results = Some ps ->
  (length ranks <= length means)%nat ->
  (length ranks <= length stds)%nat ->
  (length ranks <= length ps)%nat ->
  gridsearch_report results n_top w
    = (logged (ic ← reported ranks n_top; candidate_lines means stds ps ic) w,
       Ok tt) /\
  (forall ic, ic ∈ reported ranks n_top ->
     length (candidate_lines means stds ps ic) = 3%nat) /\
  (forall i c, (i, c) ∈ reported ranks n_top <->
     ranks !! c = Some i /\ 1 <= i <= n_top) /\
  StronglySorted before (reported ranks n_top).
Proof.
  intros Hr Hm Hs Hp Hlm Hls Hlp.
  assert (Hin : forall c i, ranks !! c = Some i ->
            exists mean std p,
              means !! c = Some mean /\ stds !! c = Some std /\ ps !! c = Some p).
  { intros c i Hc. apply lookup_lt_Some in Hc.
    destruct (lookup_lt_is_Some_2 means c) as [mean ?]; [lia|].
    destruct (lookup_lt_is_Some_2 stds c) as [std ?]; [lia|].
    destruct (lookup_lt_is_Some_2 ps c) as [p ?]; [lia|]. eauto 10. }
  split_and!.
  - unfold gridsearch_report, reported.
    rewrite (for_each_logged (seqZ 1 n_top) (report_rank results)
               (fun i => ic ← (fun c => (i, c)) <$> flatnonzero ranks i;
                         candidate_lines means stds ps ic)).
    { by rewrite list_bind_bind. }
    intros i w' _. unfold report_rank, bind, lift, key. rewrite Hr.
    rewrite (for_each_logged (flatnonzero ranks i) (report_candidate results i)
               (fun c => candidate_lines means stds ps (i, c))).
    { by rewrite list_fmap_bind. }
    intros c w'' Hc. apply flatnonzero_spec in Hc.
    destruct (Hin c i Hc) as (mean & std & p & ? & ? & ?).
    by eapply report_candidate_Ok.
  - intros [i c] Hic. apply reported_spec in Hic as [Hc _].
    destruct (Hin c i Hc) as (mean & std & p & Hmean & Hstd & Hpar).
    unfold candidate_lines. simpl. by rewrite Hmean, Hstd, Hpar.
  - apply reported_spec.
  - apply reported_sorted.
Qed.
End RfclassReport.

(** ** Runs of the collector, the training and the report *)

Section RfclassGatheringRuns.
Import Rfclass RfclassDemo.

Ltac by_computation := apply (bool_decide_unpack _); vm_compute; exact I.

Ltac exposes_all :=
  intros f Hf; apply (bool_decide_unpack _);
  repeat (apply elem_of_cons in Hf as [->|Hf]; [vm_compute; exact I|]);
  by apply elem_of_nil in Hf.

(** C10, a run in the demo directory: with [maxobjects=0] the call
    returns, and what it returns is the collection of the two pickles the
    glob lists. *)
Lemma collect_features_maxobjects_zero_witness :
  exists w' fd,
    collect_features features_dir "aep_000" "/out/features.pkl"
      "varfeatures-*.pkl" (Some ["stetsonj"; "mad"]) (Some 0)
      (Some demo_labels) "binary" demo_world = (w', Ok fd) /\
    collection_of "aep_000" (featurestoget (Some ["stetsonj"; "mad"])) demo_world
      [pkl_a; pkl_b] fd.
Proof.
  destruct (collect_features_maxobjects_zero features_dir "aep_000"
              "/out/features.pkl" "varfeatures-*.pkl" (Some ["stetsonj"; "mad"])
              (Some demo_labels) "binary" demo_world)
    as (Hzero & _ & _ & _ & Hreturns).
  - discriminate.
  - by_computation.
  - by_computation.
  - by_computation.
  - destruct (Hreturns [varf_a; varf_b]) as (w' & fd & Hc).
    + repeat constructor; vm_compute; reflexivity.
    + discriminate.
    + repeat constructor.
      * exists features_a. split; [reflexivity|exposes_all].
      * exists features_b. split; [reflexivity|exposes_all].
    + apply map_Forall_singleton. by exists 1.
    + split_and!; [discriminate|reflexivity|vm_compute; discriminate|].
      right. vm_compute. reflexivity.
    + exists w', fd. split; [exact Hc|]. exact (Hzero w' fd Hc).
Defined.

(** X4, a run of [collect_features] that the conditions cover. *)
Lemma collect_features_returns_witness :
  exists w' fd,
    collect_features features_dir "aep_000" "/out/features.pkl"
      "varfeatures-*.pkl" (Some ["stetsonj"; "mad"]) None (Some demo_labels)
      "binary" demo_world = (w', Ok fd) /\
    fs w' = <["/out/features.pkl" := FPickle (PDict (DictFeatures fd))]>
              (fs demo_world).
Proof.
  apply (collect_features_returns features_dir "aep_000" "/out/features.pkl"
           "varfeatures-*.pkl" (Some ["stetsonj"; "mad"]) None
           (Some demo_labels) "binary" demo_world [varf_a; varf_b]).
  - repeat constructor; vm_compute; reflexivity.
  - discriminate.
  - repeat constructor.
    + exists features_a. split; [reflexivity|exposes_all].
    + exists features_b. split; [reflexivity|exposes_all].
  - by_computation.
  - by_computation.
  - by_computation.
  - apply map_Forall_singleton. by exists 1.
  - split_and!; [discriminate|reflexivity|vm_compute; discriminate|].
    right. vm_compute. reflexivity.
Defined.

(** X5, a run: the glob lists two pickles and [maxobjects=-2] leaves
    none of them. *)
Lemma collect_features_negative_maxobjects_witness :
  collect_features features_dir "aep_000" "/out/features.pkl" "varfeatures-*.pkl"
    (Some ["stetsonj"; "mad"]) (Some (-2)) (Some demo_labels) "binary" demo_world
  = (announced "aep_000" demo_world,
     Raise (ValueError "need at least one array to concatenate")).
Proof.
  apply (collect_features_negative_maxobjects features_dir "aep_000"
           "/out/features.pkl" "varfeatures-*.pkl" (Some ["stetsonj"; "mad"])
           (-2) (Some demo_labels) "binary" demo_world).
  - lia.
  - discriminate.
  - by_computation.
  - by_computation.
  - by_computation.
  - vm_compute. lia.
Defined.

(** X7, a run: the second record has no [mad], so the column of
    [stetsonj] has two values and that of [mad] one. *)
Lemma collect_features_ragged_witness :
  collect_features features_dir "aep_000" "/out/features.pkl" "varfeatures-*.pkl"
    (Some ["stetsonj"; "mad"]) None None "binary" (world_with varf_c)
  = (announced "aep_000" (world_with varf_c),
     Raise (ValueError "all the input array dimensions except for the concatenation axis must match exactly")).
Proof.
  apply (collect_features_ragged features_dir "aep_000" "/out/features.pkl"
           "varfeatures-*.pkl" (Some ["stetsonj"; "mad"]) None None "binary"
           (world_with varf_c) [varf_a; varf_c] "stetsonj" "mad").
  - repeat constructor; vm_compute; reflexivity.
  - repeat constructor; [exists features_a|exists features_c]; reflexivity.
  - by_computation.
  - by_computation.
  - by_computation.
  - by_computation.
  - by_computation.
  - vm_compute. discriminate.
  - vm_compute. discriminate.
  - vm_compute. discriminate.
Defined.

(** X8, a run: two records, two features, a matrix of two rows and two
    columns. *)
Lemma collect_features_columns_witness :
  exists records m,
    Forall2 (holds demo_world)
            (truncate_pklist None
               (glob_glob (paths demo_world)
                          (path_join features_dir "varfeatures-*.pkl")))
            records /\
    collected_dict !! "features_array" = Some (DMatrix m) /\
    collected_dict !! "availablefeatures"
      = Some (DCell (CList (AStr <$>
                available "aep_000" (featurestoget (Some ["stetsonj"; "mad"]))
                          records))) /\
    NoDup (available "aep_000" (featurestoget (Some ["stetsonj"; "mad"])) records) /\
    (forall f,
       f ∈ available "aep_000" (featurestoget (Some ["stetsonj"; "mad"])) records <->
       f ∈ featurestoget (Some ["stetsonj"; "mad"]) /\
       Exists (fun v => is_Some (feature_of "aep_000" f v)) records) /\
    ncols m
      = length (available "aep_000" (featurestoget (Some ["stetsonj"; "mad"]))
                          records) /\
    length (rows m) = nrows m /\
    (forall f,
       f ∈ available "aep_000" (featurestoget (Some ["stetsonj"; "mad"])) records ->
       occurrences "aep_000" f records = nrows m) /\
    (forall i k f row,
       rows m !! i = Some row ->
       available "aep_000" (featurestoget (Some ["stetsonj"; "mad"])) records !! k
         = Some f ->
       row !! k = column "aep_000" f records !! i).
Proof.
  apply (collect_features_columns features_dir "aep_000" "/out/features.pkl"
           "varfeatures-*.pkl" (Some ["stetsonj"; "mad"]) None
           (Some demo_labels) "binary" demo_world collected_world collected_dict).
  - discriminate.
  - by_computation.
  - by_computation.
  - by_computation.
  - exact collect_features_demo.
Defined.

Lemma collect_features_twin :
  collect_features features_dir "aep_000" "/out/features.pkl" "varfeatures-*.pkl"
    (Some ["stetsonj"; "mad"]) None (Some demo_labels) "binary"
    (world_with varf_twin)
  = (twin_collected_world, Ok twin_dict).
Proof. vm_compute. reflexivity. Qed.

(** X9, a run: two records of the object [HAT-001] give two rows, one id
    and one label. *)
Lemma collect_features_duplicate_ids_witness :
  exists m,
    twin_dict !! "features_array" = Some (DMatrix m) /\
    nrows m = length [varf_a; varf_twin] /\
    twin_dict !! "objectids"
      = Some (DCell (CArray (AStr <$> seen_ids [varf_a; varf_twin]))) /\
    NoDup (seen_ids [varf_a; varf_twin]) /\
    (forall id, id ∈ seen_ids [varf_a; varf_twin] <->
                id ∈ objectid <$> [varf_a; varf_twin]) /\
    (~ NoDup (objectid <$> [varf_a; varf_twin]) ->
     (length (seen_ids [varf_a; varf_twin]) < nrows m)%nat) /\
    (forall ld, Some demo_labels = Some ld ->
       exists labels, twin_dict !! "labels_array" = Some (DLabels labels) /\
                      length labels = length (seen_ids [varf_a; varf_twin])).
Proof.
  apply (collect_features_duplicate_ids features_dir "aep_000" "/out/features.pkl"
           "varfeatures-*.pkl" (Some ["stetsonj"; "mad"]) None
           (Some demo_labels) "binary" (world_with varf_twin)
           twin_collected_world twin_dict [varf_a; varf_twin]).
  - repeat constructor; vm_compute; reflexivity.
  - repeat constructor.
    + exists features_a. split; [reflexivity|exposes_all].
    + exists features_b. split; [reflexivity|exposes_all].
  - by_computation.
  - by_computation.
  - by_computation.
  - exact collect_features_twin.
Defined.

(** X10, a run: the second record has the column [aep_001] only. *)
Lemma collect_features_missing_magcol_witness :
  collect_features features_dir "aep_000" "/out/features.pkl" "varfeatures-*.pkl"
    (Some ["stetsonj"; "mad"]) None None "binary" (world_with varf_other)
  = (announced "aep_000" (world_with varf_other), Raise (KeyError "aep_000")).
Proof.
  apply (collect_features_missing_magcol features_dir "aep_000"
           "/out/features.pkl" "varfeatures-*.pkl" (Some ["stetsonj"; "mad"])
           None None "binary" (world_with varf_other) [varf_a; varf_other]).
  - repeat constructor; vm_compute; reflexivity.
  - apply Exists_cons_tl, Exists_cons_hd. vm_compute. reflexivity.
  - discriminate.
  - by_computation.
  - by_computation.
  - by_computation.
Defined.

(** X11, a run: no record has a [kurtosis]. *)
Lemma collect_features_nothing_available_witness :
  collect_features features_dir "aep_000" "/out/features.pkl" "varfeatures-*.pkl"
    (Some ["kurtosis"]) None None "binary" demo_world
  = (announced "aep_000" demo_world,
     Raise (ValueError "need at least one array to concatenate")).
Proof.
  apply (collect_features_nothing_available features_dir "aep_000"
           "/out/features.pkl" "varfeatures-*.pkl" (Some ["kurtosis"])
           None None "binary" demo_world [varf_a; varf_b]).
  - repeat constructor; vm_compute; reflexivity.
  - repeat constructor; [exists features_a|exists features_b]; reflexivity.
  - by_computation.
  - by_computation.
  - by_computation.
  - intros f v Hf Hv.
    apply elem_of_cons in Hf as [->|Hf]; [|by apply elem_of_nil in Hf].
    repeat (apply elem_of_cons in Hv as [->|Hv]; [vm_compute; reflexivity|]).
    by apply elem_of_nil in Hv.
Defined.

(** X12, a run: the collection of the two demo pickles. *)
Lemma collect_features_pickles_result_witness :
  fs collected_world
    = <["/out/features.pkl" := FPickle (PDict (DictFeatures collected_dict))]>
        (fs demo_world) /\
  log collected_world
    = log demo_world ++ [LogLine INFO "collecting features for magcol: %s" ["aep_000"]] /\
  pickle_load "/out/features.pkl" collected_world
    = (collected_world, Ok (PDict (DictFeatures collected_dict))) /\
  collected_dict !! "kwargs"
    = Some (DKwargs (Kwargs "varfeatures-*.pkl" (Some ["stetsonj"; "mad"]) None
                            "binary")).
Proof.
  exact (collect_features_pickles_result features_dir "aep_000"
           "/out/features.pkl" "varfeatures-*.pkl" (Some ["stetsonj"; "mad"])
           None (Some demo_labels) "binary" demo_world collected_world
           collected_dict collect_features_demo).
Defined.

Lemma collect_features_no_files :
  collect_features features_dir "aep_000" "/out/features.pkl" "missing-*.pkl"
    (Some ["stetsonj"; "mad"]) None None "binary" demo_world
  = (announced "aep_000" demo_world,
     Raise (ValueError "need at least one array to concatenate")).
Proof. vm_compute. reflexivity. Qed.

(** X13, a run: a glob that matches no file. *)
Lemma collect_features_failure_writes_nothing_witness :
  fs (announced "aep_000" demo_world) = fs demo_world /\
  log (announced "aep_000" demo_world)
    = log demo_world ++ [LogLine INFO "collecting features for magcol: %s" ["aep_000"]].
Proof.
  exact (collect_features_failure_writes_nothing features_dir "aep_000"
           "/out/features.pkl" "missing-*.pkl" (Some ["stetsonj"; "mad"])
           None None "binary" demo_world (announced "aep_000" demo_world)
           (ValueError "need at least one array to concatenate")
           collect_features_no_files).
Defined.

Lemma collect_features_multi :
  collect_features features_dir "aep_000" "/out/features.pkl" "varfeatures-*.pkl"
    (Some ["stetsonj"; "mad"]) None (Some demo_labels) "multi" demo_world
  = (multi_world, Ok multi_dict).
Proof. vm_compute. reflexivity. Qed.

(** X14, a run: with the label type ['multi'] the object labelled true
    gets a zero as well. *)
Lemma collect_features_unknown_labeltype_witness :
  exists labels,
    multi_dict !! "labels_array" = Some (DLabels labels) /\
    Forall (fun z => z = 0) labels.
Proof.
  apply (collect_features_unknown_labeltype features_dir "aep_000"
           "/out/features.pkl" "varfeatures-*.pkl" (Some ["stetsonj"; "mad"])
           None demo_labels "multi" demo_world multi_world multi_dict).
  - discriminate.
  - discriminate.
  - exact collect_features_multi.
Defined.

Lemma collect_features_unlabelled :
  collect_features features_dir "aep_000" "/out/actual-collected-features.pkl"
    "varfeatures-*.pkl" (Some ["stetsonj"; "mad"]) None None "binary" demo_world
  = (unlabelled_world, Ok applied_features).
Proof. vm_compute. reflexivity. Qed.

(** X15, a run: a collection without labels, given as a dict and as a
    path. *)
Lemma train_rf_classifier_needs_labels_witness :
  train_rf_classifier (ArgDict (DictFeatures applied_features)) demo_kwargs None
                      demo_world
    = (demo_world, Raise (KeyError "labels_array")) /\
  train_rf_classifier (ArgStr "/out/actual-collected-features.pkl") demo_kwargs
                      None unlabelled_world
    = (unlabelled_world, Raise (KeyError "labels_array")).
Proof.
  apply (train_rf_classifier_needs_labels features_dir "aep_000"
           "/out/actual-collected-features.pkl" "varfeatures-*.pkl"
           (Some ["stetsonj"; "mad"]) None "binary" demo_world unlabelled_world
           applied_features demo_kwargs None demo_world).
  - discriminate.
  - by_computation.
  - by_computation.
  - by_computation.
  - by_computation.
  - exact collect_features_unlabelled.
Defined.

Lemma train_rf_classifier_demo :
  train_rf_classifier (ArgDict (DictFeatures collected_dict)) demo_kwargs
                      (Some "/out/rf.pkl") collected_world
  = (trained_world, Ok (Some trained_bundle)).
Proof. vm_compute. reflexivity. Qed.

(** X16, a run: a training that pickles its bundle to [/out/rf.pkl]. *)
Lemma train_rf_classifier_pickles_bundle_witness :
  clf_kwargs trained_bundle = Some demo_kwargs /\
  (Some "/out/rf.pkl" = None \/ Some "/out/rf.pkl" = Some "" ->
   fs trained_world = fs collected_world) /\
  (forall path, Some "/out/rf.pkl" = Some path -> path <> "" ->
     fs trained_world
       = <[path := FPickle (PDict (DictClassifier trained_bundle))]>
           (fs collected_world) /\
     pickle_load path trained_world
       = (trained_world, Ok (PDict (DictClassifier trained_bundle))) /\
     forall varfeaturesdir outpickle maxobjects,
       apply_rf_classifier (ArgStr path) varfeaturesdir outpickle maxobjects
                           trained_world
       = apply_rf_classifier (ArgDict (DictClassifier trained_bundle))
                             varfeaturesdir outpickle maxobjects trained_world).
Proof.
  exact (train_rf_classifier_pickles_bundle
           (ArgDict (DictFeatures collected_dict)) demo_kwargs
           (Some "/out/rf.pkl") collected_world trained_world trained_bundle
           train_rf_classifier_demo).
Defined.

(** X17, a run: a dict without ['kwargs']. *)
Lemma train_rf_classifier_late_key_error_witness :
  exists w',
    train_rf_classifier (ArgDict (DictFeatures handmade_dict)) demo_kwargs
                        (Some "/out/rf.pkl") demo_world
      = (w', Raise (KeyError "kwargs")) /\
    fs w' = fs demo_world /\
    log w' = log demo_world ++
      LogLine INFO "running grid-search CV to optimize RF hyperparameters..." []
      :: [].
Proof.
  eapply (train_rf_classifier_late_key_error handmade_dict demo_kwargs
            (Some "/out/rf.pkl") demo_world).
  - reflexivity.
  - reflexivity.
  - by_computation.
  - by_computation.
  - by_computation.
  - vm_compute. reflexivity.
  - reflexivity.
  - reflexivity.
  - reflexivity.
Defined.

(** X18, a run: the application of the demo bundle. *)
Lemma apply_rf_classifier_pickles_result_witness :
  pred_featfile demo_prediction = featfile_of "/out/predictions.pkl" /\
  fs applied_world
    = <["/out/predictions.pkl" := FPickle (pickle_prediction demo_prediction)]>
        (<[featfile_of "/out/predictions.pkl" :=
             FPickle (PDict (DictFeatures (pred_features demo_prediction)))]>
           (fs demo_world)) /\
  pickle_load "/out/predictions.pkl" applied_world
    = (applied_world, Ok (pickle_prediction demo_prediction)) /\
  ("/out/predictions.pkl" <> featfile_of "/out/predictions.pkl" ->
   pickle_load (featfile_of "/out/predictions.pkl") applied_world
     = (applied_world, Ok (PDict (DictFeatures (pred_features demo_prediction))))) /\
  exists magcol,
    log applied_world
      = log demo_world ++ [LogLine INFO "collecting features for magcol: %s" [magcol]].
Proof.
  exact (apply_rf_classifier_pickles_result
           (ArgDict (DictClassifier (bundle "varfeatures-*.pkl" "classes")))
           features_dir "/out/predictions.pkl" None demo_world applied_world
           demo_prediction apply_rf_classifier_demo).
Defined.

Lemma apply_rf_classifier_trained :
  apply_rf_classifier (ArgDict (DictClassifier trained_bundle)) features_dir
                      "/out/predictions.pkl" None trained_world
  = (trained_applied_world, Ok (Some trained_prediction)).
Proof. vm_compute. reflexivity. Qed.

(** X19, a run: collection, training and application on the demo
    directory. *)
Lemma apply_recollects_training_features_witness :
  pred_features trained_prediction !! "features_array"
    = collected_dict !! "features_array" /\
  pred_features trained_prediction !! "objectids" = collected_dict !! "objectids" /\
  pred_features trained_prediction !! "availablefeatures"
    = collected_dict !! "availablefeatures".
Proof.
  apply (apply_recollects_training_features features_dir "aep_000"
           "/out/features.pkl" "varfeatures-*.pkl" (Some ["stetsonj"; "mad"])
           None (Some demo_labels) "binary" demo_kwargs (Some "/out/rf.pkl")
           "/out/predictions.pkl" demo_world collected_world trained_world
           trained_applied_world collected_dict trained_bundle trained_prediction).
  - discriminate.
  - by_computation.
  - by_computation.
  - by_computation.
  - by_computation.
  - by_computation.
  - intros path Hpath. injection Hpath as <-. by_computation.
  - vm_compute. reflexivity.
  - exact collect_features_demo.
  - exact train_rf_classifier_demo.
  - exact apply_rf_classifier_trained.
Defined.

(** X20, a run: of four candidates, the second and the fourth have the
    first rank and the first has the third; a report of the top three
    names them in that order. *)
Lemma gridsearch_report_lists_best_first_witness :
  gridsearch_report demo_results 3 demo_world
    = (logged (ic ← reported [3; 1; 4; 1] 3;
               candidate_lines ["0.812"; "0.934"; "0.655"; "0.934"]
                               ["0.031"; "0.012"; "0.101"; "0.020"]
                               ["{'n_estimators': 100}"; "{'n_estimators': 250}";
                                "{'n_estimators': 10}"; "{'n_estimators': 500}"]
                               ic)
              demo_world,
       Ok tt) /\
  (forall ic, ic ∈ reported [3; 1; 4; 1] 3 ->
     length (candidate_lines ["0.812"; "0.934"; "0.655"; "0.934"]
                             ["0.031"; "0.012"; "0.101"; "0.020"]
                             ["{'n_estimators': 100}"; "{'n_estimators': 250}";
                              "{'n_estimators': 10}"; "{'n_estimators': 500}"]
                             ic) = 3%nat) /\
  (forall i c, (i, c) ∈ reported [3; 1; 4; 1] 3 <->
     [3; 1; 4; 1] !! c = Some i /\ 1 <= i <= 3) /\
  StronglySorted before (reported [3; 1; 4; 1] 3).
Proof.
  apply (gridsearch_report_lists_best_first demo_results 3 [3; 1; 4; 1]
           ["0.812"; "0.934"; "0.655"; "0.934"]
           ["0.031"; "0.012"; "0.101"; "0.020"]
           ["{'n_estimators': 100}"; "{'n_estimators': 250}";
            "{'n_estimators': 10}"; "{'n_estimators': 500}"]
           demo_world).
  - reflexivity.
  - reflexivity.
  - reflexivity.
  - reflexivity.
  - simpl. lia.
  - simpl. lia.
  - simpl. lia.
Defined.
End RfclassGatheringRuns.
